(** * Ultimate Developer Tools (server.js): a shallow embedding and its verification

    The server is a Node.js program.  Its transformations work on JavaScript
    strings, which are sequences of UTF-16 code units, on byte buffers and on
    JSON documents.  The embedding keeps these data as the program has them:

    - a JavaScript string is a list of code units, each a [Z] in [0, 65536);
    - a [Buffer] is a list of bytes, each a [Z] in [0, 256);
    - a JavaScript object is an association list in property order;
    - a function that can throw returns a [result].

    Part I holds the definitions (platform functions first, then the functions
    of server.js under their own names), Part II the lemmas and theorems. *)

From Stdlib Require Import ZArith List Bool Lia String Ascii.
Import ListNotations.
Open Scope Z_scope.

(* ===================================================================== *)
(** * Part I: definitions                                                  *)
(* ===================================================================== *)

(** ** JavaScript strings *)

Definition jsstring := list Z.

(** An ASCII literal as a JavaScript string. *)
Definition js (s : string) : jsstring :=
  map (fun a => Z.of_N (N_of_ascii a)) (list_ascii_of_string s).

(** The same, with every apostrophe standing for a double quote, to write
    JSON texts. *)
Definition jq (s : string) : jsstring :=
  map (fun c => if c =? 39 then 34 else c) (js s).

Definition LF : Z := 10.

Fixpoint str_eqb (a b : jsstring) : bool :=
  match a, b with
  | [], [] => true
  | x :: a', y :: b' => (x =? y) && str_eqb a' b'
  | _, _ => false
  end.

(** ToBoolean on a string: the empty string is the only falsy one. *)
Definition truthy_str (s : jsstring) : bool :=
  match s with [] => false | _ => true end.

(** [s.split(sep)] for a separator of one code unit. *)
Fixpoint split (sep : Z) (s : jsstring) : list jsstring :=
  match s with
  | [] => [[]]
  | c :: r =>
      if c =? sep then [] :: split sep r
      else match split sep r with
           | h :: t => (c :: h) :: t
           | [] => [[c]]
           end
  end.

(** WhiteSpace and LineTerminator of ECMAScript, what [trim] removes. *)
Definition is_js_space (c : Z) : bool :=
  ((9 <=? c) && (c <=? 13)) || (c =? 32) || (c =? 160) || (c =? 5760)
  || ((8192 <=? c) && (c <=? 8202)) || (c =? 8232) || (c =? 8233)
  || (c =? 8239) || (c =? 8287) || (c =? 12288) || (c =? 65279).

Fixpoint drop_while (p : Z -> bool) (s : jsstring) : jsstring :=
  match s with
  | [] => []
  | c :: r => if p c then drop_while p r else s
  end.

Definition trim (s : jsstring) : jsstring :=
  rev (drop_while is_js_space (rev (drop_while is_js_space s))).

Definition is_digit (c : Z) : bool := (48 <=? c) && (c <=? 57).

Fixpoint starts_with (p s : jsstring) : bool :=
  match p, s with
  | [], _ => true
  | x :: p', y :: s' => (x =? y) && starts_with p' s'
  | _ :: _, [] => false
  end.

(** ** Exceptions *)

Record exn := Exn { exn_name : string; message : string }.

Definition Error (m : string) : exn := Exn "Error" m.

Inductive result (A : Type) : Type :=
| Ok (a : A)
| Throw (e : exn).
Arguments Ok {A} a.
Arguments Throw {A} e.

Definition bind {A B} (r : result A) (k : A -> result B) : result B :=
  match r with Ok a => k a | Throw e => Throw e end.

(** [try { body } catch (e) { handler }] *)
Definition try_catch {A} (body : result A) (handler : exn -> result A) : result A :=
  match body with Ok a => Ok a | Throw e => handler e end.

Declare Scope js_scope.
Delimit Scope js_scope with js.
Notation "x <- c ;; k" := (bind c (fun x => k))
  (at level 61, c at next level, right associativity) : js_scope.

(** ** Objects

    An ordinary object lists its own properties in the order of
    OrdinaryOwnPropertyKeys: the array indices first, in ascending order, then
    the other string keys in the order of their creation. *)

Module Obj.

Section Objects.
Context {V : Type}.

Definition t := list (jsstring * V).

Fixpoint get (o : t) (k : jsstring) : option V :=
  match o with
  | [] => None
  | (k', v) :: o' => if str_eqb k' k then Some v else get o' k
  end.

Definition has (o : t) (k : jsstring) : bool :=
  match get o k with Some _ => true | None => false end.

Fixpoint digits_value (acc : Z) (ds : jsstring) : Z :=
  match ds with
  | [] => acc
  | d :: r => digits_value (acc * 10 + (d - 48)) r
  end.

(** A key is an array index when it is the canonical decimal form of an
    integer below 2^32 - 1. *)
Definition array_index (k : jsstring) : option Z :=
  match k with
  | [] => None
  | c :: r =>
      if forallb is_digit k && ((Z.of_nat (List.length k)) <=? 10)
         && (negb (c =? 48) || match r with [] => true | _ => false end)
      then let n := digits_value 0 k in
           if n <? 4294967295 then Some n else None
      else None
  end.

Fixpoint replace (o : t) (k : jsstring) (v : V) : t :=
  match o with
  | [] => []
  | (k', v') :: o' =>
      if str_eqb k' k then (k', v) :: o' else (k', v') :: replace o' k v
  end.

Fixpoint insert_index (o : t) (i : Z) (k : jsstring) (v : V) : t :=
  match o with
  | [] => [(k, v)]
  | (k', v') :: o' =>
      match array_index k' with
      | Some j => if j <? i then (k', v') :: insert_index o' i k v
                  else (k, v) :: o
      | None => (k, v) :: o
      end
  end.

(** CreateDataProperty on an ordinary object. *)
Definition define (o : t) (k : jsstring) (v : V) : t :=
  if has o k then replace o k v
  else match array_index k with
       | Some i => insert_index o i k v
       | None => o ++ [(k, v)]
       end.

(** [o[k] = v] for a primitive [v] on an object whose prototype is
    Object.prototype: the key __proto__ reaches the inherited setter, which
    ignores a value that is neither an object nor null; every other key
    creates or updates an own property. *)
Definition assign_primitive (o : t) (k : jsstring) (v : V) : t :=
  if str_eqb k (js "__proto__") then o else define o k v.

Definition keys (o : t) : list jsstring := map fst o.

(** Keys in the order of OrdinaryOwnPropertyKeys: no key twice, and a key
    that is followed by an array index is a smaller array index. *)
Fixpoint canonical_keys (ks : list jsstring) : Prop :=
  match ks with
  | [] => True
  | k :: l =>
      ~ In k l
      /\ (forall x i, In x l -> array_index x = Some i ->
                      exists j, array_index k = Some j /\ j < i)
      /\ canonical_keys l
  end.

Definition canonical (o : t) : Prop := canonical_keys (keys o).

End Objects.

Arguments t V : clear implicits.

End Obj.

(** ** Buffers: UTF-8 and base64 as Node.js implements them *)

(** The elements of a buffer, and all of them in order. *)
Definition byte (b : Z) : Prop := 0 <= b < 256.

Definition bytes : list Z := map Z.of_nat (seq 0 256).

Module Utf8.

Definition is_high_surrogate (c : Z) : bool := (55296 <=? c) && (c <=? 56319).
Definition is_low_surrogate (c : Z) : bool := (56320 <=? c) && (c <=? 57343).
Definition is_surrogate (c : Z) : bool := (55296 <=? c) && (c <=? 57343).

(** A string is well formed when its code units are 16-bit values and every
    surrogate is half of a pair: it is then the UTF-16 form of a sequence of
    Unicode scalar values. *)
Fixpoint well_formed (s : jsstring) : bool :=
  match s with
  | [] => true
  | c :: r =>
      if is_high_surrogate c then
        match r with
        | d :: r' => is_low_surrogate d && well_formed r'
        | [] => false
        end
      else (0 <=? c) && (c <? 65536) && negb (is_low_surrogate c) && well_formed r
  end.

(** The code point of a surrogate pair. *)
Definition pair_code_point (hi lo : Z) : Z :=
  65536 + Z.shiftl (hi - 55296) 10 + (lo - 56320).

(** The UTF-8 bytes of a code point. *)
Definition encode_code_point (cp : Z) : list Z :=
  if cp <? 128 then [cp]
  else if cp <? 2048 then
    [Z.lor 192 (Z.shiftr cp 6); Z.lor 128 (Z.land cp 63)]
  else if cp <? 65536 then
    [Z.lor 224 (Z.shiftr cp 12);
     Z.lor 128 (Z.land (Z.shiftr cp 6) 63);
     Z.lor 128 (Z.land cp 63)]
  else
    [Z.lor 240 (Z.shiftr cp 18);
     Z.lor 128 (Z.land (Z.shiftr cp 12) 63);
     Z.lor 128 (Z.land (Z.shiftr cp 6) 63);
     Z.lor 128 (Z.land cp 63)].

Definition replacement : list Z := [239; 191; 189].

(** [Buffer.from(text)]: the UTF-8 form of the string; a surrogate that is
    not half of a pair is written as U+FFFD. *)
Fixpoint encode (s : jsstring) : list Z :=
  match s with
  | [] => []
  | c :: r =>
      if is_high_surrogate c then
        match r with
        | d :: r' =>
            if is_low_surrogate d
            then encode_code_point (pair_code_point c d) ++ encode r'
            else replacement ++ encode r
        | [] => replacement
        end
      else if is_low_surrogate c then replacement ++ encode r
      else encode_code_point c ++ encode r
  end.

(** The UTF-16 code units of a code point. *)
Definition utf16 (cp : Z) : jsstring :=
  if cp <? 65536 then [cp]
  else [55296 + Z.shiftr (cp - 65536) 10; 56320 + Z.land (cp - 65536) 1023].

(** The decoder is the automaton of the WHATWG Encoding standard, which V8
    follows: [needed] continuation bytes are awaited, the next one within
    [lower, upper]; a byte that cannot continue the sequence ends it with one
    U+FFFD and is read again as a first byte. *)
Record state := {
  code_point : Z;
  needed : nat;
  lower : Z;
  upper : Z
}.

Definition initial : state :=
  {| code_point := 0; needed := O; lower := 128; upper := 191 |}.

(** A byte read in the initial state. *)
Definition first_byte (b : Z) : jsstring * state :=
  if b <=? 127 then ([b], initial)
  else if (194 <=? b) && (b <=? 223) then
    ([], {| code_point := Z.land b 31; needed := 1; lower := 128; upper := 191 |})
  else if (224 <=? b) && (b <=? 239) then
    ([], {| code_point := Z.land b 15; needed := 2;
            lower := if b =? 224 then 160 else 128;
            upper := if b =? 237 then 159 else 191 |})
  else if (240 <=? b) && (b <=? 244) then
    ([], {| code_point := Z.land b 7; needed := 3;
            lower := if b =? 240 then 144 else 128;
            upper := if b =? 244 then 143 else 191 |})
  else ([65533], initial).

Definition step (st : state) (b : Z) : jsstring * state :=
  match needed st with
  | O => first_byte b
  | S n =>
      if (lower st <=? b) && (b <=? upper st) then
        let cp := Z.lor (Z.shiftl (code_point st) 6) (Z.land b 63) in
        match n with
        | O => (utf16 cp, initial)
        | S _ => ([], {| code_point := cp; needed := n; lower := 128; upper := 191 |})
        end
      else
        let '(out, st') := first_byte b in (65533 :: out, st')
  end.

Fixpoint decode_from (st : state) (bytes : list Z) : jsstring :=
  match bytes with
  | [] => match needed st with O => [] | S _ => [65533] end
  | b :: r => let '(out, st') := step st b in out ++ decode_from st' r
  end.

(** [buffer.toString('utf8')] *)
Definition decode (bytes : list Z) : jsstring := decode_from initial bytes.

(** The strict reading of one code point from exactly the given bytes, as
    decodeURIComponent needs it: [None] unless the bytes are the UTF-8 form
    of one Unicode scalar value. *)
Fixpoint decode_rest (st : state) (r : list Z) : option Z :=
  match r with
  | [] => None
  | c :: r' =>
      if (lower st <=? c) && (c <=? upper st) then
        let cp := Z.lor (Z.shiftl (code_point st) 6) (Z.land c 63) in
        match needed st with
        | S (S n) =>
            decode_rest {| code_point := cp; needed := S n;
                           lower := 128; upper := 191 |} r'
        | _ => match r' with [] => Some cp | _ => None end
        end
      else None
  end.

Definition decode_one (bytes : list Z) : option Z :=
  match bytes with
  | [] => None
  | b :: r =>
      let '(out, st) := first_byte b in
      match needed st with
      | O => match r with
             | [] => if b <=? 127 then Some b else None
             | _ => None
             end
      | S _ => decode_rest st r
      end
  end.

(** A Unicode scalar value. *)
Definition scalar (cp : Z) : Prop :=
  0 <= cp < 1114112 /\ ~ (55296 <= cp <= 57343).

(** A code unit that is a scalar value by itself. *)
Definition unit_scalar (c : Z) : Prop :=
  0 <= c < 65536 /\ is_surrogate c = false.

End Utf8.

Module Base64.

Definition alphabet : jsstring :=
  js "ABCDEFGHIJKLMNOPQRSTUVWXYZabcdefghijklmnopqrstuvwxyz0123456789+/".

Definition char_of (sextet : Z) : Z := nth (Z.to_nat sextet) alphabet 0.

(** [buffer.toString('base64')] *)
Fixpoint encode (bytes : list Z) : jsstring :=
  match bytes with
  | [] => []
  | [a] =>
      [char_of (Z.shiftr a 2);
       char_of (Z.shiftl (Z.land a 3) 4);
       61; 61]
  | [a; b] =>
      [char_of (Z.shiftr a 2);
       char_of (Z.lor (Z.shiftl (Z.land a 3) 4) (Z.shiftr b 4));
       char_of (Z.shiftl (Z.land b 15) 2);
       61]
  | a :: b :: c :: r =>
      char_of (Z.shiftr a 2)
      :: char_of (Z.lor (Z.shiftl (Z.land a 3) 4) (Z.shiftr b 4))
      :: char_of (Z.lor (Z.shiftl (Z.land b 15) 2) (Z.shiftr c 6))
      :: char_of (Z.land c 63)
      :: encode r
  end.

(** The decoding table of Node.js: the standard alphabet and the URL-safe
    characters [-] and [_]; every other character has no value. *)
Definition unbase64 (c : Z) : option Z :=
  if (65 <=? c) && (c <=? 90) then Some (c - 65)
  else if (97 <=? c) && (c <=? 122) then Some (c - 71)
  else if (48 <=? c) && (c <=? 57) then Some (c + 4)
  else if (c =? 43) || (c =? 45) then Some 62
  else if (c =? 47) || (c =? 95) then Some 63
  else None.

(** The decoder takes the low byte of every code unit, as the cast of the
    character to [uint8_t] does; it reads on over characters that have no
    value and stops at the first [=]. *)
Fixpoint sextets (s : jsstring) : list Z :=
  match s with
  | [] => []
  | u :: r =>
      let c := Z.land u 255 in
      match unbase64 c with
      | Some v => v :: sextets r
      | None => if c =? 61 then [] else sextets r
      end
  end.

(** Four sextets give three bytes; a last group of two or three gives one or
    two bytes, a last single sextet none. *)
Fixpoint bytes_of (sx : list Z) : list Z :=
  match sx with
  | a :: b :: r =>
      Z.lor (Z.shiftl (Z.land a 63) 2) (Z.shiftr (Z.land b 48) 4)
      :: match r with
         | c :: r' =>
             Z.lor (Z.shiftl (Z.land b 15) 4) (Z.shiftr (Z.land c 60) 2)
             :: match r' with
                | d :: r'' =>
                    Z.lor (Z.shiftl (Z.land c 3) 6) (Z.land d 63) :: bytes_of r''
                | [] => []
                end
         | [] => []
         end
  | _ => []
  end.

(** [Buffer.from(encoded, 'base64')]: it never throws on a string. *)
Definition decode (s : jsstring) : list Z := bytes_of (sextets s).

End Base64.

(** ** encodeURIComponent and decodeURIComponent (ECMAScript, Encode and Decode) *)

Module Uri.

Definition URIError : exn := Exn "URIError" "URI malformed".

Definition is_alnum (c : Z) : bool :=
  ((65 <=? c) && (c <=? 90)) || ((97 <=? c) && (c <=? 122)) || is_digit c.

(** uriUnescaped: the alphanumerics and the marks - _ . ! ~ * ' ( ) *)
Definition unescaped (c : Z) : bool :=
  is_alnum c
  || existsb (Z.eqb c) [45; 95; 46; 33; 126; 42; 39; 40; 41].

Definition hex_digit (v : Z) : Z := if v <? 10 then 48 + v else 55 + v.

Definition percent (b : Z) : jsstring :=
  [37; hex_digit (Z.shiftr b 4); hex_digit (Z.land b 15)].

Definition percent_all (bytes : list Z) : jsstring := flat_map percent bytes.

Fixpoint encodeURIComponent (s : jsstring) : result jsstring :=
  match s with
  | [] => Ok []
  | c :: r =>
      if unescaped c then
        (rest <- encodeURIComponent r ;; Ok (c :: rest))%js
      else if Utf8.is_high_surrogate c then
        match r with
        | d :: r' =>
            if Utf8.is_low_surrogate d then
              (rest <- encodeURIComponent r' ;;
               Ok (percent_all (Utf8.encode_code_point (Utf8.pair_code_point c d))
                   ++ rest))%js
            else Throw URIError
        | [] => Throw URIError
        end
      else if Utf8.is_low_surrogate c then Throw URIError
      else
        (rest <- encodeURIComponent r ;;
         Ok (percent_all (Utf8.encode_code_point c) ++ rest))%js
  end.

Definition hex_value (c : Z) : option Z :=
  if is_digit c then Some (c - 48)
  else if (65 <=? c) && (c <=? 70) then Some (c - 55)
  else if (97 <=? c) && (c <=? 102) then Some (c - 87)
  else None.

(** One escape sequence at the head of the string. *)
Definition read_escape (s : jsstring) : option (Z * jsstring) :=
  match s with
  | 37 :: h :: l :: r =>
      match hex_value h, hex_value l with
      | Some x, Some y => Some (16 * x + y, r)
      | _, _ => None
      end
  | _ => None
  end.

Fixpoint read_escapes (n : nat) (s : jsstring) : option (list Z) :=
  match n with
  | O => Some []
  | S n' =>
      match read_escape s with
      | Some (b, r) =>
          match read_escapes n' r with
          | Some bs => Some (b :: bs)
          | None => None
          end
      | None => None
      end
  end.

(** The number of leading 1 bits of a byte. *)
Definition leading_ones (b : Z) : nat :=
  if b <? 128 then 0%nat
  else if b <? 192 then 1%nat
  else if b <? 224 then 2%nat
  else if b <? 240 then 3%nat
  else if b <? 248 then 4%nat
  else 5%nat.

(** What Decode reads at an escape: the code units it appends and how many
    code units of the input it has consumed. *)
Definition decode_at (s : jsstring) : result (jsstring * nat) :=
  match read_escape s with
  | None => Throw URIError
  | Some (b, r) =>
      match leading_ones b with
      | O => Ok ([b], 3%nat)
      | S O => Throw URIError
      | S (S m as n') =>
          if Nat.ltb 4 (S n') then Throw URIError
          else match read_escapes n' r with
               | None => Throw URIError
               | Some bs =>
                   match Utf8.decode_one (b :: bs) with
                   | Some cp => Ok (Utf8.utf16 cp, (3 * S n')%nat)
                   | None => Throw URIError
                   end
               end
      end
  end.

(** The loop of Decode; [skip] counts the code units of the escape sequences
    already read that the index still has to pass. *)
Fixpoint decode_loop (skip : nat) (s : jsstring) : result jsstring :=
  match s with
  | [] => Ok []
  | c :: r =>
      match skip with
      | S k => decode_loop k r
      | O =>
          if c =? 37 then
            (res <- decode_at s ;;
             rest <- decode_loop (Nat.pred (snd res)) r ;;
             Ok (fst res ++ rest))%js
          else (rest <- decode_loop O r ;; Ok (c :: rest))%js
      end
  end.

Definition decodeURIComponent (s : jsstring) : result jsstring := decode_loop O s.

End Uri.

(** ** JSON.parse and JSON.stringify

    JSON numbers are IEEE 754 doubles.  Their conversion from and to decimal
    text is the platform's floating-point arithmetic; the embedding takes it as
    a parameter, [NumberModel], and states in [NumberLaws] the one property of
    Number::toString that ECMAScript guarantees and the proofs rely on. *)

Module Json.

Definition is_ws (c : Z) : bool := (c =? 32) || (c =? 9) || (c =? 10) || (c =? 13).

Definition skip_ws (s : jsstring) : jsstring := drop_while is_ws s.

Fixpoint span_digits (s : jsstring) : jsstring * jsstring :=
  match s with
  | c :: r => if is_digit c
              then let '(ds, r') := span_digits r in (c :: ds, r')
              else ([], s)
  | [] => ([], [])
  end.

(** The integer part of a number: a single 0, or digits that start with 1-9. *)
Definition lex_int (s : jsstring) : option (jsstring * jsstring) :=
  match s with
  | c :: r =>
      if c =? 48 then Some ([48], r)
      else if is_digit c then Some (span_digits s)
      else None
  | [] => None
  end.

Definition lex_frac (s : jsstring) : option (jsstring * jsstring) :=
  match s with
  | c :: r =>
      if c =? 46 then
        match span_digits r with
        | ([], _) => None
        | (ds, r') => Some (c :: ds, r')
        end
      else Some ([], s)
  | [] => Some ([], s)
  end.

Definition lex_exp (s : jsstring) : option (jsstring * jsstring) :=
  match s with
  | c :: r =>
      if (c =? 101) || (c =? 69) then
        let '(sg, r1) := match r with
                         | d :: r1 => if (d =? 43) || (d =? 45) then ([d], r1)
                                      else ([], r)
                         | [] => ([], r)
                         end in
        match span_digits r1 with
        | ([], _) => None
        | (ds, r2) => Some (c :: sg ++ ds, r2)
        end
      else Some ([], s)
  | [] => Some ([], s)
  end.

(** The number after its sign [sg]: the integer part, then an optional
    fraction and an optional exponent. *)
Definition lex_unsigned (sg s1 : jsstring) : option (jsstring * jsstring) :=
  match lex_int s1 with
  | None => None
  | Some (i, s2) =>
      match lex_frac s2 with
      | None => None
      | Some (f, s3) =>
          match lex_exp s3 with
          | None => None
          | Some (e, s4) => Some (sg ++ i ++ f ++ e, s4)
          end
      end
  end.

(** The longest number token at the head of the text, and what follows it. *)
Definition lex_number (s : jsstring) : option (jsstring * jsstring) :=
  match s with
  | c :: r => if c =? 45 then lex_unsigned [c] r else lex_unsigned [] s
  | [] => None
  end.

(** What stops a run of digits: the end, or a character that is no digit. *)
Definition stops_digits (rest : jsstring) : Prop :=
  match rest with
  | [] => True
  | c :: _ => is_digit c = false
  end.

(** One more code unit in front of what the lexer reads next. *)
Definition cons_result (c : Z) (r : option (jsstring * jsstring))
  : option (jsstring * jsstring) :=
  match r with
  | Some (str, rest) => Some (c :: str, rest)
  | None => None
  end.

Class NumberModel := {
  number : Type;
  (** the Number value of a JSON number token (StringToNumber) *)
  number_of_token : jsstring -> number;
  (** Number::toString *)
  number_to_string : number -> jsstring;
  (** neither NaN nor an infinity *)
  number_is_finite : number -> bool;
  (** ToBoolean is false: the number is +0, -0 or NaN *)
  number_is_falsy : number -> bool
}.

Class NumberLaws (M : NumberModel) : Prop := {
  (** The text of a finite number is a JSON number token, and the number that
      this token denotes is finite and has the same text. *)
  to_string_token : forall n,
    number_is_finite n = true ->
    lex_number (number_to_string n) = Some (number_to_string n, [])
    /\ number_is_finite (number_of_token (number_to_string n)) = true
    /\ number_to_string (number_of_token (number_to_string n)) = number_to_string n;
  (** The token 0 denotes zero. *)
  zero_token_falsy : number_is_falsy (number_of_token [48]) = true
}.

Section WithNumbers.
Context {M : NumberModel}.

#[warnings="-register-all"]
Inductive value :=
| VNull
| VBool (b : bool)
| VNum (n : number)
| VStr (s : jsstring)
| VArr (items : list value)
| VObj (props : Obj.t value).

(** ToBoolean *)
Definition truthy (v : value) : bool :=
  match v with
  | VNull => false
  | VBool b => b
  | VNum n => negb (number_is_falsy n)
  | VStr s => truthy_str s
  | VArr _ | VObj _ => true
  end.

(** *** Parsing *)

Definition hex4 (a b c d : Z) : option Z :=
  match Uri.hex_value a, Uri.hex_value b, Uri.hex_value c, Uri.hex_value d with
  | Some x, Some y, Some z, Some w => Some (4096 * x + 256 * y + 16 * z + w)
  | _, _, _, _ => None
  end.

(** The code unit of a one-character escape. *)
Definition simple_escape (e : Z) : option Z :=
  if e =? 34 then Some 34
  else if e =? 92 then Some 92
  else if e =? 47 then Some 47
  else if e =? 98 then Some 8
  else if e =? 102 then Some 12
  else if e =? 110 then Some 10
  else if e =? 114 then Some 13
  else if e =? 116 then Some 9
  else None.

(** A string literal after its opening quote. *)
Fixpoint lex_string (s : jsstring) : option (jsstring * jsstring) :=
  match s with
  | [] => None
  | c :: r =>
      if c =? 34 then Some ([], r)
      else if c =? 92 then
        match r with
        | [] => None
        | e :: r1 =>
            if e =? 117 then
              match r1 with
              | a :: b :: c' :: d :: r2 =>
                  match hex4 a b c' d with
                  | Some u =>
                      match lex_string r2 with
                      | Some (str, rest) => Some (u :: str, rest)
                      | None => None
                      end
                  | None => None
                  end
              | _ => None
              end
            else
              match simple_escape e with
              | Some u =>
                  match lex_string r1 with
                  | Some (str, rest) => Some (u :: str, rest)
                  | None => None
                  end
              | None => None
              end
        end
      else if c <? 32 then None
      else
        match lex_string r with
        | Some (str, rest) => Some (c :: str, rest)
        | None => None
        end
  end.

(** The object that JSON.parse builds from the members of an object
    literal: CreateDataProperty, member by member. *)
Definition object_of_members (ms : list (jsstring * value)) : Obj.t value :=
  fold_left (fun o kv => Obj.define o (fst kv) (snd kv)) ms [].

(** Recursive descent; [fuel] bounds the depth of the recursion and the
    number of elements met, and the length of the text is always enough
    (lemma [parse_fuel_enough] of Part II). *)
Fixpoint parse_value (fuel : nat) (s : jsstring) : option (value * jsstring) :=
  match fuel with
  | O => None
  | S f =>
      match skip_ws s with
      | [] => None
      | c :: r =>
          if c =? 123 then
            match skip_ws r with
            | [] => None
            | c' :: r' =>
                if c' =? 125 then Some (VObj [], r')
                else match parse_members f r with
                     | Some (ms, rest) => Some (VObj (object_of_members ms), rest)
                     | None => None
                     end
            end
          else if c =? 91 then
            match skip_ws r with
            | [] => None
            | c' :: r' =>
                if c' =? 93 then Some (VArr [], r')
                else match parse_elements f r with
                     | Some (vs, rest) => Some (VArr vs, rest)
                     | None => None
                     end
            end
          else if c =? 34 then
            match lex_string r with
            | Some (str, rest) => Some (VStr str, rest)
            | None => None
            end
          else if starts_with (js "true") (c :: r) then
            Some (VBool true, skipn 4 (c :: r))
          else if starts_with (js "false") (c :: r) then
            Some (VBool false, skipn 5 (c :: r))
          else if starts_with (js "null") (c :: r) then
            Some (VNull, skipn 4 (c :: r))
          else
            match lex_number (c :: r) with
            | Some (tok, rest) => Some (VNum (number_of_token tok), rest)
            | None => None
            end
      end
  end
with parse_elements (fuel : nat) (s : jsstring) : option (list value * jsstring) :=
  match fuel with
  | O => None
  | S f =>
      match parse_value f s with
      | None => None
      | Some (v, r) =>
          match skip_ws r with
          | [] => None
          | c :: r' =>
              if c =? 44 then
                match parse_elements f r' with
                | Some (vs, rest) => Some (v :: vs, rest)
                | None => None
                end
              else if c =? 93 then Some ([v], r')
              else None
          end
      end
  end
with parse_members (fuel : nat) (s : jsstring)
     : option (list (jsstring * value) * jsstring) :=
  match fuel with
  | O => None
  | S f =>
      match skip_ws s with
      | [] => None
      | q :: r =>
          if q =? 34 then
            match lex_string r with
            | None => None
            | Some (k, r1) =>
                match skip_ws r1 with
                | [] => None
                | colon :: r2 =>
                    if colon =? 58 then
                      match parse_value f r2 with
                      | None => None
                      | Some (v, r3) =>
                          match skip_ws r3 with
                          | [] => None
                          | c :: r4 =>
                              if c =? 44 then
                                match parse_members f r4 with
                                | Some (ms, rest) => Some ((k, v) :: ms, rest)
                                | None => None
                                end
                              else if c =? 125 then Some ([(k, v)], r4)
                              else None
                          end
                      end
                    else None
                end
            end
          else None
      end
  end.

(** [JSON.parse(text)]; [None] stands for the SyntaxError. *)
Definition parse (text : jsstring) : option value :=
  match parse_value (S (List.length text)) text with
  | Some (v, rest) => match skip_ws rest with [] => Some v | _ => None end
  | None => None
  end.

(** *** Serialising *)

Definition hex_lower (v : Z) : Z := if v <? 10 then 48 + v else 87 + v.

(** The escape \uXXXX of a code unit, in lower-case hexadecimal. *)
Definition unicode_escape (c : Z) : jsstring :=
  [92; 117;
   hex_lower (Z.shiftr c 12);
   hex_lower (Z.land (Z.shiftr c 8) 15);
   hex_lower (Z.land (Z.shiftr c 4) 15);
   hex_lower (Z.land c 15)].

(** QuoteJSONString, between the quotes. *)
Fixpoint quote_body (s : jsstring) : jsstring :=
  match s with
  | [] => []
  | c :: r =>
      if c =? 8 then 92 :: 98 :: quote_body r
      else if c =? 9 then 92 :: 116 :: quote_body r
      else if c =? 10 then 92 :: 110 :: quote_body r
      else if c =? 12 then 92 :: 102 :: quote_body r
      else if c =? 13 then 92 :: 114 :: quote_body r
      else if c =? 34 then 92 :: 34 :: quote_body r
      else if c =? 92 then 92 :: 92 :: quote_body r
      else if c <? 32 then unicode_escape c ++ quote_body r
      else if Utf8.is_high_surrogate c then
        match r with
        | d :: r' =>
            if Utf8.is_low_surrogate d then c :: d :: quote_body r'
            else unicode_escape c ++ quote_body r
        | [] => unicode_escape c
        end
      else if Utf8.is_low_surrogate c then unicode_escape c ++ quote_body r
      else c :: quote_body r
  end.

Definition quote (s : jsstring) : jsstring := 34 :: quote_body s ++ [34].

Fixpoint join (sep : jsstring) (parts : list jsstring) : jsstring :=
  match parts with
  | [] => []
  | [p] => p
  | p :: ps => p ++ sep ++ join sep ps
  end.

(** The end of SerializeJSONObject and SerializeJSONArray: the parts
    between the brackets [opening] and [closing]. *)
Definition wrap (opening closing : Z) (gap stepback : jsstring)
                (partial : list jsstring) : jsstring :=
  match partial with
  | [] => [opening; closing]
  | _ =>
      match gap with
      | [] => [opening] ++ join [44] partial ++ [closing]
      | _ =>
          let indent := stepback ++ gap in
          [opening; LF] ++ indent ++ join ([44; LF] ++ indent) partial
          ++ [LF] ++ stepback ++ [closing]
      end
  end.

(** SerializeJSONProperty on a value that JSON.parse has built. *)
Fixpoint serialize (gap indent : jsstring) (v : value) {struct v} : jsstring :=
  match v with
  | VNull => js "null"
  | VBool true => js "true"
  | VBool false => js "false"
  | VNum n => if number_is_finite n then number_to_string n else js "null"
  | VStr s => quote s
  | VArr items =>
      wrap 91 93 gap indent (map (serialize gap (indent ++ gap)) items)
  | VObj props =>
      wrap 123 125 gap indent
        (map (fun kv =>
                quote (fst kv) ++ [58]
                ++ match gap with [] => [] | _ => [32] end
                ++ serialize gap (indent ++ gap) (snd kv))
             props)
  end.

(** [JSON.stringify(v)] *)
Definition stringify (v : value) : jsstring := serialize [] [] v.

(** What JSON.parse gives back for the text that JSON.stringify wrote for a
    value: a number that is not finite was written as null, a finite one is
    read from its text, and an object is built again from its members. *)
Fixpoint normalize (v : value) : value :=
  match v with
  | VNum n =>
      if number_is_finite n then VNum (number_of_token (number_to_string n))
      else VNull
  | VArr items => VArr (map normalize items)
  | VObj props =>
      VObj (object_of_members (map (fun kv => (fst kv, normalize (snd kv))) props))
  | _ => v
  end.

(** The fuel that parsing the text of a value needs. *)
Fixpoint weight (v : value) : nat :=
  match v with
  | VArr items => S (list_sum (map (fun x => S (weight x)) items))
  | VObj props => S (list_sum (map (fun kv => S (weight (snd kv))) props))
  | _ => 1%nat
  end.

(** Code units as a parsed string has them: none is negative. *)
Definition units_ok (s : jsstring) : Prop := Forall (fun c => 0 <= c) s.

(** A value as JSON.parse builds it: strings and keys of code units, objects
    in property order. *)
Fixpoint well_built (v : value) : Prop :=
  match v with
  | VStr s => units_ok s
  | VArr items =>
      (fix all (l : list value) : Prop :=
         match l with
         | [] => True
         | x :: r => well_built x /\ all r
         end) items
  | VObj props =>
      Obj.canonical props
      /\ (fix all (l : list (jsstring * value)) : Prop :=
            match l with
            | [] => True
            | kv :: r => units_ok (fst kv) /\ well_built (snd kv) /\ all r
            end) props
  | _ => True
  end.

(** What may follow a value in a JSON text: the end, or a character that
    continues no number. *)
Definition delimited (rest : jsstring) : Prop :=
  match rest with
  | [] => True
  | c :: _ => is_digit c = false /\ c <> 46 /\ c <> 101 /\ c <> 69
  end.

(** [JSON.stringify(v, null, 2)] *)
Definition stringify2 (v : value) : jsstring := serialize [32; 32] [] v.

(** The whitespace that SerializeJSONObject and SerializeJSONArray write
    around the parts. *)
Definition inner_space (gap stepback : jsstring) : jsstring :=
  match gap with [] => [] | _ => LF :: stepback ++ gap end.

Definition outer_space (gap stepback : jsstring) : jsstring :=
  match gap with [] => [] | _ => LF :: stepback end.

(** One member of an object, as SerializeJSONObject writes it. *)
Definition member (gap indent : jsstring) (kv : jsstring * value) : jsstring :=
  quote (fst kv) ++ [58]
  ++ match gap with [] => [] | _ => [32] end
  ++ serialize gap indent (snd kv).

(** The text of a value, followed by [rest], is read as the normal form of
    the value and leaves [rest]. *)
Definition reads (v : value) : Prop :=
  forall gap indent rest fuel,
    forallb is_ws gap = true -> forallb is_ws indent = true ->
    delimited rest -> (weight v <= fuel)%nat ->
    parse_value fuel (serialize gap indent v ++ rest) = Some (normalize v, rest).

(** A text that starts with a character other than white space and the
    closing bracket of an array. *)
Definition not_closing (s : jsstring) : Prop :=
  exists c r, s = c :: r /\ is_ws c = false /\ c <> 93.

End WithNumbers.

End Json.

(** ** The transformations of server.js that need no platform model *)

Module Tools.

(** *** findDifferences *)

Record Difference := {
  line : Z;
  left : jsstring;
  right : jsstring;
  type : string
}.

(** [lines[i] || ''] *)
Definition line_or_empty (lines : list jsstring) (i : nat) : jsstring :=
  match nth_error lines i with
  | Some s => if truthy_str s then s else []
  | None => []
  end.

Definition findDifferences (text1 text2 : jsstring) : list Difference :=
  let lines1 := split LF text1 in
  let lines2 := split LF text2 in
  let maxLines := Nat.max (List.length lines1) (List.length lines2) in
  fold_left
    (fun differences i =>
       let line1 := line_or_empty lines1 i in
       let line2 := line_or_empty lines2 i in
       if negb (str_eqb line1 line2) then
         differences ++
           [ {| line := Z.of_nat i + 1;
                left := line1;
                right := line2;
                type := if truthy_str line1 && truthy_str line2 then "modified"
                        else if truthy_str line1 then "removed" else "added" |} ]
       else differences)
    (seq 0 maxLines) [].

(** *** csvToJson *)

(** [s.trim()] with every double quote removed *)
Definition clean_cell (s : jsstring) : jsstring :=
  filter (fun c => negb (c =? 34)) (trim s).

(** [values[index] || ''] *)
Definition value_or_empty (values : list jsstring) (index : nat) : jsstring :=
  match nth_error values index with
  | Some s => if truthy_str s then s else []
  | None => []
  end.

(** [obj[header] = values[index] || ''] *)
Definition set_cell (values : list jsstring) (obj : Obj.t jsstring)
           (hi : nat * jsstring) : Obj.t jsstring :=
  Obj.assign_primitive obj (snd hi) (value_or_empty values (fst hi)).

(** The body of the loop: one row object, its properties set header by
    header. *)
Definition csv_row (headers : list jsstring) (line : jsstring) : Obj.t jsstring :=
  let values := map clean_cell (split 44 line) in
  fold_left (set_cell values) (combine (seq 0 (List.length headers)) headers) [].

(** [line => line.trim()], as a test *)
Definition nonblank (line : jsstring) : bool := truthy_str (trim line).

Definition csvToJson (csvString : jsstring) : list (Obj.t jsstring) :=
  let lines := filter nonblank (split LF csvString) in
  match lines with
  | [] => []
  | line0 :: rows =>
      let headers := map clean_cell (split 44 line0) in
      map (csv_row headers) rows
  end.

(** *** creditCardValidator *)

Definition getCardType (number : jsstring) : string :=
  if starts_with [52] number then "visa"
  else if match number with
          | a :: c :: _ => (a =? 53) && (49 <=? c) && (c <=? 53)
          | _ => false
          end then "mastercard"
  else if match number with
          | a :: c :: _ => (a =? 51) && ((c =? 52) || (c =? 55))
          | _ => false
          end then "amex"
  else if starts_with [54; 48; 49; 49] number || starts_with [54; 53] number
       then "discover"
  else "unknown".

(** [number.replace(/(\d{4})/g, '$1 ')]: a space after every run of four
    digits, scanning from the left. *)
Fixpoint group4 (s : jsstring) : jsstring :=
  match s with
  | [] => []
  | a :: t =>
      match t with
      | b :: c :: d :: r =>
          if is_digit a && is_digit b && is_digit c && is_digit d
          then a :: b :: c :: d :: 32 :: group4 r
          else a :: group4 t
      | _ => s
      end
  end.

Definition formatCardNumber (number : jsstring) : jsstring :=
  if Nat.eqb (List.length number) 16 then trim (group4 number)
  else if Nat.eqb (List.length number) 15 then
    if forallb is_digit number then
      firstn 4 number ++ [32] ++ firstn 6 (skipn 4 number) ++ [32] ++ skipn 10 number
    else number
  else number.

Record CardValidation := {
  valid : bool;
  card_type : string;
  formatted : jsstring
}.

(** One turn of the loop, on the character at the current position. *)
Definition luhn_step (st : Z * bool) (c : Z) : Z * bool :=
  let '(sum, shouldDouble) := st in
  let digit := c - 48 in
  let digit := if shouldDouble
               then (let digit := digit * 2 in
                     if digit >? 9 then digit - 9 else digit)
               else digit in
  (sum + digit, negb shouldDouble).

Definition creditCardValidator (number : jsstring) : CardValidation :=
  let cleaned := filter is_digit number in
  let '(sum, _) := fold_left luhn_step (rev cleaned) (0, false) in
  {| valid := (sum mod 10 =? 0);
     card_type := getCardType cleaned;
     formatted := formatCardNumber cleaned |}.

End Tools.




(** ** The transformations of server.js over buffers, URIs and JSON *)

Module Codec.

Import Tools.

Definition base64Encode (text : jsstring) : jsstring :=
  Base64.encode (Utf8.encode text).

(** [Buffer.from(encoded, 'base64')] does not throw on a string, so the
    handler of the try statement is never entered. *)
Definition base64Decode (encoded : jsstring) : result jsstring :=
  try_catch (Ok (Utf8.decode (Base64.decode encoded)))
            (fun _ => Throw (Error "Invalid Base64 string")).

Definition urlEncode (text : jsstring) : result jsstring :=
  Uri.encodeURIComponent text.

Definition urlDecode (encoded : jsstring) : result jsstring :=
  Uri.decodeURIComponent encoded.

Section WithNumbers.
Context {M : Json.NumberModel}.

Definition SyntaxError : exn := Exn "SyntaxError" "Unexpected token in JSON".

(** [JSON.parse] as a function that throws. *)
Definition JSON_parse (text : jsstring) : result Json.value :=
  match Json.parse text with
  | Some v => Ok v
  | None => Throw SyntaxError
  end.

Definition formatJSON (jsonString : jsstring) : result jsstring :=
  try_catch (v <- JSON_parse jsonString ;; Ok (Json.stringify2 v))%js
            (fun _ => Throw (Error "Invalid JSON")).

Definition minifyJSON (jsonString : jsstring) : result jsstring :=
  try_catch (v <- JSON_parse jsonString ;; Ok (Json.stringify v))%js
            (fun _ => Throw (Error "Invalid JSON")).

Definition jwtDecode (token : jsstring) : result (Json.value * Json.value) :=
  try_catch
    (let parts := split 46 token in
     _ <- (if negb (Nat.eqb (List.length parts) 3)
           then Throw (Error "Invalid JWT format") else Ok tt) ;;
     header <- JSON_parse (Utf8.decode (Base64.decode (nth 0 parts []))) ;;
     payload <- JSON_parse (Utf8.decode (Base64.decode (nth 1 parts []))) ;;
     Ok (header, payload))%js
    (fun _ => Throw (Error "Invalid JWT token")).

End WithNumbers.

End Codec.

(** ** A model of the numbers: the integers

    The laws of [NumberLaws] are not empty: the integers, written in decimal,
    satisfy them ([IntegerFacts.laws] in Part II).  This model reads the
    integer part of a token; it is used where a closed statement needs some
    model of the numbers, and the numbers of these statements are integers. *)

Module IntegerNumbers.

Fixpoint digits_rev (fuel : nat) (n : Z) : jsstring :=
  match fuel with
  | O => []
  | S f => (48 + n mod 10) :: (if n <? 10 then [] else digits_rev f (n / 10))
  end.

(** The decimal digits of a natural number. *)
Definition digits (n : Z) : jsstring := rev (digits_rev (S (Z.to_nat (Z.log2 n))) n).

Definition decimal (z : Z) : jsstring :=
  if z <? 0 then 45 :: digits (- z) else digits z.

Definition integer_part (token : jsstring) : Z :=
  match token with
  | c :: r =>
      if c =? 45 then - Obj.digits_value 0 (fst (Json.span_digits r))
      else Obj.digits_value 0 (fst (Json.span_digits token))
  | [] => 0
  end.

#[export] Instance model : Json.NumberModel := {|
  Json.number := Z;
  Json.number_of_token := integer_part;
  Json.number_to_string := decimal;
  Json.number_is_finite := fun _ => true;
  Json.number_is_falsy := fun z => z =? 0
|}.

End IntegerNumbers.

(** ** The visitor counter and the request router *)

Module Server.

(** *** The visitor file

    visitors.json is written by trackVisitor only, so it is absent or holds
    the object of the last call.  The counters are integers; a property that
    has become NaN is written as null by JSON.stringify.  [lastUpdated] holds
    the text of an instant, [toISOString()], that is never the text of a
    number. *)

Inductive cell :=
| CNum (n : Z)
| CNaN
| CNull
| CDate (instant : Z).

Definition stats := Obj.t cell.

Definition file := option stats.

(** A property value as JSON.stringify writes it: NaN becomes null. *)
Definition written (c : cell) : cell :=
  match c with
  | CNaN => CNull
  | _ => c
  end.

(** [JSON.parse(JSON.stringify(data))] *)
Definition persisted (data : stats) : stats :=
  map (fun kv => (fst kv, written (snd kv))) data.

Definition zero_stats (now : Z) : stats :=
  [(js "total", CNum 0); (js "web", CNum 0); (js "api", CNum 0);
   (js "lastUpdated", CDate now)].

(** The properties of Object.prototype, which every one of these objects
    inherits: functions, and the accessor __proto__. *)
Definition object_prototype_keys : list jsstring :=
  map js ["constructor"; "__defineGetter__"; "__defineSetter__";
          "hasOwnProperty"; "__lookupGetter__"; "__lookupSetter__";
          "isPrototypeOf"; "propertyIsEnumerable"; "toString"; "valueOf";
          "__proto__"; "toLocaleString"]%string.

Definition inherited (k : jsstring) : bool :=
  existsb (str_eqb k) object_prototype_keys.

(** The value of [x + 1] where [x] is what a property read gave;
    [None] is undefined. *)
Definition plus_one (c : option cell) : cell :=
  match c with
  | Some (CNum n) => CNum (n + 1)
  | Some CNull => CNum 1
  | Some CNaN | Some (CDate _) | None => CNaN
  end.

(** [data[k]++] *)
Definition increment (data : stats) (k : jsstring) : stats :=
  match Obj.get data k with
  | Some c => Obj.define data k (plus_one (Some c))
  | None =>
      if inherited k
      then Obj.assign_primitive data k CNaN
      else Obj.define data k CNaN
  end.

(** [data[k] !== undefined] *)
Definition defined (data : stats) (k : jsstring) : bool :=
  Obj.has data k || inherited k.

(** A counter as the file holds it; an absent file has counted nothing. *)
Definition counter_of (k : jsstring) (f : file) : option cell :=
  match f with
  | Some data => Obj.get data k
  | None => Obj.get (zero_stats 0) k
  end.

Section WithNumbers.
Context {M : Json.NumberModel}.

Import Json.

Definition TypeError (m : string) : exn := Exn "TypeError" m.

(** ToString on a value that JSON.parse has built.  An object with an own
    property toString, which is no function, cannot be converted. *)
Fixpoint to_string (v : value) : result jsstring :=
  match v with
  | VNull => Ok (js "null")
  | VBool true => Ok (js "true")
  | VBool false => Ok (js "false")
  | VNum n => Ok (number_to_string n)
  | VStr s => Ok s
  | VArr items =>
      (fix join_items (items : list value) : result jsstring :=
         match items with
         | [] => Ok []
         | v :: rest =>
             (s <- match v with VNull => Ok [] | _ => to_string v end ;;
              match rest with
              | [] => Ok s
              | _ => (r <- join_items rest ;; Ok (s ++ [44] ++ r))
              end)%js
         end) items
  | VObj props =>
      if Obj.has props (js "toString")
      then Throw (TypeError "Cannot convert object to primitive value")
      else Ok (js "[object Object]")
  end.

(** trackVisitor, with the instant of the call and the content of the file.
    An exception inside the try statement leaves the file as it is. *)
Definition trackVisitor (type : value) (now : Z) (f : file) : stats * file :=
  let attempt :=
    (let data := match f with
                 | Some fileData => fileData
                 | None => zero_stats now
                 end in
     let data := increment data (js "total") in
     key <- to_string type ;;
     let data := if defined data key
                 then increment data key
                 else Obj.assign_primitive data key (CNum 1) in
     let data := Obj.assign_primitive data (js "lastUpdated") (CDate now) in
     Ok (persisted data))%js in
  match attempt with
  | Ok data => (data, Some data)
  | Throw _ => (zero_stats now, f)
  end.

Definition getVisitorStats (now : Z) (f : file) : stats :=
  match f with
  | Some fileData => fileData
  | None => zero_stats now
  end.

(** *** The router *)

Record request := {
  method : string;
  pathname : jsstring;
  body : jsstring
}.

Inductive answer :=
| Empty
| ErrorBody (error : string)
| Health (visitors : option cell)
| Stats (s : stats)
| Tracked (s : stats)
| Html.

(** What the server answers: a status and a body, or, when the router has
    invoked a transformation after its validation, what the transformation
    decides: 200 with its result, or 400 with the message of the exception
    it throws. *)
Inductive response :=
| Respond (status : Z) (content : answer)
| Transformed (path : string) (payload : value).

(** [path.replace(/^\/+|\/+$/g, '')] *)
Definition trim_slashes (path : jsstring) : jsstring :=
  rev (drop_while (Z.eqb 47) (rev (drop_while (Z.eqb 47) path))).

(** One case of the switch: the path, the properties of the payload that
    must be truthy with the message thrown otherwise, and the properties
    read for a default when nothing is required. *)
Record tool := {
  path : string;
  required : list string;
  required_message : string;
  optional : list string
}.

Definition tools : list tool :=
  [ {| path := "api/base64/encode"; required := ["text"];
       required_message := "Text is required"; optional := [] |};
    {| path := "api/base64/decode"; required := ["encoded"];
       required_message := "Encoded string is required"; optional := [] |};
    {| path := "api/convert/xml-to-json"; required := ["xml"];
       required_message := "XML is required"; optional := [] |};
    {| path := "api/convert/json-to-xml"; required := ["json"];
       required_message := "JSON is required"; optional := [] |};
    {| path := "api/convert/csv-to-json"; required := ["csv"];
       required_message := "CSV is required"; optional := [] |};
    {| path := "api/convert/csv-to-xml"; required := ["csv"];
       required_message := "CSV is required"; optional := [] |};
    {| path := "api/convert/url-encode"; required := ["text"];
       required_message := "Text is required"; optional := [] |};
    {| path := "api/convert/url-decode"; required := ["encoded"];
       required_message := "Encoded string is required"; optional := [] |};
    {| path := "api/convert/timestamp"; required := ["timestamp"];
       required_message := "Timestamp is required"; optional := [] |};
    {| path := "api/format/json"; required := ["json"];
       required_message := "JSON is required"; optional := [] |};
    {| path := "api/format/json-minify"; required := ["json"];
       required_message := "JSON is required"; optional := [] |};
    {| path := "api/format/xml-minify"; required := ["xml"];
       required_message := "XML is required"; optional := [] |};
    {| path := "api/generate/password"; required := [];
       required_message := ""; optional := ["length"; "type"] |};
    {| path := "api/generate/hash"; required := ["text"; "algorithm"];
       required_message := "Text and algorithm are required"; optional := [] |};
    {| path := "api/generate/uuid"; required := [];
       required_message := ""; optional := [] |};
    {| path := "api/generate/random"; required := [];
       required_message := ""; optional := ["length"] |};
    {| path := "api/decode/jwt"; required := ["token"];
       required_message := "JWT token is required"; optional := [] |};
    {| path := "api/compare/text"; required := ["text1"; "text2"];
       required_message := "Both texts are required"; optional := [] |};
    {| path := "api/tools/html-escape"; required := ["text"];
       required_message := "Text is required"; optional := [] |};
    {| path := "api/tools/html-unescape"; required := ["text"];
       required_message := "Text is required"; optional := [] |};
    {| path := "api/tools/string-length"; required := ["text"];
       required_message := "Text is required"; optional := [] |};
    {| path := "api/tools/convert-case"; required := ["text"; "caseType"];
       required_message := "Text and case type are required"; optional := [] |};
    {| path := "api/tools/format-sql"; required := ["sql"];
       required_message := "SQL is required"; optional := [] |};
    {| path := "api/tools/validate-credit-card"; required := ["number"];
       required_message := "Credit card number is required"; optional := [] |};
    {| path := "api/tools/validate-ip"; required := ["ip"];
       required_message := "IP address is required"; optional := [] |};
    {| path := "api/tools/validate-mac"; required := ["mac"];
       required_message := "MAC address is required"; optional := [] |};
    {| path := "api/tools/lorem-ipsum"; required := [];
       required_message := ""; optional := ["type"; "count"] |};
    {| path := "api/tools/checksum"; required := ["text"; "algorithm"];
       required_message := "Text and algorithm are required"; optional := [] |};
    {| path := "api/tools/qr-code"; required := ["text"];
       required_message := "Text is required"; optional := [] |} ]%string.

Definition find_tool (trimmedPath : jsstring) : option tool :=
  find (fun t => str_eqb (js (path t)) trimmedPath) tools.

(** The length of a string or of an array, as a Number. *)
Definition length_of (n : nat) : value :=
  VNum (number_of_token (IntegerNumbers.decimal (Z.of_nat n))).

(** [payload.name] for a payload that JSON.parse has built and a name that
    Object.prototype does not define: the own property of an object and a
    TypeError on null; on a string or an array the name length gives the
    number of the code units or of the elements, and every other name of the
    router gives undefined ([None]), as every name does on a number or a
    boolean. *)
Definition property (payload : value) (name : string) : result (option value) :=
  match payload with
  | VNull =>
      Throw (TypeError ("Cannot read properties of null (reading '"
                        ++ name ++ "')"))
  | VObj props => Ok (Obj.get props (js name))
  | VStr s =>
      Ok (if String.eqb name "length" then Some (length_of (List.length s))
          else None)
  | VArr items =>
      Ok (if String.eqb name "length" then Some (length_of (List.length items))
          else None)
  | VNum _ | VBool _ => Ok None
  end.

(** [!payload.name] *)
Definition falsy_property (payload : value) (name : string) : result bool :=
  (p <- property payload name ;;
   Ok (match p with Some v => negb (truthy v) | None => true end))%js.

(** [!payload.a || !payload.b], from left to right. *)
Fixpoint some_falsy (payload : value) (names : list string) : result bool :=
  match names with
  | [] => Ok false
  | name :: rest =>
      (b <- falsy_property payload name ;;
       if b then Ok true else some_falsy payload rest)%js
  end.

(** The switch statement, up to the call of the transformation. *)
Definition dispatch (trimmedPath : jsstring) (payload : value) : result tool :=
  match find_tool trimmedPath with
  | None => Throw (Error "Endpoint not found")
  | Some t =>
      match required t with
      | [] =>
          match optional t with
          | [] => Ok t
          | name :: _ => (_ <- property payload name ;; Ok t)%js
          end
      | names =>
          (missing <- some_falsy payload names ;;
           if missing then Throw (Error (required_message t))
           else Ok t)%js
      end
  end.

(** [buffer ? JSON.parse(buffer) : {}] *)
Definition parse_body (buffer : jsstring) : result value :=
  if truthy_str buffer then Codec.JSON_parse buffer else Ok (VObj []).

Definition api_path (trimmedPath : jsstring) : bool :=
  starts_with (js "api/") trimmedPath.

(** The request listener: the answer and the visitor file after it. *)
Definition server (now : Z) (req : request) (f : file) : response * file :=
  let trimmedPath := trim_slashes (pathname req) in
  let f := if String.eqb (method req) "GET" && negb (api_path trimmedPath)
           then snd (trackVisitor (VStr (js "web")) now f) else f in
  if String.eqb (method req) "OPTIONS" then
    (Respond 200 Empty, f)
  else if str_eqb trimmedPath (js "api/health") then
    let f := snd (trackVisitor (VStr (js "api")) now f) in
    (Respond 200 (Health (Obj.get (getVisitorStats now f) (js "total"))), f)
  else if str_eqb trimmedPath (js "api/visitors/stats")
          && String.eqb (method req) "GET" then
    (Respond 200 (Stats (getVisitorStats now f)), f)
  else if str_eqb trimmedPath (js "api/visitors/track")
          && String.eqb (method req) "POST" then
    match (payload <- parse_body (body req) ;;
           t <- property payload "type" ;;
           Ok (match t with
               | Some v => if truthy v then v else VStr (js "web")
               | None => VStr (js "web")
               end))%js with
    | Ok type =>
        let '(s, f) := trackVisitor type now f in
        (Respond 200 (Tracked s), f)
    | Throw _ =>
        (Respond 400 (ErrorBody "Invalid JSON"), f)
    end
  else if String.eqb (method req) "POST" && api_path trimmedPath then
    let f := snd (trackVisitor (VStr (js "api")) now f) in
    match parse_body (body req) with
    | Ok payload =>
        match dispatch trimmedPath payload with
        | Ok t => (Transformed (path t) payload, f)
        | Throw apiError => (Respond 400 (ErrorBody (message apiError)), f)
        end
    | Throw _ =>
        (Respond 400 (ErrorBody "Invalid JSON payload"), f)
    end
  else if String.eqb (method req) "GET" then
    (Respond 200 Html, f)
  else
    (Respond 404 (ErrorBody "Not found"), f).

(** Requests served one after the other, each at its instant. *)
Fixpoint serve_all (requests : list (Z * request)) (f : file) : file :=
  match requests with
  | [] => f
  | (now, req) :: rest => serve_all rest (snd (server now req f))
  end.

(** A POST to /api/visitors/track whose body supplies no type: the body is
    empty or a JSON text other than null, without a property type. *)
Definition tracks_without_type (req : request) : Prop :=
  method req = "POST"%string
  /\ trim_slashes (pathname req) = js "api/visitors/track"
  /\ exists payload,
       parse_body (body req) = Ok payload
       /\ property payload "type" = Ok None.

(** Calls of trackVisitor one after the other, each with its type and its
    instant. *)
Fixpoint track_all (calls : list (value * Z)) (f : file) : file :=
  match calls with
  | [] => f
  | (type, now) :: rest => track_all rest (snd (trackVisitor type now f))
  end.

Definition stats_request : request :=
  {| method := "GET"; pathname := js "/api/visitors/stats"; body := [] |}.

End WithNumbers.

End Server.

(** ** The specification's own words, for the refinement statements *)

Module Spec.

(** A side of the comparison at a line index; a side past its end counts as
    the empty string. *)
Definition side (lines : list jsstring) (i : nat) : jsstring := nth i lines [].

(** The type of a difference: modified when both sides are non-empty,
    removed when only the left one is, added when only the right one is. *)
Definition difference_type (left right : jsstring) : string :=
  match left, right with
  | _ :: _, _ :: _ => "modified"
  | _ :: _, [] => "removed"
  | [], _ => "added"
  end.

(** The Luhn checksum of a sequence of digits: counting from the rightmost
    digit, every second digit is doubled, 9 is taken from a double above 9, and
    the values are added. *)
Definition luhn_value (position_from_right : nat) (d : Z) : Z :=
  if Nat.odd position_from_right
  then (if 2 * d >? 9 then 2 * d - 9 else 2 * d)
  else d.

Fixpoint luhn_sum_from (position : nat) (digits_from_right : list Z) : Z :=
  match digits_from_right with
  | [] => 0
  | d :: r => luhn_value position d + luhn_sum_from (S position) r
  end.

Definition luhn_checksum (digits : list Z) : Z := luhn_sum_from 0 (rev digits).

(** The digits that remain of a string when everything else is stripped. *)
Definition digits_of (number : jsstring) : list Z :=
  map (fun c => c - 48) (filter is_digit number).

(** The card types and the leading digits of each, in the order in which
    they are tried. *)
Definition card_patterns : list (string * list jsstring) :=
  [ ("visa", [js "4"]);
    ("mastercard", [js "51"; js "52"; js "53"; js "54"; js "55"]);
    ("amex", [js "34"; js "37"]);
    ("discover", [js "6011"; js "65"]) ]%string.

Definition classify (digits : jsstring) : string :=
  match find (fun p => existsb (fun pre => starts_with pre digits) (snd p))
             card_patterns with
  | Some p => fst p
  | None => "unknown"
  end.

End Spec.

(** ** The text tools of server.js *)

Module Text.

(** *** String.prototype.replace with a global regular expression

    [match_at s] is the length of the match of the regular expression at the
    head of [s], when there is one; no expression of server.js matches the
    empty string.  The search goes from left to right and goes on behind
    each match; [skip] counts the code units of the last match that the
    index still has to pass.  [replacement] gives the text that replaces the
    matched one. *)
Section Replace.

Variable match_at : jsstring -> option nat.
Variable replacement : jsstring -> jsstring.

Fixpoint replace_from (skip : nat) (s : jsstring) : jsstring :=
  match s with
  | [] => []
  | c :: r =>
      match skip with
      | S k => replace_from k r
      | O =>
          match match_at s with
          | Some (S n) => replacement (firstn (S n) s) ++ replace_from n r
          | _ => c :: replace_from O r
          end
      end
  end.

Definition replace_global (s : jsstring) : jsstring := replace_from O s.

End Replace.

(** A regular expression that is one literal text. *)
Definition literal (pattern s : jsstring) : option nat :=
  if starts_with pattern s then Some (List.length pattern) else None.

(** [s.replace(/pattern/g, 'text')] for a literal pattern and a replacement
    text without a dollar sign. *)
Definition replace_literal (pattern text s : jsstring) : jsstring :=
  replace_global (literal pattern) (fun _ => text) s.

(** *** htmlEscape, htmlUnescape and escapeXml *)

Definition htmlEscape (text : jsstring) : jsstring :=
  replace_literal [39] (js "&#39;")
    (replace_literal [34] (js "&quot;")
       (replace_literal [62] (js "&gt;")
          (replace_literal [60] (js "&lt;")
             (replace_literal [38] (js "&amp;") text)))).

Definition htmlUnescape (text : jsstring) : jsstring :=
  replace_literal (js "&#39;") [39]
    (replace_literal (js "&quot;") [34]
       (replace_literal (js "&gt;") [62]
          (replace_literal (js "&lt;") [60]
             (replace_literal (js "&amp;") [38] text)))).

(** The character class of escapeXml: one of the five characters. *)
Definition xml_special (s : jsstring) : option nat :=
  match s with
  | c :: _ =>
      if (c =? 60) || (c =? 62) || (c =? 38) || (c =? 39) || (c =? 34)
      then Some 1%nat else None
  | [] => None
  end.

(** The function that escapeXml passes to replace: its switch statement. *)
Definition xml_entity (c : jsstring) : jsstring :=
  if str_eqb c [60] then js "&lt;"
  else if str_eqb c [62] then js "&gt;"
  else if str_eqb c [38] then js "&amp;"
  else if str_eqb c [39] then js "&apos;"
  else if str_eqb c [34] then js "&quot;"
  else c.

Definition escapeXml (unsafe : jsstring) : jsstring :=
  replace_global xml_special xml_entity unsafe.

(** *** minifyXML *)

Fixpoint take_while (p : Z -> bool) (s : jsstring) : jsstring :=
  match s with
  | [] => []
  | c :: r => if p c then c :: take_while p r else []
  end.

(** The regular expression of minifyXML: a closing bracket, white space,
    which the expression takes as far as it goes, and an opening bracket. *)
Definition tag_gap (s : jsstring) : option nat :=
  match s with
  | c :: r =>
      if c =? 62 then
        let spaces := take_while is_js_space r in
        match spaces, skipn (List.length spaces) r with
        | _ :: _, d :: _ =>
            if d =? 60 then Some (List.length spaces + 2)%nat else None
        | _, _ => None
        end
      else None
  | [] => None
  end.

Definition minifyXML (xmlString : jsstring) : jsstring :=
  trim (replace_global tag_gap (fun _ => [62; 60]) xmlString).

(** *** stringLength *)

(** [text.split(/\s+/)]: a separator is a run of white space as long as it
    goes; a separator at either end leaves an empty piece there. *)
Fixpoint split_spaces (s : jsstring) : list jsstring :=
  match s with
  | [] => [[]]
  | c :: r =>
      if is_js_space c then
        match r with
        | d :: _ => if is_js_space d then split_spaces r else [] :: split_spaces r
        | [] => [[]; []]
        end
      else
        match split_spaces r with
        | h :: t => (c :: h) :: t
        | [] => [[c]]
        end
  end.

Record Lengths := {
  characters : nat;
  bytes : nat;
  words : nat;
  lines : nat
}.

Definition stringLength (text : jsstring) : Lengths :=
  {| characters := List.length text;
     bytes := List.length (Utf8.encode text);
     words := List.length (filter (fun word => Nat.ltb 0 (List.length word))
                                  (split_spaces text));
     lines := List.length (split LF text) |}.

End Text.

(** ** The text tools in other words, for the statements about them *)

Module TextSpec.

(** What htmlEscape writes for one character. *)
Definition html_entity (c : Z) : jsstring :=
  if c =? 38 then js "&amp;"
  else if c =? 60 then js "&lt;"
  else if c =? 62 then js "&gt;"
  else if c =? 34 then js "&quot;"
  else if c =? 39 then js "&#39;"
  else [c].

(** What escapeXml writes for one character. *)
Definition xml_character (c : Z) : jsstring :=
  if c =? 60 then js "&lt;"
  else if c =? 62 then js "&gt;"
  else if c =? 38 then js "&amp;"
  else if c =? 39 then js "&apos;"
  else if c =? 34 then js "&quot;"
  else [c].

(** What is left of htmlEscape when htmlUnescape has replaced the first [k]
    of its entities, in its order. *)
Definition entity_after (k : nat) (c : Z) : jsstring :=
  if (c =? 38) && Nat.ltb k 1 then js "&amp;"
  else if (c =? 60) && Nat.ltb k 2 then js "&lt;"
  else if (c =? 62) && Nat.ltb k 3 then js "&gt;"
  else if (c =? 34) && Nat.ltb k 4 then js "&quot;"
  else if (c =? 39) && Nat.ltb k 5 then js "&#39;"
  else [c].

(** An entity that a replacement of the entity named [q] passes: the
    pattern matches neither at its ampersand nor inside it. *)
Definition passes (q fy fy' : jsstring) : Prop :=
  exists e, fy = 38 :: e /\ fy' = 38 :: e /\ ~ In 38 e
            /\ forall rest, starts_with q (e ++ rest) = false.

(** No part of the text is a closing bracket, white space and an opening
    bracket. *)
Fixpoint gap_free (s : jsstring) : Prop :=
  match s with
  | [] => True
  | _ :: r => Text.tag_gap s = None /\ gap_free r
  end.

(** The replacement of minifyXML. *)
Definition squeeze (s : jsstring) : jsstring :=
  Text.replace_global Text.tag_gap (fun _ => [62; 60]) s.

(** The code units of a JavaScript string: 16-bit values. *)
Definition units (s : jsstring) : Prop := Forall (fun c => 0 <= c < 65536) s.

(** The words of a text: the runs of characters other than white space, each
    as long as it goes.  [inside] tells that the character before belongs to
    a word. *)
Fixpoint count_words (inside : bool) (s : jsstring) : nat :=
  match s with
  | [] => 0
  | c :: r =>
      if is_js_space c then count_words false r
      else ((if inside then 0 else 1) + count_words true r)%nat
  end.

Definition nonempty (word : jsstring) : bool := Nat.ltb 0 (List.length word).

(** A character that encodeURIComponent writes: an unescaped one or the
    percent sign. *)
Definition uri_safe (c : Z) : Prop := Uri.unescaped c = true \/ c = 37.

End TextSpec.

(** ** Regular expressions

    The expressions that server.js tests a whole text against: character
    classes, sequences and bounded repetitions.  [matches r s k] tells
    whether [r] matches a prefix of [s] such that [k] accepts what follows;
    a repetition tries one more turn before it tries to stop, as the
    backtracking of RegExp.prototype.test does. *)

Module Regex.

Inductive regex :=
| Class (p : Z -> bool)
| Cat (a b : regex)
| Repeat (least more : nat) (r : regex).

(** The two loops of a repetition, over the matcher [m] of its body: the
    turns that must be, then the turns that may be. *)
Fixpoint upto (m : jsstring -> (jsstring -> bool) -> bool)
         (k : jsstring -> bool) (n : nat) (s : jsstring) : bool :=
  match n with
  | O => k s
  | S n' => m s (upto m k n') || k s
  end.

Fixpoint exactly (m : jsstring -> (jsstring -> bool) -> bool)
         (rest : jsstring -> bool) (n : nat) (s : jsstring) : bool :=
  match n with
  | O => rest s
  | S n' => m s (exactly m rest n')
  end.

Fixpoint matches (r : regex) (s : jsstring) (k : jsstring -> bool) : bool :=
  match r with
  | Class p =>
      match s with
      | c :: s' => p c && k s'
      | [] => false
      end
  | Cat a b => matches a s (fun s' => matches b s' k)
  | Repeat least more r' =>
      exactly (matches r') (upto (matches r') k more) least s
  end.

(** [/^r$/.test(s)] *)
Definition test (r : regex) (s : jsstring) : bool :=
  matches r s (fun rest => match rest with [] => true | _ => false end).

Definition character (c : Z) : regex := Class (Z.eqb c).

(** [[0-9a-fA-F]] *)
Definition is_hex (c : Z) : bool :=
  is_digit c || ((97 <=? c) && (c <=? 102)) || ((65 <=? c) && (c <=? 70)).

End Regex.

(** ** The validators of server.js *)

Module Validators.

Import Regex.

(** [parseInt(string)] without a radix; [None] is NaN.  White space at the
    front is passed, then a sign, then the prefix 0x or 0X of a hexadecimal
    number; the digits are read as far as they go. *)
Fixpoint radix_value (radix acc : Z) (ds : jsstring) : Z :=
  match ds with
  | [] => acc
  | d :: r =>
      radix_value radix
        (acc * radix + match Uri.hex_value d with Some v => v | None => 0 end) r
  end.

Definition parse_digits (radix : Z) (is_radix_digit : Z -> bool) (s : jsstring)
  : option Z :=
  match Text.take_while is_radix_digit s with
  | [] => None
  | ds => Some (radix_value radix 0 ds)
  end.

Definition parse_unsigned (s : jsstring) : option Z :=
  match s with
  | z :: x :: r =>
      if (z =? 48) && ((x =? 120) || (x =? 88))
      then parse_digits 16 is_hex r
      else parse_digits 10 is_digit s
  | _ => parse_digits 10 is_digit s
  end.

Definition parseInt (string : jsstring) : option Z :=
  match drop_while is_js_space string with
  | c :: r =>
      if c =? 45 then option_map Z.opp (parse_unsigned r)
      else if c =? 43 then parse_unsigned r
      else parse_unsigned (c :: r)
  | [] => None
  end.

(** [/^(\d{1,3}\.){3}\d{1,3}$/] *)
Definition ipv4Regex : regex :=
  Cat (Repeat 3 0 (Cat (Repeat 1 2 (Class is_digit)) (character 46)))
      (Repeat 1 2 (Class is_digit)).

(** [/^([0-9a-fA-F]{1,4}:){7}[0-9a-fA-F]{1,4}$/] *)
Definition ipv6Regex : regex :=
  Cat (Repeat 7 0 (Cat (Repeat 1 3 (Class is_hex)) (character 58)))
      (Repeat 1 3 (Class is_hex)).

Record IpValidation := {
  type : string;
  valid : bool
}.

Definition ipAddressValidator (ip : jsstring) : IpValidation :=
  if test ipv4Regex ip then
    let parts := split 46 ip in
    let valid :=
      forallb (fun part =>
                 match parseInt part with
                 | Some num => (0 <=? num) && (num <=? 255)
                 | None => false
                 end) parts in
    {| type := "IPv4"; valid := valid |}
  else if test ipv6Regex ip then
    {| type := "IPv6"; valid := true |}
  else
    {| type := "unknown"; valid := false |}.

(** [/^([0-9A-Fa-f]{2}[:-]){5}([0-9A-Fa-f]{2})$/] *)
Definition macRegex : regex :=
  Cat (Repeat 5 0 (Cat (Repeat 2 0 (Class is_hex))
                       (Class (fun c => (c =? 58) || (c =? 45)))))
      (Repeat 2 0 (Class is_hex)).

Definition macAddressValidator (mac : jsstring) : bool := test macRegex mac.

End Validators.

(** ** The validators in other words *)

Module ValidatorSpec.

Import Regex.

(** The texts that an expression matches as a whole. *)
Fixpoint lang (r : regex) (s : jsstring) : Prop :=
  match r with
  | Class p => exists c, s = [c] /\ p c = true
  | Cat a b => exists s1 s2, s = s1 ++ s2 /\ lang a s1 /\ lang b s2
  | Repeat least more r' =>
      exists pieces,
        s = List.concat pieces /\ Forall (lang r') pieces
        /\ (least <= List.length pieces <= least + more)%nat
  end.

(** A group of [least] to [most] characters of a class. *)
Definition group (p : Z -> bool) (least most : nat) (g : jsstring) : Prop :=
  (least <= List.length g <= most)%nat /\ forallb p g = true.

(** A part of a dotted address: one to three digits, at most 255. *)
Definition octet (g : jsstring) : Prop :=
  group is_digit 1 3 g /\ Obj.digits_value 0 g <= 255.

(** A MAC address: seventeen characters, every third one a colon or a
    hyphen, the others hexadecimal digits. *)
Definition mac_shape (mac : jsstring) : bool :=
  Nat.eqb (List.length mac) 17
  && forallb (fun ic => if Nat.eqb (fst ic mod 3) 2
                        then (snd ic =? 58) || (snd ic =? 45)
                        else is_hex (snd ic))
             (combine (seq 0 17) mac).

End ValidatorSpec.

(** ** jsonToXml and objectToXml *)

Module Xml.

Section WithNumbers.
Context {M : Json.NumberModel}.

Import Json.

(** [String(value)] for a value that is no object. *)
Definition string_of (v : value) : jsstring :=
  match v with
  | VNull => js "null"
  | VBool true => js "true"
  | VBool false => js "false"
  | VNum n => number_to_string n
  | VStr s => s
  | VArr _ | VObj _ => []
  end.

(** [tagName.replace(/s$/, '')] *)
Definition singular (tagName : jsstring) : jsstring :=
  match rev tagName with
  | c :: r => if c =? 115 then rev r else tagName
  | [] => tagName
  end.

Definition opening (tagName : jsstring) : jsstring := [60] ++ tagName ++ [62].

Definition closing (tagName : jsstring) : jsstring :=
  [60; 47] ++ tagName ++ [62].

(** objectToXml.  [Object.entries] throws a TypeError on null, and gives
    no entry for a number or a boolean. *)
Fixpoint objectToXml (obj : value) (tagName : jsstring) : result jsstring :=
  match obj with
  | VStr s => Ok (opening tagName ++ Text.escapeXml s ++ closing tagName)
  | VArr items =>
      (parts <-
         (fix each (items : list value) : result (list jsstring) :=
            match items with
            | [] => Ok []
            | item :: rest =>
                (part <- objectToXml item (singular tagName) ;;
                 parts <- each rest ;;
                 Ok (part :: parts))
            end) items ;;
       Ok (Json.join [LF] parts))%js
  | VObj props =>
      (fix entries (props : list (jsstring * value)) : result jsstring :=
         match props with
         | [] => Ok []
         | (key, value) :: rest =>
             (piece <-
                match value with
                | VArr _ | VObj _ =>
                    (inner <- objectToXml value key ;;
                     Ok (opening key ++ [LF] ++ inner ++ closing key ++ [LF]))
                | _ =>
                    Ok (opening key ++ Text.escapeXml (string_of value)
                        ++ closing key ++ [LF])
                end ;;
              xml <- entries rest ;;
              Ok (piece ++ xml))
         end)%js props
  | VNull =>
      Throw (Server.TypeError "Cannot convert undefined or null to object")
  | VNum _ | VBool _ => Ok []
  end.

Definition declaration : jsstring :=
  jq "<?xml version='1.0' encoding='UTF-8'?>" ++ [LF].

Definition jsonToXml (jsonString : jsstring) : result jsstring :=
  try_catch
    (obj <- Codec.JSON_parse jsonString ;;
     xml <- objectToXml obj (js "root") ;;
     Ok (declaration ++ xml))%js
    (fun _ => Throw (Error "Invalid JSON for XML conversion")).

End WithNumbers.

End Xml.

(** ** The XML conversion in other words *)

Module XmlSpec.

Section WithNumbers.
Context {M : Json.NumberModel}.

Import Json.

(** A value with a null where objectToXml converts an element: the value
    itself, an element of an array, or the same inside an array or an object
    that is the value of a property. *)
Fixpoint null_element (v : value) : bool :=
  match v with
  | VNull => true
  | VArr items => existsb null_element items
  | VObj props =>
      existsb (fun kv =>
                 match snd kv with
                 | VArr _ | VObj _ => null_element (snd kv)
                 | _ => false
                 end) props
  | _ => false
  end.

(** The error of Object.entries on null. *)
Definition null_error : exn :=
  Server.TypeError "Cannot convert undefined or null to object".

(** A number or a boolean. *)
Definition plain_scalar (v : value) : bool :=
  match v with
  | VNum _ | VBool _ => true
  | _ => false
  end.

End WithNumbers.

End XmlSpec.

(** ** The generators of server.js

    The random numbers come from outside.  [random_index k n] is the value of
    [Math.floor(Math.random() * n)] at the [k]-th call of Math.random, and
    [random_bytes n] the buffer that [crypto.randomBytes(n)] returns; what
    the platform guarantees of them is a hypothesis of the statements. *)

Module Generators.

Section Random.

Variable random_index : nat -> nat -> nat.
Variable random_bytes : nat -> list Z.

(** The options of generatePassword; [None] is a property that the object
    does not have. *)
Record Options := {
  uppercase : option bool;
  lowercase : option bool;
  numbers : option bool;
  symbols : option bool
}.

(** [option !== false] *)
Definition not_false (o : option bool) : bool :=
  match o with
  | Some false => false
  | _ => true
  end.

(** ToBoolean of an option *)
Definition set (o : option bool) : bool :=
  match o with
  | Some true => true
  | _ => false
  end.

Definition uppercase_letters : jsstring := js "ABCDEFGHIJKLMNOPQRSTUVWXYZ".
Definition lowercase_letters : jsstring := js "abcdefghijklmnopqrstuvwxyz".
Definition digit_characters : jsstring := js "0123456789".
Definition symbol_characters : jsstring := js "!@#$%^&*()_+-=[]{}|;:,.<>?".

(** The characters that generatePassword draws from. *)
Definition password_characters (options : Options) : jsstring :=
  let chars :=
    (if not_false (uppercase options) then uppercase_letters else [])
    ++ (if not_false (lowercase options) then lowercase_letters else [])
    ++ (if not_false (numbers options) then digit_characters else [])
    ++ (if set (symbols options) then symbol_characters else []) in
  match chars with
  | [] => uppercase_letters ++ lowercase_letters ++ digit_characters
  | _ => chars
  end.

(** [s.charAt(i)] *)
Definition charAt (s : jsstring) (i : nat) : jsstring :=
  match nth_error s i with
  | Some c => [c]
  | None => []
  end.

(** generatePassword, for a length that is an integer. *)
Definition generatePassword (length : Z) (options : Options) : jsstring :=
  let chars := password_characters options in
  flat_map (fun i => charAt chars (random_index i (List.length chars)))
           (seq 0 (Z.to_nat length)).

(** The options that the router builds from the type of the payload. *)
Definition password_options {M : Json.NumberModel} (pwdType : Json.value)
  : Options :=
  let named type := match pwdType with
                 | Json.VStr s => str_eqb s (js type)
                 | _ => false
                 end in
  if named "alphanumeric"%string then
    {| uppercase := None; lowercase := None; numbers := None;
       symbols := Some false |}
  else if named "letters"%string then
    {| uppercase := None; lowercase := None; numbers := Some false;
       symbols := Some false |}
  else if named "numbers"%string then
    {| uppercase := Some false; lowercase := Some false; numbers := None;
       symbols := Some false |}
  else
    {| uppercase := None; lowercase := None; numbers := None;
       symbols := Some true |}.

(** [buffer.toString('hex')] *)
Definition hex (buffer : list Z) : jsstring :=
  flat_map (fun b => [Json.hex_lower (Z.shiftr b 4); Json.hex_lower (Z.land b 15)])
           buffer.

(** generateRandomString, for a length that is a natural number:
    [Math.ceil(length / 2)] bytes, in hexadecimal, cut at [length]. *)
Definition generateRandomString (length : nat) : jsstring :=
  firstn length (hex (random_bytes (Nat.div2 (S length)))).

End Random.

End Generators.

(** ** The generators in other words *)

Module GeneratorSpec.

Definition is_letter (c : Z) : bool :=
  ((65 <=? c) && (c <=? 90)) || ((97 <=? c) && (c <=? 122)).

(** The characters that a password of a type may hold. *)
Definition password_class {M : Json.NumberModel} (pwdType : Json.value) (c : Z)
  : bool :=
  match pwdType with
  | Json.VStr s =>
      if str_eqb s (js "alphanumeric") then Uri.is_alnum c
      else if str_eqb s (js "letters") then is_letter c
      else if str_eqb s (js "numbers") then is_digit c
      else Uri.is_alnum c || existsb (Z.eqb c) (js "!@#$%^&*()_+-=[]{}|;:,.<>?")
  | _ => Uri.is_alnum c || existsb (Z.eqb c) (js "!@#$%^&*()_+-=[]{}|;:,.<>?")
  end.

(** A digit of the hexadecimal text of a buffer. *)
Definition is_lower_hex (c : Z) : bool :=
  is_digit c || ((97 <=? c) && (c <=? 102)).

End GeneratorSpec.

(** ** The visits of the request listener in other words *)

Module VisitorSpec.

Import Server.

(** A request for a page: a GET outside api/. *)
Definition web_visit (req : request) : bool :=
  String.eqb (method req) "GET"
  && negb (api_path (trim_slashes (pathname req))).

(** A request to the interface: the health check, or a POST under api/. *)
Definition api_visit (req : request) : bool :=
  negb (String.eqb (method req) "OPTIONS")
  && (str_eqb (trim_slashes (pathname req)) (js "api/health")
      || (String.eqb (method req) "POST"
          && api_path (trim_slashes (pathname req)))).

(** A request that names the type of its visit itself. *)
Definition tracking_call (req : request) : bool :=
  String.eqb (method req) "POST"
  && str_eqb (trim_slashes (pathname req)) (js "api/visitors/track").

(** The number of the requests of a kind. *)
Definition visits (kind : request -> bool) (requests : list (Z * request)) : Z :=
  Z.of_nat (List.length (filter (fun r => kind (snd r)) requests)).

(** The same request under another path. *)
Definition at_path (req : request) (p : jsstring) : request :=
  {| method := method req; pathname := p; body := body req |}.

End VisitorSpec.

(* ===================================================================== *)
(** * Part II: lemmas and theorems                                         *)
(* ===================================================================== *)

(** ** Strings and objects *)

Lemma str_eqb_eq (a b : jsstring) : str_eqb a b = true <-> a = b.
Proof.
  revert b; induction a as [|x a IH]; intros [|y b]; simpl; split;
    try congruence; try reflexivity.
  - intros H. apply andb_true_iff in H as [Hx Hab].
    apply Z.eqb_eq in Hx. apply IH in Hab. congruence.
  - intros H. injection H as -> ->. rewrite Z.eqb_refl. simpl. now apply IH.
Qed.

Lemma str_eqb_refl (a : jsstring) : str_eqb a a = true.
Proof. now apply str_eqb_eq. Qed.

Lemma str_eqb_neq (a b : jsstring) : str_eqb a b = false <-> a <> b.
Proof.
  split.
  - intros H E. apply str_eqb_eq in E. congruence.
  - intros H. destruct (str_eqb a b) eqn:E; [|reflexivity].
    apply str_eqb_eq in E. contradiction.
Qed.

Lemma str_eqb_sym (a b : jsstring) : str_eqb a b = str_eqb b a.
Proof.
  destruct (str_eqb a b) eqn:E1, (str_eqb b a) eqn:E2; try reflexivity.
  - apply str_eqb_eq in E1. subst. now rewrite str_eqb_refl in E2.
  - apply str_eqb_eq in E2. subst. now rewrite str_eqb_refl in E1.
Qed.

Lemma truthy_str_nonempty (s : jsstring) : truthy_str s = true <-> s <> [].
Proof. destruct s; simpl; split; congruence. Qed.

Module ObjFacts.

Section Objects.
Context {V : Type}.
Implicit Types (o : Obj.t V) (k : jsstring) (v : V).

Lemma get_app o o' k :
  Obj.get (o ++ o') k =
    match Obj.get o k with Some v => Some v | None => Obj.get o' k end.
Proof.
  induction o as [|[k1 v1] o IH]; simpl; [reflexivity|].
  destruct (str_eqb k1 k); [reflexivity|apply IH].
Qed.

Lemma get_replace o k v k' :
  Obj.get (Obj.replace o k v) k' =
    if str_eqb k k' then (if Obj.has o k then Some v else None)
    else Obj.get o k'.
Proof.
  unfold Obj.has. induction o as [|[k1 v1] o IH]; simpl.
  - now destruct (str_eqb k k').
  - destruct (str_eqb k1 k) eqn:E1; simpl.
    + apply str_eqb_eq in E1. subst k1.
      now destruct (str_eqb k k').
    + destruct (str_eqb k1 k') eqn:E2; simpl.
      * destruct (str_eqb k k') eqn:E3; [|reflexivity].
        apply str_eqb_eq in E2, E3. subst.
        now rewrite str_eqb_refl in E1.
      * apply IH.
Qed.

Lemma get_insert_index o i k v k' :
  Obj.has o k = false ->
  Obj.get (Obj.insert_index o i k v) k' =
    if str_eqb k k' then Some v else Obj.get o k'.
Proof.
  unfold Obj.has. induction o as [|[k1 v1] o IH]; simpl; intros Hk.
  - reflexivity.
  - destruct (str_eqb k1 k) eqn:E1; [discriminate|].
    assert (Hcons : Obj.get ((k, v) :: (k1, v1) :: o) k' =
                    if str_eqb k k' then Some v
                    else if str_eqb k1 k' then Some v1 else Obj.get o k')
      by reflexivity.
    destruct (Obj.array_index k1) as [j|]; [|exact Hcons].
    destruct (j <? i); [|exact Hcons].
    simpl. destruct (str_eqb k1 k') eqn:E2.
    + destruct (str_eqb k k') eqn:E3; [|reflexivity].
      apply str_eqb_eq in E2, E3. subst.
      now rewrite str_eqb_refl in E1.
    + now apply IH.
Qed.

Lemma get_define o k v k' :
  Obj.get (Obj.define o k v) k' =
    if str_eqb k k' then Some v else Obj.get o k'.
Proof.
  unfold Obj.define. destruct (Obj.has o k) eqn:Hk.
  - rewrite get_replace, Hk. reflexivity.
  - destruct (Obj.array_index k) as [i|].
    + now apply get_insert_index.
    + rewrite get_app. simpl.
      destruct (str_eqb k k') eqn:E.
      * apply str_eqb_eq in E. subst k'. unfold Obj.has in Hk.
        now destruct (Obj.get o k).
      * now destruct (Obj.get o k').
Qed.

Lemma get_define_eq o k v : Obj.get (Obj.define o k v) k = Some v.
Proof. now rewrite get_define, str_eqb_refl. Qed.

Lemma get_define_neq o k v k' :
  k <> k' -> Obj.get (Obj.define o k v) k' = Obj.get o k'.
Proof.
  intros H. rewrite get_define.
  apply str_eqb_neq in H. now rewrite H.
Qed.

Lemma keys_replace o k v : Obj.keys (Obj.replace o k v) = Obj.keys o.
Proof.
  unfold Obj.keys. induction o as [|[k1 v1] o IH]; simpl; [reflexivity|].
  destruct (str_eqb k1 k); simpl; [reflexivity|now rewrite IH].
Qed.

Lemma keys_insert_index o i k v k' :
  In k' (Obj.keys (Obj.insert_index o i k v)) <-> k' = k \/ In k' (Obj.keys o).
Proof.
  unfold Obj.keys. induction o as [|[k1 v1] o IH]; simpl.
  - intuition congruence.
  - destruct (Obj.array_index k1) as [j|]; [destruct (j <? i)|]; simpl;
      try rewrite IH; intuition congruence.
Qed.

Lemma keys_define o k v k' :
  In k' (Obj.keys (Obj.define o k v)) -> k' = k \/ In k' (Obj.keys o).
Proof.
  unfold Obj.define. destruct (Obj.has o k).
  - rewrite keys_replace. now right.
  - destruct (Obj.array_index k) as [i|].
    + now rewrite keys_insert_index.
    + unfold Obj.keys. rewrite map_app, in_app_iff. simpl. intuition.
Qed.

Lemma get_assign_primitive o k v k' :
  k <> js "__proto__" ->
  Obj.get (Obj.assign_primitive o k v) k' =
    if str_eqb k k' then Some v else Obj.get o k'.
Proof.
  intros H. unfold Obj.assign_primitive.
  apply str_eqb_neq in H. rewrite H. apply get_define.
Qed.

Lemma keys_assign_primitive o k v k' :
  In k' (Obj.keys (Obj.assign_primitive o k v)) -> k' = k \/ In k' (Obj.keys o).
Proof.
  unfold Obj.assign_primitive. destruct (str_eqb k (js "__proto__")).
  - now right.
  - apply keys_define.
Qed.

End Objects.

End ObjFacts.

(** ** The integers satisfy the laws of the numbers *)

Module IntegerFacts.

Import Json IntegerNumbers.

Lemma digits_value_snoc (l : jsstring) (x acc : Z) :
  Obj.digits_value acc (l ++ [x]) = Obj.digits_value acc l * 10 + (x - 48).
Proof.
  revert acc; induction l as [|d l IH]; intros acc; [reflexivity|].
  cbn [app Obj.digits_value]. apply IH.
Qed.

Lemma span_digits_all (l : jsstring) :
  Forall (fun c => is_digit c = true) l -> span_digits l = (l, []).
Proof.
  induction 1 as [|c l Hc Hl IH]; [reflexivity|].
  cbn [span_digits]. now rewrite Hc, IH.
Qed.

(** The digits written for a natural number: all are digits, the first is
    0 for zero only, and their value is the number. *)
Lemma digits_rev_spec (fuel : nat) :
  forall n, 0 <= n < 2 ^ Z.of_nat fuel -> (0 < fuel)%nat ->
    Forall (fun c => is_digit c = true) (rev (digits_rev fuel n))
    /\ Obj.digits_value 0 (rev (digits_rev fuel n)) = n
    /\ exists d ds, rev (digits_rev fuel n) = d :: ds
                    /\ (d = 48 -> n = 0 /\ ds = []).
Proof.
  induction fuel as [|f IH]; intros n Hn Hf; [lia|].
  rewrite Nat2Z.inj_succ, Z.pow_succ_r in Hn by lia.
  cbn [digits_rev]. destruct (Z.ltb_spec n 10) as [Small|Large].
  - rewrite Z.mod_small by lia. cbn [rev app Obj.digits_value].
    split; [|split].
    + constructor; [unfold is_digit; lia|constructor].
    + lia.
    + exists (48 + n), []. split; [reflexivity|]. intros; split; [lia|reflexivity].
  - assert (Hq : 0 <= n / 10 < 2 ^ Z.of_nat f)
      by (split; [apply Z.div_pos; lia|apply Z.div_lt_upper_bound; lia]).
    assert (Hf' : (0 < f)%nat).
    { destruct f; [|lia]. change (2 ^ Z.of_nat 0) with 1 in Hn. lia. }
    destruct (IH (n / 10) Hq Hf') as (Hall & Hval & d & ds & Hshape & Hzero).
    cbn [rev]. split; [|split].
    + apply Forall_app. split; [exact Hall|].
      constructor; [|constructor]. unfold is_digit.
      pose proof (Z.mod_pos_bound n 10 ltac:(lia)). lia.
    + rewrite digits_value_snoc, Hval.
      pose proof (Z.div_mod n 10 ltac:(lia)). lia.
    + exists d, (ds ++ [48 + n mod 10]). split.
      * now rewrite Hshape.
      * intros Hd. destruct (Hzero Hd) as [Hz _].
        assert (n < 10) by (apply Z.div_small_iff in Hz; lia). lia.
Qed.

Lemma digits_spec (n : Z) :
  0 <= n ->
  Forall (fun c => is_digit c = true) (digits n)
  /\ Obj.digits_value 0 (digits n) = n
  /\ exists d ds, digits n = d :: ds /\ (d = 48 -> n = 0 /\ ds = []).
Proof.
  intros Hn. unfold digits. apply digits_rev_spec; [|lia].
  split; [exact Hn|]. destruct (Z.eq_dec n 0) as [->|Hpos]; [reflexivity|].
  rewrite Nat2Z.inj_succ, Z2Nat.id by apply Z.log2_nonneg.
  apply Z.log2_spec. lia.
Qed.

Lemma lex_unsigned_digits (sg : jsstring) (n : Z) :
  0 <= n -> lex_unsigned sg (digits n) = Some (sg ++ digits n, []).
Proof.
  intros Hn. destruct (digits_spec n Hn) as (Hall & _ & d & ds & Hshape & Hzero).
  rewrite Hshape in *. unfold lex_unsigned, lex_int.
  destruct (Z.eqb_spec d 48) as [Hd|Hd].
  - destruct (Hzero Hd) as [_ ->]. subst d. reflexivity.
  - assert (Hdig : is_digit d = true) by now inversion Hall.
    rewrite Hdig, (span_digits_all _ Hall). cbn [lex_frac lex_exp].
    now rewrite !app_nil_r.
Qed.

Lemma integer_part_digits (n : Z) :
  0 <= n -> integer_part (digits n) = n.
Proof.
  intros Hn. destruct (digits_spec n Hn) as (Hall & Hval & d & ds & Hshape & _).
  rewrite Hshape in *. unfold integer_part.
  assert (Hdig : is_digit d = true) by now inversion Hall.
  destruct (Z.eqb_spec d 45) as [Hd|_]; [unfold is_digit in Hdig; lia|].
  now rewrite (span_digits_all _ Hall).
Qed.

Lemma lex_number_decimal (z : Z) :
  lex_number (decimal z) = Some (decimal z, []).
Proof.
  unfold decimal. destruct (Z.ltb_spec z 0) as [Neg|Pos].
  - unfold lex_number. rewrite Z.eqb_refl. apply (lex_unsigned_digits [45]). lia.
  - destruct (digits_spec z Pos) as (Hall & _ & d & ds & Hshape & _).
    pose proof (lex_unsigned_digits [] z Pos) as H. rewrite Hshape in *.
    unfold lex_number.
    assert (Hdig : is_digit d = true) by now inversion Hall.
    destruct (Z.eqb_spec d 45) as [Hd|_]; [unfold is_digit in Hdig; lia|].
    exact H.
Qed.

Lemma integer_part_decimal (z : Z) : integer_part (decimal z) = z.
Proof.
  unfold decimal. destruct (Z.ltb_spec z 0) as [Neg|Pos].
  - unfold integer_part. rewrite Z.eqb_refl.
    destruct (digits_spec (- z) ltac:(lia)) as (Hall & Hval & _).
    rewrite (span_digits_all _ Hall). cbn [fst]. lia.
  - now apply integer_part_digits.
Qed.

#[export] Instance laws : NumberLaws model.
Proof.
  split.
  - intros n _. cbn [number_to_string number_of_token number_is_finite model].
    rewrite integer_part_decimal. repeat split. apply lex_number_decimal.
  - reflexivity.
Qed.

End IntegerFacts.

(** ** findDifferences *)

Module DiffFacts.

Import Tools.

Lemma line_or_empty_side (lines : list jsstring) (i : nat) :
  line_or_empty lines i = Spec.side lines i.
Proof.
  unfold line_or_empty, Spec.side.
  destruct (nth_error lines i) as [s|] eqn:E.
  - rewrite (nth_error_nth _ _ _ E). now destruct s.
  - apply nth_error_None in E. now rewrite nth_overflow.
Qed.

Lemma type_matches (l r : jsstring) :
  (if truthy_str l && truthy_str r then "modified"
   else if truthy_str l then "removed" else "added")%string
  = Spec.difference_type l r.
Proof. now destruct l, r. Qed.

(** The loop pushes one record for each index at which the sides differ, in
    the order of the indices. *)
Lemma loop_records (lines1 lines2 : list jsstring) (indices : list nat)
      (acc : list Difference) :
  fold_left
    (fun differences i =>
       let line1 := line_or_empty lines1 i in
       let line2 := line_or_empty lines2 i in
       if negb (str_eqb line1 line2) then
         differences ++
           [ {| line := Z.of_nat i + 1;
                left := line1;
                right := line2;
                type := (if truthy_str line1 && truthy_str line2 then "modified"
                         else if truthy_str line1 then "removed" else "added")%string |} ]
       else differences)
    indices acc
  = acc ++
    map (fun i => {| line := Z.of_nat i + 1;
                     left := Spec.side lines1 i;
                     right := Spec.side lines2 i;
                     type := Spec.difference_type (Spec.side lines1 i)
                                                  (Spec.side lines2 i) |})
        (filter (fun i => negb (str_eqb (Spec.side lines1 i) (Spec.side lines2 i)))
                indices).
Proof.
  revert acc; induction indices as [|i indices IH]; intros acc; simpl.
  - now rewrite app_nil_r.
  - rewrite IH, !line_or_empty_side, type_matches.
    destruct (negb (str_eqb (Spec.side lines1 i) (Spec.side lines2 i)));
      simpl; [|reflexivity].
    now rewrite <- app_assoc.
Qed.

End DiffFacts.

(** C6.  findDifferences returns, in the order of the lines, one record for
    each 1-based line index up to the larger line count at which the two texts
    split at newlines differ, a side past its end counting as the empty
    string, and no record for equal lines; the type is modified when both
    sides are non-empty, removed when only the left one is, added when only
    the right one is.  The two examples of the specification are included. *)
Theorem findDifferences_spec :
  (forall text1 text2 : jsstring,
      let lines1 := split LF text1 in
      let lines2 := split LF text2 in
      let l i := Spec.side lines1 i in
      let r i := Spec.side lines2 i in
      Tools.findDifferences text1 text2 =
        map (fun i => {| Tools.line := Z.of_nat i + 1;
                         Tools.left := l i;
                         Tools.right := r i;
                         Tools.type := Spec.difference_type (l i) (r i) |})
            (filter (fun i => negb (str_eqb (l i) (r i)))
                    (seq 0 (Nat.max (List.length lines1) (List.length lines2)))))
  /\ (forall text1 text2 d,
         In d (Tools.findDifferences text1 text2) ->
         Tools.left d <> Tools.right d
         /\ (Tools.type d = "modified"%string
             <-> Tools.left d <> [] /\ Tools.right d <> [])
         /\ (Tools.type d = "removed"%string
             <-> Tools.left d <> [] /\ Tools.right d = [])
         /\ (Tools.type d = "added"%string
             <-> Tools.left d = [] /\ Tools.right d <> []))
  /\ Tools.findDifferences (js "a" ++ [LF] ++ js "b") (js "a" ++ [LF] ++ js "c")
     = [ {| Tools.line := 2; Tools.left := js "b"; Tools.right := js "c";
            Tools.type := "modified" |} ]
  /\ Tools.findDifferences (js "a") (js "a" ++ [LF] ++ js "b")
     = [ {| Tools.line := 2; Tools.left := []; Tools.right := js "b";
            Tools.type := "added" |} ].
Proof.
  assert (General : forall text1 text2 : jsstring,
      Tools.findDifferences text1 text2 =
        map (fun i => {| Tools.line := Z.of_nat i + 1;
                         Tools.left := Spec.side (split LF text1) i;
                         Tools.right := Spec.side (split LF text2) i;
                         Tools.type :=
                           Spec.difference_type (Spec.side (split LF text1) i)
                                                (Spec.side (split LF text2) i) |})
            (filter (fun i => negb (str_eqb (Spec.side (split LF text1) i)
                                            (Spec.side (split LF text2) i)))
                    (seq 0 (Nat.max (List.length (split LF text1))
                                    (List.length (split LF text2)))))).
  { intros text1 text2. unfold Tools.findDifferences.
    cbv zeta. now rewrite DiffFacts.loop_records. }
  split; [exact General|].
  split; [|split; reflexivity].
  intros text1 text2 d Hd. rewrite General in Hd.
  apply in_map_iff in Hd as (i & <- & Hi).
  apply filter_In in Hi as [_ Hi]. simpl.
  apply negb_true_iff, str_eqb_neq in Hi.
  destruct (Spec.side (split LF text1) i), (Spec.side (split LF text2) i);
    simpl; repeat split; intros; try congruence;
    try (intuition congruence).
Qed.

Lemma findDifferences_spec_witness :
  In {| Tools.line := 2; Tools.left := js "b"; Tools.right := [];
        Tools.type := "removed" |}
     (Tools.findDifferences (js "a" ++ [LF] ++ js "b") (js "a"))
  /\ (js "b" <> []
      /\ ("removed"%string = "modified"%string <-> js "b" <> [] /\ @nil Z <> [])
      /\ ("removed"%string = "removed"%string <-> js "b" <> [] /\ @nil Z = [])
      /\ ("removed"%string = "added"%string <-> js "b" = [] /\ @nil Z <> [])).
Proof.
  assert (H : In {| Tools.line := 2; Tools.left := js "b"; Tools.right := [];
                    Tools.type := "removed" |}
                 (Tools.findDifferences (js "a" ++ [LF] ++ js "b") (js "a")))
    by (left; reflexivity).
  split; [exact H|].
  exact (proj1 (proj2 findDifferences_spec) _ _ _ H).
Defined.

(** ** creditCardValidator *)

Module CardFacts.

Import Tools.

Lemma luhn_step_value (sum : Z) (pos : nat) (c : Z) :
  luhn_step (sum, Nat.odd pos) c
  = (sum + Spec.luhn_value pos (c - 48), Nat.odd (S pos)).
Proof.
  unfold luhn_step, Spec.luhn_value.
  rewrite Nat.odd_succ, <- Nat.negb_odd.
  replace ((c - 48) * 2) with (2 * (c - 48)) by lia.
  destruct (Nat.odd pos); reflexivity.
Qed.

Lemma luhn_loop (chars : jsstring) (sum : Z) (pos : nat) :
  fst (fold_left luhn_step chars (sum, Nat.odd pos))
  = sum + Spec.luhn_sum_from pos (map (fun c => c - 48) chars).
Proof.
  revert sum pos; induction chars as [|c chars IH]; intros sum pos;
    cbn [fold_left map Spec.luhn_sum_from fst].
  - lia.
  - rewrite luhn_step_value, IH. lia.
Qed.

Lemma getCardType_classify (digits : jsstring) :
  getCardType digits = Spec.classify digits.
Proof.
  unfold getCardType, Spec.classify, Spec.card_patterns.
  destruct digits as [|a [|b [|c [|d r]]]];
    cbn -[Z.eqb Z.leb];
    repeat match goal with
           | |- context [?x =? ?y] =>
               destruct (Z.eqb_spec x y); try lia; cbn -[Z.eqb Z.leb]
           | |- context [?x <=? ?y] =>
               destruct (Z.leb_spec x y); try lia; cbn -[Z.eqb Z.leb]
           end; reflexivity.
Qed.

End CardFacts.

(** C8.  creditCardValidator strips every character that is not a digit, is
    valid exactly when the Luhn checksum of the remaining digits is a multiple
    of 10, and classifies the type by the leading digits; the three examples of
    the specification are included. *)
Theorem creditCardValidator_spec :
  (forall number : jsstring,
      Tools.valid (Tools.creditCardValidator number)
      = (Spec.luhn_checksum (Spec.digits_of number) mod 10 =? 0)
      /\ Tools.card_type (Tools.creditCardValidator number)
         = Spec.classify (filter is_digit number))
  /\ Tools.valid (Tools.creditCardValidator (js "4539148803436467")) = true
  /\ Tools.valid (Tools.creditCardValidator (js "4539148803436468")) = false
  /\ Tools.card_type (Tools.creditCardValidator (js "4111111111111111"))
     = "visa"%string.
Proof.
  split; [|repeat split; reflexivity].
  intros number. unfold Tools.creditCardValidator.
  pose proof (CardFacts.luhn_loop (rev (filter is_digit number)) 0 0) as H.
  change (Nat.odd 0) with false in H.
  destruct (fold_left Tools.luhn_step (rev (filter is_digit number)) (0, false))
    as [sum b].
  simpl in H. simpl. split.
  - unfold Spec.luhn_checksum, Spec.digits_of. rewrite <- map_rev, H. reflexivity.
  - apply CardFacts.getCardType_classify.
Qed.

(** ** csvToJson *)

Module CsvFacts.

Import Tools.

Lemma value_or_empty_nth (values : list jsstring) (index : nat) :
  value_or_empty values index = nth index values [].
Proof.
  unfold value_or_empty.
  destruct (nth_error values index) as [s|] eqn:E.
  - rewrite (nth_error_nth _ _ _ E). now destruct s.
  - apply nth_error_None in E. now rewrite nth_overflow.
Qed.

Lemma combine_app {A B} (l1 l2 : list A) (m1 m2 : list B) :
  List.length l1 = List.length m1 ->
  combine (l1 ++ l2) (m1 ++ m2) = combine l1 m1 ++ combine l2 m2.
Proof.
  revert m1; induction l1 as [|a l1 IH]; intros [|b m1]; simpl;
    try discriminate; [reflexivity|].
  intros H. injection H as H. now rewrite IH.
Qed.

(** Headers that do not name [h] leave the property [h] as it is. *)
Lemma get_other_headers values (l : list (nat * jsstring)) obj h :
  (forall hi, In hi l -> snd hi <> h) ->
  Obj.get (fold_left (set_cell values) l obj) h = Obj.get obj h.
Proof.
  revert obj; induction l as [|[j k] l IH]; intros obj Hl; simpl; [reflexivity|].
  rewrite IH by (intros hi Hin; apply Hl; now right).
  unfold set_cell, Obj.assign_primitive. simpl.
  destruct (str_eqb k (js "__proto__")); [reflexivity|].
  apply ObjFacts.get_define_neq. apply (Hl (j, k)). now left.
Qed.

Lemma keys_headers values (l : list (nat * jsstring)) obj k :
  In k (Obj.keys (fold_left (set_cell values) l obj)) ->
  In k (Obj.keys obj) \/ In k (map snd l).
Proof.
  revert obj; induction l as [|[j h] l IH]; intros obj; simpl; [now left|].
  intros H. apply IH in H as [H|H]; [|now right; right].
  apply ObjFacts.keys_assign_primitive in H as [H|H]; simpl in *; intuition.
Qed.

(** The property of a row under a header that no later column repeats is the
    value of that column, the empty string when the row is too short. *)
Lemma row_cell (headers : list jsstring) (line : jsstring) (j : nat) (h : jsstring) :
  nth_error headers j = Some h ->
  h <> js "__proto__" ->
  (forall j', (j < j')%nat -> nth_error headers j' <> Some h) ->
  Obj.get (csv_row headers line) h
  = Some (nth j (map clean_cell (split 44 line)) []).
Proof.
  intros Hj Hproto Hlast.
  destruct (nth_error_split _ _ Hj) as (h1 & h2 & -> & Hlen).
  unfold csv_row. cbv zeta.
  rewrite length_app, seq_app, combine_app by (now rewrite length_seq).
  simpl List.length. simpl seq. simpl combine.
  rewrite fold_left_app. simpl fold_left.
  rewrite get_other_headers.
  - unfold set_cell. simpl fst. simpl snd.
    rewrite ObjFacts.get_assign_primitive by assumption.
    rewrite str_eqb_refl, value_or_empty_nth. now subst j.
  - intros [j' k] Hin. simpl. intros ->.
    apply in_combine_r in Hin.
    apply In_nth_error in Hin as [n Hn].
    apply (Hlast (List.length h1 + S n)%nat); [lia|].
    rewrite nth_error_app2 by lia.
    replace (List.length h1 + S n - List.length h1)%nat with (S n) by lia.
    exact Hn.
Qed.

(** No column creates a property named __proto__. *)
Lemma no_proto_key values (l : list (nat * jsstring)) obj :
  ~ In (js "__proto__") (Obj.keys obj) ->
  ~ In (js "__proto__") (Obj.keys (fold_left (set_cell values) l obj)).
Proof.
  revert obj; induction l as [|[j h] l IH]; intros obj Hobj; [exact Hobj|].
  cbn [fold_left]. apply IH. unfold set_cell, Obj.assign_primitive. cbn [fst snd].
  destruct (str_eqb h (js "__proto__")) eqn:E; [exact Hobj|].
  intros Hin. apply ObjFacts.keys_define in Hin as [Hk|Hin]; [|now apply Hobj].
  rewrite <- Hk, str_eqb_refl in E. discriminate.
Qed.

Lemma row_keys (headers : list jsstring) (line : jsstring) (k : jsstring) :
  In k (Obj.keys (csv_row headers line)) -> In k headers.
Proof.
  unfold csv_row. cbv zeta. intros H.
  apply (keys_headers (map clean_cell (split 44 line))) in H as [H|H].
  - destruct H.
  - apply in_map_iff in H as ([j h] & <- & H). now apply in_combine_r in H.
Qed.

End CsvFacts.

(** C7.  csvToJson returns one row object for each non-blank line after the
    header line, in order, with its keys among the column names of the header
    line, trimmed and without quotes; under every column name other than
    __proto__ (the last column of that name, when a name is repeated) stands
    the trimmed, quote-free value of the column, the empty string when the row
    is shorter than the header; a text without a non-blank line gives the
    empty sequence, and the example of the specification holds.  For a column
    named __proto__ the assignment to obj[header] in the loop misses: it sets
    no key, so that no row has the key __proto__, and the text of the lines
    a,__proto__ and 1,2 and 3 gives the rows {a: 1} and {a: 3}, where the
    claim asks for the second key with the value 2 and with the empty
    string. *)
Theorem csvToJson_spec :
  (forall csv, filter Tools.nonblank (split LF csv) = [] ->
               Tools.csvToJson csv = [])
  /\ (forall csv header rows,
         filter Tools.nonblank (split LF csv) = header :: rows ->
         let headers := map Tools.clean_cell (split 44 header) in
         List.length (Tools.csvToJson csv) = List.length rows
         /\ forall i line,
             nth_error rows i = Some line ->
             exists row,
               nth_error (Tools.csvToJson csv) i = Some row
               /\ (forall k, In k (Obj.keys row) -> In k headers)
               /\ (forall j h,
                      nth_error headers j = Some h ->
                      h <> js "__proto__" ->
                      (forall j', (j < j')%nat -> nth_error headers j' <> Some h) ->
                      Obj.get row h
                      = Some (nth j (map Tools.clean_cell (split 44 line)) [])))
  /\ Tools.csvToJson (js "a,b" ++ [LF] ++ js "1,2" ++ [LF] ++ js "3")
     = [ [(js "a", js "1"); (js "b", js "2")];
         [(js "a", js "3"); (js "b", [])] ]
  /\ (forall csv row,
         In row (Tools.csvToJson csv) ->
         ~ In (js "__proto__") (Obj.keys row))
  /\ Tools.csvToJson (js "a,__proto__" ++ [LF] ++ js "1,2" ++ [LF] ++ js "3")
     = [ [(js "a", js "1")]; [(js "a", js "3")] ].
Proof.
  split; [|split; [|split; [reflexivity|split; [|reflexivity]]]].
  - intros csv H. unfold Tools.csvToJson.
    now rewrite H.
  - intros csv header rows H headers. unfold Tools.csvToJson.
    rewrite H. split; [apply length_map|].
    intros i line Hi.
    exists (Tools.csv_row headers line). split; [|split].
    + rewrite nth_error_map, Hi. reflexivity.
    + apply CsvFacts.row_keys.
    + intros j h. apply CsvFacts.row_cell.
  - intros csv row. unfold Tools.csvToJson.
    destruct (filter Tools.nonblank (split LF csv)) as [|header rows];
      [intros []|].
    intros Hin. apply in_map_iff in Hin as (line & <- & _).
    apply CsvFacts.no_proto_key. simpl. tauto.
Qed.

Lemma csvToJson_spec_witness :
  exists row,
    nth_error (Tools.csvToJson (js "a,b" ++ [LF] ++ js " 1 ,2" ++ [LF] ++ js "3")) 1
    = Some row
    /\ Obj.get row (js "b") = Some [].
Proof.
  destruct (proj2 (proj1 (proj2 csvToJson_spec)
                     (js "a,b" ++ [LF] ++ js " 1 ,2" ++ [LF] ++ js "3")
                     (js "a,b") [js " 1 ,2"; js "3"] eq_refl)
                  1%nat (js "3") eq_refl)
    as (row & Hrow & _ & Hcell).
  exists row. split; [exact Hrow|].
  apply (Hcell 1%nat (js "b")).
  - reflexivity.
  - discriminate.
  - intros [|[|[|j]]] Hj; try lia; discriminate.
Defined.

(** ** The request router *)

Module RouterFacts.

Import Json Server.

Section WithNumbers.
Context {M : NumberModel}.

(** On a payload other than null, the test of the required properties
    throws nothing and tells whether one of them is falsy or missing. *)
Lemma some_falsy_value (payload : value) (names : list string) :
  payload <> VNull ->
  exists b, some_falsy payload names = Ok b
            /\ (b = true <-> exists name, In name names
                              /\ falsy_property payload name = Ok true).
Proof.
  intros Hnull. induction names as [|name names (b & Hb & IH)]; simpl.
  - exists false. split; [reflexivity|].
    split; [discriminate|]. now intros (name & [] & _).
  - assert (Hp : exists o, property payload name = Ok o).
    { destruct payload; simpl; eauto. contradiction. }
    destruct Hp as (o & Ho).
    unfold falsy_property at 1. rewrite Ho. simpl.
    set (t := match o with Some v => negb (truthy v) | None => true end).
    assert (Ht : falsy_property payload name = Ok t).
    { unfold falsy_property. now rewrite Ho. }
    destruct t eqn:Et.
    + exists true. split; [reflexivity|]. split; [|reflexivity].
      intros _. exists name. split; [now left|exact Ht].
    + exists b. split; [exact Hb|]. rewrite IH. split.
      * intros (n & Hin & Hn). exists n. split; [now right|exact Hn].
      * intros (n & [<-|Hin] & Hn).
        -- rewrite Ht in Hn. discriminate.
        -- exists n. now split.
Qed.

(** A tool with a required property that is falsy or missing answers with
    its message. *)
Lemma dispatch_required (trimmedPath : jsstring) (payload : value) (t : tool)
      (name : string) :
  find_tool trimmedPath = Some t ->
  In name (required t) ->
  falsy_property payload name = Ok true ->
  dispatch trimmedPath payload = Throw (Error (required_message t)).
Proof.
  intros Ht Hin Hf. unfold dispatch. rewrite Ht.
  assert (Hnull : payload <> VNull) by (intros ->; discriminate).
  destruct (some_falsy_value payload (required t) Hnull) as (b & Hb & Hiff).
  assert (b = true) as -> by (apply Hiff; eauto).
  destruct (required t) as [|n ns] eqn:Er; [destruct Hin|].
  rewrite Hb. reflexivity.
Qed.

(** The generic branch of the listener, reached by a POST under api/ that
    is neither the health check nor the visitor tracking. *)
Lemma server_generic (now : Z) (req : request) (f : file) :
  method req = "POST"%string ->
  api_path (trim_slashes (pathname req)) = true ->
  trim_slashes (pathname req) <> js "api/health" ->
  trim_slashes (pathname req) <> js "api/visitors/track" ->
  fst (server now req f) =
    match parse_body (body req) with
    | Ok payload =>
        match dispatch (trim_slashes (pathname req)) payload with
        | Ok t => Transformed (path t) payload
        | Throw apiError => Respond 400 (ErrorBody (message apiError))
        end
    | Throw _ => Respond 400 (ErrorBody "Invalid JSON payload")
    end.
Proof.
  intros Hm Hapi Hh Ht. unfold server. rewrite Hm, Hapi.
  apply str_eqb_neq in Hh, Ht. rewrite Hh, Ht.
  cbn [String.eqb Ascii.eqb Bool.eqb andb negb].
  rewrite andb_false_r.
  destruct (parse_body (body req)) as [payload|e]; [|reflexivity].
  now destruct (dispatch (trim_slashes (pathname req)) payload).
Qed.

Lemma one_field_messages (t : tool) :
  In t tools -> List.length (required t) = 1%nat ->
  exists label, required_message t = (label ++ " is required")%string.
Proof.
  intros Hin Hlen. unfold tools in Hin. simpl in Hin.
  repeat (destruct Hin as [<-|Hin];
          [first [ discriminate Hlen
                 | eexists; simpl;
                   match goal with
                   | |- ?m = _ => instantiate (1 := substring 0 (String.length m - 12) m)
                   end; reflexivity ] |]).
  destruct Hin.
Qed.

End WithNumbers.

End RouterFacts.

(** C2, as amended.  A POST under api/ other than the health check and the
    visitor tracking, with an empty or well-formed JSON body: when the path is
    no tool of the switch, the answer is 400 with the error Endpoint not found;
    when it is a tool and a property that the tool requires is missing from a
    payload other than null, the answer is 400 with the message of the tool,
    which reads <Field> is required for every tool with one required property.
    The two examples of the specification are included. *)
Theorem missing_fields_and_unknown_tools {M : Json.NumberModel} :
  (forall now req f payload,
      Server.method req = "POST"%string ->
      Server.api_path (Server.trim_slashes (Server.pathname req)) = true ->
      Server.trim_slashes (Server.pathname req) <> js "api/health" ->
      Server.trim_slashes (Server.pathname req) <> js "api/visitors/track" ->
      Server.parse_body (Server.body req) = Ok payload ->
      (Server.find_tool (Server.trim_slashes (Server.pathname req)) = None ->
       fst (Server.server now req f)
       = Server.Respond 400 (Server.ErrorBody "Endpoint not found"))
      /\ (forall t name,
             Server.find_tool (Server.trim_slashes (Server.pathname req)) = Some t ->
             In name (Server.required t) ->
             Server.property payload name = Ok None ->
             fst (Server.server now req f)
             = Server.Respond 400 (Server.ErrorBody (Server.required_message t))))
  /\ (forall t, In t Server.tools -> List.length (Server.required t) = 1%nat ->
                exists label,
                  Server.required_message t = (label ++ " is required")%string)
  /\ (forall now f,
         fst (Server.server now
                {| Server.method := "POST";
                   Server.pathname := js "/api/base64/encode";
                   Server.body := js "{}" |} f)
         = Server.Respond 400 (Server.ErrorBody "Text is required"))
  /\ (forall now f,
         fst (Server.server now
                {| Server.method := "POST";
                   Server.pathname := js "/api/tools/does-not-exist";
                   Server.body := js "{}" |} f)
         = Server.Respond 400 (Server.ErrorBody "Endpoint not found")).
Proof.
  split; [|split; [apply RouterFacts.one_field_messages|split]].
  - intros now req f payload Hm Hapi Hh Ht Hbody.
    rewrite (RouterFacts.server_generic now req f Hm Hapi Hh Ht), Hbody.
    split.
    + intros Hfind. unfold Server.dispatch. now rewrite Hfind.
    + intros t name Hfind Hin Hprop.
      rewrite (RouterFacts.dispatch_required _ payload t name Hfind Hin);
        [reflexivity|].
      unfold Server.falsy_property. now rewrite Hprop.
  - intros now f.
    rewrite RouterFacts.server_generic; [reflexivity..| |];
      intros H; vm_compute in H; discriminate.
  - intros now f.
    rewrite RouterFacts.server_generic; [reflexivity..| |];
      intros H; vm_compute in H; discriminate.
Qed.

Lemma missing_fields_and_unknown_tools_witness :
  fst (Server.server (M := IntegerNumbers.model) 0
         {| Server.method := "POST";
            Server.pathname := js "/api/convert/timestamp/";
            Server.body := jq "{'time': 1700000000}" |} None)
  = Server.Respond 400 (Server.ErrorBody "Timestamp is required").
Proof.
  refine (proj2 (proj1 (@missing_fields_and_unknown_tools IntegerNumbers.model)
                   0 _ None
                   (Json.VObj [(js "time", @Json.VNum IntegerNumbers.model 1700000000)]) _ _ _ _ _)
                {| Server.path := "api/convert/timestamp";
                   Server.required := ["timestamp"%string];
                   Server.required_message := "Timestamp is required";
                   Server.optional := [] |}
                "timestamp"%string _ _ _).
  - reflexivity.
  - reflexivity.
  - intros H; vm_compute in H; discriminate.
  - intros H; vm_compute in H; discriminate.
  - vm_compute. reflexivity.
  - reflexivity.
  - left. reflexivity.
  - reflexivity.
Defined.

(** C2 as stated fails on two inputs.  The body null is well-formed JSON and
    has no property text, yet the error is that of the property read on null,
    not the message of the tool; and a POST to api/health, a path that is no
    tool of the switch, is answered 200 by the health check. *)
Lemma null_payload_and_health_post :
  fst (Server.server (M := IntegerNumbers.model) 0
         {| Server.method := "POST";
            Server.pathname := js "/api/base64/encode";
            Server.body := js "null" |} None)
  = Server.Respond 400
      (Server.ErrorBody "Cannot read properties of null (reading 'text')")
  /\ Server.ErrorBody "Cannot read properties of null (reading 'text')"
     <> Server.ErrorBody "Text is required"
  /\ Server.find_tool (js "api/health") = None
  /\ fst (Server.server (M := IntegerNumbers.model) 0
            {| Server.method := "POST";
               Server.pathname := js "/api/health";
               Server.body := js "{}" |} None)
     = Server.Respond 200 (Server.Health (Some (Server.CNum 1))).
Proof. repeat split; try reflexivity. discriminate. Qed.

Module ToolFacts.

Import Server.

(** The paths of the switch are distinct, start with api/ and are not those
    of the fixed endpoints. *)
Lemma tool_paths (t : tool) :
  In t tools ->
  find_tool (js (path t)) = Some t
  /\ api_path (js (path t)) = true
  /\ js (path t) <> js "api/health"
  /\ js (path t) <> js "api/visitors/track".
Proof.
  intros Hin. unfold tools in Hin. simpl in Hin.
  repeat (destruct Hin as [<-|Hin];
          [repeat split; try reflexivity; intros H; vm_compute in H; discriminate|]).
  destruct Hin.
Qed.

End ToolFacts.

(** C10, as amended.  The validation of the router tests falsiness, not
    absence: for every tool, a required property that is present in the
    payload with a falsy value (the empty string, zero, false or null) is
    answered like a missing one, 400 with the message of the tool, which
    reads <Field> is required for every tool with one required property.  The
    two examples of the claim are included. *)
Theorem falsy_fields_rejected {M : Json.NumberModel} {L : Json.NumberLaws M} :
  (forall now req f t props name v,
      In t Server.tools ->
      Server.method req = "POST"%string ->
      Server.trim_slashes (Server.pathname req) = js (Server.path t) ->
      Server.parse_body (Server.body req) = Ok (Json.VObj props) ->
      In name (Server.required t) ->
      Obj.get props (js name) = Some v ->
      Json.truthy v = false ->
      fst (Server.server now req f)
      = Server.Respond 400 (Server.ErrorBody (Server.required_message t))
      /\ forall req' props',
          Server.method req' = "POST"%string ->
          Server.trim_slashes (Server.pathname req') = js (Server.path t) ->
          Server.parse_body (Server.body req') = Ok (Json.VObj props') ->
          Obj.get props' (js name) = None ->
          fst (Server.server now req' f) = fst (Server.server now req f))
  /\ (Json.truthy (Json.VStr []) = false
      /\ Json.truthy (Json.VNum (Json.number_of_token (js "0"))) = false
      /\ Json.truthy (Json.VBool false) = false
      /\ Json.truthy Json.VNull = false)
  /\ (forall now f,
         fst (Server.server now
                {| Server.method := "POST";
                   Server.pathname := js "/api/base64/encode";
                   Server.body := jq "{'text': ''}" |} f)
         = Server.Respond 400 (Server.ErrorBody "Text is required"))
  /\ (forall now f,
         fst (Server.server now
                {| Server.method := "POST";
                   Server.pathname := js "/api/convert/timestamp";
                   Server.body := jq "{'timestamp': 0}" |} f)
         = Server.Respond 400 (Server.ErrorBody "Timestamp is required"))
  /\ (forall t, In t Server.tools -> List.length (Server.required t) = 1%nat ->
                exists label,
                  Server.required_message t = (label ++ " is required")%string).
Proof.
  assert (Rejected : forall now req f t props name,
      In t Server.tools ->
      Server.method req = "POST"%string ->
      Server.trim_slashes (Server.pathname req) = js (Server.path t) ->
      Server.parse_body (Server.body req) = Ok (Json.VObj props) ->
      In name (Server.required t) ->
      Server.falsy_property (Json.VObj props) name = Ok true ->
      fst (Server.server now req f)
      = Server.Respond 400 (Server.ErrorBody (Server.required_message t))).
  { intros now req f t props name Hin Hm Hpath Hbody Hname Hfalsy.
    destruct (ToolFacts.tool_paths t Hin) as (Hfind & Hapi & Hh & Ht).
    rewrite RouterFacts.server_generic by (rewrite ?Hpath; assumption).
    rewrite Hbody, Hpath.
    now rewrite (RouterFacts.dispatch_required _ _ t name Hfind Hname Hfalsy). }
  assert (Zero : Json.truthy (Json.VNum (Json.number_of_token (js "0"))) = false).
  { simpl. change (js "0") with [48]. now rewrite Json.zero_token_falsy. }
  split; [|split; [|split; [|split; [|apply RouterFacts.one_field_messages]]]].
  - intros now req f t props name v Hin Hm Hpath Hbody Hname Hget Hv.
    assert (H1 : fst (Server.server now req f)
                 = Server.Respond 400
                     (Server.ErrorBody (Server.required_message t))).
    { apply (Rejected now req f t props name); try assumption.
      unfold Server.falsy_property. simpl. now rewrite Hget, Hv. }
    split; [exact H1|].
    intros req' props' Hm' Hpath' Hbody' Hget'. rewrite H1.
    apply (Rejected now req' f t props' name); try assumption.
    unfold Server.falsy_property. simpl. now rewrite Hget'.
  - repeat split; try reflexivity. exact Zero.
  - intros now f.
    apply (Rejected now _ f
             {| Server.path := "api/base64/encode";
                Server.required := ["text"%string];
                Server.required_message := "Text is required";
                Server.optional := [] |} [(js "text", Json.VStr [])] "text"%string);
      try reflexivity; simpl; tauto.
  - intros now f.
    apply (Rejected now _ f
             {| Server.path := "api/convert/timestamp";
                Server.required := ["timestamp"%string];
                Server.required_message := "Timestamp is required";
                Server.optional := [] |}
             [(js "timestamp", Json.VNum (Json.number_of_token (js "0")))]
             "timestamp"%string);
      try reflexivity; try (simpl; tauto).
    unfold Server.falsy_property.
    change (Server.property _ _)
      with (Ok (A := option Json.value)
               (Some (Json.VNum (Json.number_of_token (js "0"))))).
    simpl bind. simpl in Zero. now rewrite Zero.
Qed.

Lemma falsy_fields_rejected_witness :
  fst (Server.server (M := IntegerNumbers.model) 0
         {| Server.method := "POST";
            Server.pathname := js "/api/generate/hash";
            Server.body := jq "{'text': false, 'algorithm': 'md5'}" |} None)
  = Server.Respond 400 (Server.ErrorBody "Text and algorithm are required").
Proof.
  pose proof (@falsy_fields_rejected IntegerNumbers.model IntegerFacts.laws)
    as [H _].
  refine (proj1 (H 0 _ None
                   {| Server.path := "api/generate/hash";
                      Server.required := ["text"; "algorithm"]%string;
                      Server.required_message :=
                        "Text and algorithm are required";
                      Server.optional := [] |}
                   [(js "text", Json.VBool false);
                    (js "algorithm", Json.VStr (js "md5"))]
                   "text"%string (Json.VBool false) _ _ _ _ _ _ _)).
  - vm_compute. tauto.
  - reflexivity.
  - reflexivity.
  - vm_compute. reflexivity.
  - left. reflexivity.
  - reflexivity.
  - reflexivity.
Defined.

(** C10 as stated fails for a tool with two required properties: the hash
    tool answers a text that is the empty string with a message that names
    both properties, which is not of the form <Field> is required. *)
Lemma falsy_field_of_two :
  fst (Server.server (M := IntegerNumbers.model) 0
         {| Server.method := "POST";
            Server.pathname := js "/api/generate/hash";
            Server.body := jq "{'text': '', 'algorithm': 'md5'}" |} None)
  = Server.Respond 400 (Server.ErrorBody "Text and algorithm are required")
  /\ ~ exists label,
        "Text and algorithm are required"%string
        = (label ++ " is required")%string.
Proof.
  split; [vm_compute; reflexivity|].
  intros [label H].
  repeat (destruct label as [|? label]; cbn [String.append] in H;
          [discriminate H|first [discriminate H|injection H as _ H]]).
Qed.

(** ** The visitor counter *)

Module VisitorFacts.

Import Json Server.

Lemma get_persisted (data : stats) (k : jsstring) :
  Obj.get (persisted data) k
  = option_map written (Obj.get data k).
Proof.
  unfold persisted. induction data as [|[k1 c1] data IH]; simpl; [reflexivity|].
  destruct (str_eqb k1 k); [reflexivity|exact IH].
Qed.

Lemma get_assign_other (data : stats) (k k' : jsstring) (c : cell) :
  k <> k' -> Obj.get (Obj.assign_primitive data k c) k' = Obj.get data k'.
Proof.
  intros H. unfold Obj.assign_primitive.
  destruct (str_eqb k (js "__proto__")); [reflexivity|].
  now apply ObjFacts.get_define_neq.
Qed.

Lemma get_increment_other (data : stats) (k k' : jsstring) :
  k <> k' -> Obj.get (increment data k) k' = Obj.get data k'.
Proof.
  intros H. unfold increment.
  destruct (Obj.get data k); [now apply ObjFacts.get_define_neq|].
  destruct (inherited k);
    [now apply get_assign_other|now apply ObjFacts.get_define_neq].
Qed.

Lemma get_increment_number (data : stats) (k : jsstring) (n : Z) :
  Obj.get data k = Some (CNum n) ->
  Obj.get (increment data k) k = Some (CNum (n + 1)).
Proof.
  intros H. unfold increment. rewrite H. apply ObjFacts.get_define_eq.
Qed.

Lemma defined_own (data : stats) (k : jsstring) (c : cell) :
  Obj.get data k = Some c -> defined data k = true.
Proof. intros H. unfold defined, Obj.has. now rewrite H. Qed.

Section WithNumbers.
Context {M : NumberModel}.

(** What a call writes, when the type converts to the key [key]. *)
Lemma trackVisitor_written (type : value) (key : jsstring) (now : Z) (f : file) :
  to_string type = Ok key ->
  snd (trackVisitor type now f)
  = Some (persisted
            (Obj.assign_primitive
               (let data := increment (getVisitorStats now f) (js "total") in
                if defined data key then increment data key
                else Obj.assign_primitive data key (CNum 1))
               (js "lastUpdated") (CDate now))).
Proof.
  intros H. unfold trackVisitor. rewrite H. now destruct f.
Qed.

Lemma counter_of_stats (k : jsstring) (now : Z) (f : file) :
  k <> js "lastUpdated" ->
  Obj.get (getVisitorStats now f) k = counter_of k f.
Proof.
  intros Hk. destruct f as [data|]; [reflexivity|].
  unfold getVisitorStats, counter_of, zero_stats. cbn [Obj.get].
  apply str_eqb_neq in Hk. rewrite (str_eqb_sym (js "lastUpdated") k), Hk.
  reflexivity.
Qed.

(** Every call whose type converts to a key other than total adds one to
    total. *)
Lemma track_total (type : value) (key : jsstring) (now : Z) (f : file) (n : Z) :
  to_string type = Ok key ->
  key <> js "total" ->
  counter_of (js "total") f = Some (CNum n) ->
  counter_of (js "total") (snd (trackVisitor type now f)) = Some (CNum (n + 1)).
Proof.
  intros Hkey Hneq Hn.
  rewrite (trackVisitor_written type key now f Hkey). cbv zeta.
  unfold counter_of at 1.
  rewrite get_persisted, get_assign_other by discriminate.
  rewrite <- (counter_of_stats (js "total") now f) in Hn by discriminate.
  assert (Hinc : Obj.get (increment (getVisitorStats now f) (js "total"))
                         (js "total") = Some (CNum (n + 1)))
    by now apply get_increment_number.
  destruct (defined _ key).
  - rewrite get_increment_other by assumption. now rewrite Hinc.
  - rewrite get_assign_other by assumption. now rewrite Hinc.
Qed.

(** A call of type web adds one to total and one to web. *)
Lemma track_web (now : Z) (f : file) (n m : Z) :
  counter_of (js "total") f = Some (CNum n) ->
  counter_of (js "web") f = Some (CNum m) ->
  counter_of (js "total") (snd (trackVisitor (VStr (js "web")) now f))
  = Some (CNum (n + 1))
  /\ counter_of (js "web") (snd (trackVisitor (VStr (js "web")) now f))
     = Some (CNum (m + 1)).
Proof.
  intros Hn Hm. split.
  - apply (track_total _ (js "web")); [reflexivity|discriminate|exact Hn].
  - rewrite (trackVisitor_written (VStr (js "web")) (js "web") now f eq_refl).
    cbv zeta.
    unfold counter_of at 1.
    rewrite get_persisted, get_assign_other by discriminate.
    rewrite <- (counter_of_stats (js "web") now f) in Hm by discriminate.
    assert (Hweb : Obj.get (increment (getVisitorStats now f) (js "total"))
                           (js "web") = Some (CNum m)).
    { rewrite get_increment_other by discriminate. exact Hm. }
    rewrite (defined_own _ _ _ Hweb).
    now rewrite (get_increment_number _ _ _ Hweb).
Qed.

(** The tracking endpoint, on a body that supplies no type, calls
    trackVisitor with the type web. *)
Lemma server_tracks_web (now : Z) (req : request) (f : file) :
  tracks_without_type req ->
  snd (server now req f) = snd (trackVisitor (VStr (js "web")) now f).
Proof.
  intros (Hm & Hpath & payload & Hbody & Htype).
  unfold server. rewrite Hm, Hpath, Hbody.
  cbn [String.eqb Ascii.eqb Bool.eqb andb negb bind].
  rewrite Htype.
  change (str_eqb (js "api/visitors/track") (js "api/health")) with false.
  change (str_eqb (js "api/visitors/track") (js "api/visitors/stats")) with false.
  change (str_eqb (js "api/visitors/track") (js "api/visitors/track")) with true.
  cbn [andb bind].
  now destruct (trackVisitor (VStr (js "web")) now f).
Qed.

Lemma serve_all_counts (calls : list (Z * request)) (f : file) (n : Z) :
  (forall c, In c calls -> tracks_without_type (snd c)) ->
  counter_of (js "total") f = Some (CNum n) ->
  counter_of (js "web") f = Some (CNum n) ->
  counter_of (js "total") (serve_all calls f)
  = Some (CNum (n + Z.of_nat (List.length calls)))
  /\ counter_of (js "web") (serve_all calls f)
     = Some (CNum (n + Z.of_nat (List.length calls))).
Proof.
  revert f n; induction calls as [|[now req] calls IH]; intros f n Hall Ht Hw.
  - simpl. now rewrite Z.add_0_r.
  - cbn [serve_all List.length].
    rewrite (server_tracks_web now req f) by (apply (Hall (now, req)); now left).
    destruct (track_web now f n n Ht Hw) as [Ht' Hw'].
    destruct (IH _ (n + 1) (fun c Hc => Hall c (or_intror Hc)) Ht' Hw')
      as [IHt IHw].
    rewrite IHt, IHw. split; do 2 f_equal; lia.
Qed.

Lemma track_all_counts (calls : list (value * Z)) (f : file) (n : Z) :
  (forall c, In c calls ->
             exists key, to_string (fst c) = Ok key /\ key <> js "total") ->
  counter_of (js "total") f = Some (CNum n) ->
  counter_of (js "total") (track_all calls f)
  = Some (CNum (n + Z.of_nat (List.length calls))).
Proof.
  revert f n; induction calls as [|[type now] calls IH]; intros f n Hall Ht.
  - simpl. now rewrite Z.add_0_r.
  - cbn [track_all List.length].
    destruct (Hall (type, now) (or_introl eq_refl)) as (key & Hkey & Hneq).
    rewrite (IH _ (n + 1)).
    + do 2 f_equal. lia.
    + intros c Hc. apply Hall. now right.
    + now apply (track_total type key).
Qed.

End WithNumbers.

End VisitorFacts.

(** C3, as amended.  Starting from an absent visitor file, after N
    sequential requests to the tracking endpoint that supply no type, the
    statistics endpoint answers with total = N and web = N; and every call of
    trackVisitor whose type converts to a property key other than total adds
    exactly one to total, so that after any number of such calls total is the
    number of the calls made since the file was absent. *)
Theorem visitor_counter {M : Json.NumberModel} :
  (forall (calls : list (Z * Server.request)) (now : Z),
      (forall c, In c calls -> Server.tracks_without_type (snd c)) ->
      exists s,
        Server.server now Server.stats_request (Server.serve_all calls None)
        = (Server.Respond 200 (Server.Stats s), Server.serve_all calls None)
        /\ Obj.get s (js "total") = Some (Server.CNum (Z.of_nat (List.length calls)))
        /\ Obj.get s (js "web") = Some (Server.CNum (Z.of_nat (List.length calls))))
  /\ (forall type key now f n,
         Server.to_string type = Ok key ->
         key <> js "total" ->
         Server.counter_of (js "total") f = Some (Server.CNum n) ->
         Server.counter_of (js "total") (snd (Server.trackVisitor type now f))
         = Some (Server.CNum (n + 1)))
  /\ (forall calls : list (Json.value * Z),
         (forall c, In c calls ->
                    exists key, Server.to_string (fst c) = Ok key
                                /\ key <> js "total") ->
         Server.counter_of (js "total") (Server.track_all calls None)
         = Some (Server.CNum (Z.of_nat (List.length calls)))).
Proof.
  split; [|split].
  - intros calls now Hall.
    exists (Server.getVisitorStats now (Server.serve_all calls None)).
    split; [reflexivity|].
    destruct (VisitorFacts.serve_all_counts calls None 0 Hall eq_refl eq_refl)
      as [Ht Hw].
    rewrite !VisitorFacts.counter_of_stats by discriminate.
    now rewrite Ht, Hw.
  - intros type key now f n. apply VisitorFacts.track_total.
  - intros calls Hall.
    now rewrite (VisitorFacts.track_all_counts calls None 0 Hall eq_refl).
Qed.

Lemma visitor_counter_witness :
  exists s,
    Server.server (M := IntegerNumbers.model) 30 Server.stats_request
      (Server.serve_all (M := IntegerNumbers.model)
         [ (10, {| Server.method := "POST";
                   Server.pathname := js "/api/visitors/track";
                   Server.body := [] |});
           (20, {| Server.method := "POST";
                   Server.pathname := js "/api/visitors/track";
                   Server.body := jq "{'page': 'home'}" |}) ] None)
    = (Server.Respond 200 (Server.Stats s),
       Server.serve_all (M := IntegerNumbers.model)
         [ (10, {| Server.method := "POST";
                   Server.pathname := js "/api/visitors/track";
                   Server.body := [] |});
           (20, {| Server.method := "POST";
                   Server.pathname := js "/api/visitors/track";
                   Server.body := jq "{'page': 'home'}" |}) ] None)
    /\ Obj.get s (js "total") = Some (Server.CNum 2)
    /\ Obj.get s (js "web") = Some (Server.CNum 2).
Proof.
  apply (proj1 (@visitor_counter IntegerNumbers.model)
           [ (10, {| Server.method := "POST";
                     Server.pathname := js "/api/visitors/track";
                     Server.body := [] |});
             (20, {| Server.method := "POST";
                     Server.pathname := js "/api/visitors/track";
                     Server.body := jq "{'page': 'home'}" |}) ] 30).
  intros c [<-|[<-|[]]].
  - split; [reflexivity|split; [reflexivity|]].
    exists (Json.VObj []). split; reflexivity.
  - split; [reflexivity|split; [reflexivity|]].
    exists (Json.VObj [(js "page", Json.VStr (js "home"))]). split; reflexivity.
Defined.

(** C3 as stated fails when the type supplied is the string total: the call
    first counts the visit in total and then counts it again under its type,
    so that one call on an absent file leaves total = 2.  It also fails when
    the type supplied cannot be converted to a property key: the exception is
    caught, nothing is written and the file stays absent. *)
Lemma total_not_always_incremented_by_one :
  Server.counter_of (js "total")
    (snd (Server.server (M := IntegerNumbers.model) 0
            {| Server.method := "POST";
               Server.pathname := js "/api/visitors/track";
               Server.body := jq "{'type': 'total'}" |} None))
  = Some (Server.CNum 2)
  /\ snd (Server.server (M := IntegerNumbers.model) 0
            {| Server.method := "POST";
               Server.pathname := js "/api/visitors/track";
               Server.body := jq "{'type': {'toString': 1}}" |} None)
     = None.
Proof. split; reflexivity. Qed.

(** ** base64 *)

Module Base64Facts.

Import Base64.

Lemma in_bytes (b : Z) : byte b -> In b bytes.
Proof.
  intros H. unfold byte in H. unfold bytes. apply in_map_iff.
  exists (Z.to_nat b). split; [lia|]. apply in_seq. lia.
Qed.

(** A test that holds on every byte, by enumeration. *)
Lemma for_all_bytes (P : Z -> bool) :
  forallb P bytes = true -> forall b, byte b -> P b = true.
Proof.
  intros H b Hb. rewrite forallb_forall in H. now apply H, in_bytes.
Qed.

Lemma for_all_byte_pairs (P : Z -> Z -> bool) :
  forallb (fun a => forallb (P a) bytes) bytes = true ->
  forall a b, byte a -> byte b -> P a b = true.
Proof.
  intros H a b Ha Hb.
  apply (for_all_bytes (P a)); [|exact Hb].
  now apply (for_all_bytes (fun a => forallb (P a) bytes)).
Qed.

Lemma unbase64_char_of (v : Z) : 0 <= v < 64 -> unbase64 (char_of v) = Some v.
Proof.
  intros H.
  pose (P := fun v => (64 <=? v)
                      || match unbase64 (char_of v) with
                         | Some w => w =? v
                         | None => false
                         end).
  assert (E : P v = true).
  { apply (for_all_bytes P); [vm_compute; reflexivity|]. unfold byte. lia. }
  unfold P in E. apply orb_true_iff in E as [E|E].
  - apply Z.leb_le in E. lia.
  - destruct (unbase64 (char_of v)) as [w|]; [|discriminate].
    apply Z.eqb_eq in E. now subst.
Qed.

(** A character of the alphabet is its own low byte. *)
Lemma char_of_low_byte (v : Z) : 0 <= v < 64 -> Z.land (char_of v) 255 = char_of v.
Proof.
  intros H.
  pose (P := fun v => (64 <=? v) || (Z.land (char_of v) 255 =? char_of v)).
  assert (E : P v = true).
  { apply (for_all_bytes P); [vm_compute; reflexivity|]. unfold byte. lia. }
  unfold P in E. apply orb_true_iff in E as [E|E].
  - apply Z.leb_le in E. lia.
  - now apply Z.eqb_eq in E.
Qed.

(** The first two sextets of a group give back its first byte. *)
Lemma first_byte (a b : Z) :
  byte a -> byte b ->
  Z.lor (Z.shiftl (Z.land (Z.shiftr a 2) 63) 2)
        (Z.shiftr (Z.land (Z.lor (Z.shiftl (Z.land a 3) 4) (Z.shiftr b 4)) 48) 4)
  = a.
Proof.
  intros Ha Hb. apply Z.eqb_eq.
  apply (for_all_byte_pairs
           (fun a b =>
              Z.lor (Z.shiftl (Z.land (Z.shiftr a 2) 63) 2)
                    (Z.shiftr (Z.land (Z.lor (Z.shiftl (Z.land a 3) 4)
                                             (Z.shiftr b 4)) 48) 4)
              =? a)); [vm_compute; reflexivity|assumption..].
Qed.

End Base64Facts.

Module Base64RoundTrip.

Import Base64 Base64Facts.

Ltac by_enumeration P :=
  first [ apply (for_all_bytes P); [vm_compute; reflexivity|assumption]
        | apply (for_all_byte_pairs P); [vm_compute; reflexivity|assumption..] ].

Local Abbreviation sextet v := (0 <= v < 64).

Lemma sextet_test (v : Z) : (0 <=? v) && (v <? 64) = true -> sextet v.
Proof. lia. Qed.

Lemma sextet1 a : byte a -> sextet (Z.shiftr a 2).
Proof.
  intros Ha. apply sextet_test.
  by_enumeration (fun a => (0 <=? Z.shiftr a 2) && (Z.shiftr a 2 <? 64)).
Qed.

Lemma sextet2 a b :
  byte a -> byte b -> sextet (Z.lor (Z.shiftl (Z.land a 3) 4) (Z.shiftr b 4)).
Proof.
  intros Ha Hb. apply sextet_test.
  by_enumeration (fun a b =>
    (0 <=? Z.lor (Z.shiftl (Z.land a 3) 4) (Z.shiftr b 4))
    && (Z.lor (Z.shiftl (Z.land a 3) 4) (Z.shiftr b 4) <? 64)).
Qed.

Lemma sextet3 b c :
  byte b -> byte c -> sextet (Z.lor (Z.shiftl (Z.land b 15) 2) (Z.shiftr c 6)).
Proof.
  intros Hb Hc. apply sextet_test.
  by_enumeration (fun b c =>
    (0 <=? Z.lor (Z.shiftl (Z.land b 15) 2) (Z.shiftr c 6))
    && (Z.lor (Z.shiftl (Z.land b 15) 2) (Z.shiftr c 6) <? 64)).
Qed.

Lemma sextet4 c : byte c -> sextet (Z.land c 63).
Proof.
  intros Hc. apply sextet_test.
  by_enumeration (fun c => (0 <=? Z.land c 63) && (Z.land c 63 <? 64)).
Qed.

Lemma sextet2_last a : byte a -> sextet (Z.shiftl (Z.land a 3) 4).
Proof.
  intros Ha. apply sextet_test.
  by_enumeration (fun a => (0 <=? Z.shiftl (Z.land a 3) 4)
                           && (Z.shiftl (Z.land a 3) 4 <? 64)).
Qed.

Lemma sextet3_last b : byte b -> sextet (Z.shiftl (Z.land b 15) 2).
Proof.
  intros Hb. apply sextet_test.
  by_enumeration (fun b => (0 <=? Z.shiftl (Z.land b 15) 2)
                           && (Z.shiftl (Z.land b 15) 2 <? 64)).
Qed.

Lemma first_byte_last (a : Z) :
  byte a ->
  Z.lor (Z.shiftl (Z.land (Z.shiftr a 2) 63) 2)
        (Z.shiftr (Z.land (Z.shiftl (Z.land a 3) 4) 48) 4) = a.
Proof.
  intros Ha. apply Z.eqb_eq.
  by_enumeration (fun a =>
    Z.lor (Z.shiftl (Z.land (Z.shiftr a 2) 63) 2)
          (Z.shiftr (Z.land (Z.shiftl (Z.land a 3) 4) 48) 4) =? a).
Qed.

Lemma low_of_sextet2 (a b : Z) :
  byte a -> byte b ->
  Z.land (Z.lor (Z.shiftl (Z.land a 3) 4) (Z.shiftr b 4)) 15 = Z.shiftr b 4.
Proof.
  intros Ha Hb. apply Z.eqb_eq.
  by_enumeration (fun a b =>
    Z.land (Z.lor (Z.shiftl (Z.land a 3) 4) (Z.shiftr b 4)) 15 =? Z.shiftr b 4).
Qed.

Lemma high_of_sextet3 (b c : Z) :
  byte b -> byte c ->
  Z.shiftr (Z.land (Z.lor (Z.shiftl (Z.land b 15) 2) (Z.shiftr c 6)) 60) 2
  = Z.land b 15.
Proof.
  intros Hb Hc. apply Z.eqb_eq.
  by_enumeration (fun b c =>
    Z.shiftr (Z.land (Z.lor (Z.shiftl (Z.land b 15) 2) (Z.shiftr c 6)) 60) 2
    =? Z.land b 15).
Qed.

Lemma high_of_sextet3_last (b : Z) :
  byte b ->
  Z.shiftr (Z.land (Z.shiftl (Z.land b 15) 2) 60) 2 = Z.land b 15.
Proof.
  intros Hb. apply Z.eqb_eq.
  by_enumeration (fun b =>
    Z.shiftr (Z.land (Z.shiftl (Z.land b 15) 2) 60) 2 =? Z.land b 15).
Qed.

Lemma nibbles (b : Z) :
  byte b -> Z.lor (Z.shiftl (Z.shiftr b 4) 4) (Z.land b 15) = b.
Proof.
  intros Hb. apply Z.eqb_eq.
  by_enumeration (fun b => Z.lor (Z.shiftl (Z.shiftr b 4) 4) (Z.land b 15) =? b).
Qed.

Lemma third_byte (b c : Z) :
  byte b -> byte c ->
  Z.lor (Z.shiftl (Z.land (Z.lor (Z.shiftl (Z.land b 15) 2) (Z.shiftr c 6)) 3) 6)
        (Z.land (Z.land c 63) 63) = c.
Proof.
  intros Hb Hc. apply Z.eqb_eq.
  by_enumeration (fun b c =>
    Z.lor (Z.shiftl (Z.land (Z.lor (Z.shiftl (Z.land b 15) 2) (Z.shiftr c 6)) 3) 6)
          (Z.land (Z.land c 63) 63) =? c).
Qed.

(** Lists, three elements at a time. *)
Lemma list_ind3 {A} (P : list A -> Prop) :
  P [] -> (forall a, P [a]) -> (forall a b, P [a; b]) ->
  (forall a b c r, P r -> P (a :: b :: c :: r)) ->
  forall l, P l.
Proof.
  intros H0 H1 H2 H3.
  fix IH 1. intros [|a [|b [|c r]]].
  - exact H0.
  - apply H1.
  - apply H2.
  - apply H3, IH.
Qed.

(** Decoding the base64 text of a buffer gives the buffer back. *)
Lemma base64_decode_encode (buffer : list Z) :
  Forall byte buffer -> decode (encode buffer) = buffer.
Proof.
  unfold decode. induction buffer as [|a|a b|a b c r IH] using list_ind3;
    intros Hall.
  - reflexivity.
  - apply Forall_cons_iff in Hall as [Ha _].
    cbn [encode sextets]. cbv zeta. change (Z.land 61 255) with 61.
    rewrite !char_of_low_byte, !unbase64_char_of
      by (auto using sextet1, sextet2_last).
    cbn [sextets unbase64 bytes_of]. simpl (61 =? 61).
    cbn [sextets bytes_of].
    now rewrite first_byte_last.
  - apply Forall_cons_iff in Hall as [Ha Hall].
    apply Forall_cons_iff in Hall as [Hb _].
    cbn [encode sextets]. cbv zeta. change (Z.land 61 255) with 61.
    rewrite !char_of_low_byte, !unbase64_char_of
      by (auto using sextet1, sextet2, sextet3_last).
    change (unbase64 61) with (@None Z). simpl (61 =? 61).
    cbn [sextets bytes_of].
    rewrite first_byte, low_of_sextet2, high_of_sextet3_last, nibbles by assumption.
    reflexivity.
  - apply Forall_cons_iff in Hall as [Ha Hall].
    apply Forall_cons_iff in Hall as [Hb Hall].
    apply Forall_cons_iff in Hall as [Hc Hall].
    cbn [encode sextets]. cbv zeta.
    rewrite !char_of_low_byte, !unbase64_char_of
      by (auto using sextet1, sextet2, sextet3, sextet4).
    cbn [bytes_of].
    rewrite first_byte, low_of_sextet2, high_of_sextet3, nibbles, third_byte
      by assumption.
    now rewrite IH.
Qed.

End Base64RoundTrip.

(** ** UTF-8 *)

Module Utf8Facts.

Import Utf8.

Ltac euclid := Z.to_euclidean_division_equations; lia.

(** *** Bit operations as arithmetic *)

Lemma land_high_low (h x k : Z) :
  0 <= k -> 0 <= x < 2 ^ k -> Z.land (h * 2 ^ k) x = 0.
Proof.
  intros Hk Hx. rewrite <- Z.shiftl_mul_pow2 by lia.
  apply Z.bits_inj'. intros n Hn. rewrite Z.land_spec, Z.bits_0.
  destruct (Z.lt_ge_cases n k).
  - now rewrite Z.shiftl_spec_low by lia.
  - rewrite <- (Z.mod_small x (2 ^ k)) by lia.
    rewrite Z.mod_pow2_bits_high by lia. apply andb_false_r.
Qed.

Lemma lor_high_low (h x k : Z) :
  0 <= k -> 0 <= x < 2 ^ k -> Z.lor (h * 2 ^ k) x = h * 2 ^ k + x.
Proof.
  intros Hk Hx. pose proof (Z.add_lor_land (h * 2 ^ k) x) as H.
  rewrite land_high_low in H by assumption. lia.
Qed.

Lemma lor_192 x : 0 <= x < 64 -> Z.lor 192 x = 192 + x.
Proof. intros H. apply (lor_high_low 3 x 6); simpl; lia. Qed.

Lemma lor_128 x : 0 <= x < 128 -> Z.lor 128 x = 128 + x.
Proof. intros H. apply (lor_high_low 1 x 7); simpl; lia. Qed.

Lemma lor_224 x : 0 <= x < 32 -> Z.lor 224 x = 224 + x.
Proof. intros H. apply (lor_high_low 7 x 5); simpl; lia. Qed.

Lemma lor_240 x : 0 <= x < 16 -> Z.lor 240 x = 240 + x.
Proof. intros H. apply (lor_high_low 15 x 4); simpl; lia. Qed.

Lemma land_mask (x n : Z) : 0 <= n -> Z.land x (2 ^ n - 1) = x mod 2 ^ n.
Proof.
  intros Hn. rewrite <- Z.land_ones by assumption.
  now rewrite Z.ones_equiv, <- Z.sub_1_r.
Qed.

Lemma land_63 x : Z.land x 63 = x mod 64.
Proof. apply (land_mask x 6). lia. Qed.

Lemma land_31 x : Z.land x 31 = x mod 32.
Proof. apply (land_mask x 5). lia. Qed.

Lemma land_15 x : Z.land x 15 = x mod 16.
Proof. apply (land_mask x 4). lia. Qed.

Lemma land_7 x : Z.land x 7 = x mod 8.
Proof. apply (land_mask x 3). lia. Qed.

Lemma land_1023 x : Z.land x 1023 = x mod 1024.
Proof. apply (land_mask x 10). lia. Qed.

Lemma shiftr_6 x : Z.shiftr x 6 = x / 64.
Proof. now rewrite Z.shiftr_div_pow2 by lia. Qed.

Lemma shiftr_10 x : Z.shiftr x 10 = x / 1024.
Proof. now rewrite Z.shiftr_div_pow2 by lia. Qed.

Lemma shiftr_12 x : Z.shiftr x 12 = x / 4096.
Proof. now rewrite Z.shiftr_div_pow2 by lia. Qed.

Lemma shiftr_18 x : Z.shiftr x 18 = x / 262144.
Proof. now rewrite Z.shiftr_div_pow2 by lia. Qed.

Lemma shiftl_10 x : Z.shiftl x 10 = x * 1024.
Proof. now rewrite Z.shiftl_mul_pow2 by lia. Qed.

(** Six more bits under an accumulated code point. *)
Lemma push_six (acc c : Z) :
  Z.lor (Z.shiftl acc 6) (Z.land c 63) = acc * 64 + c mod 64.
Proof.
  rewrite land_63, Z.shiftl_mul_pow2 by lia.
  apply (lor_high_low acc (c mod 64) 6); [lia|]. simpl. euclid.
Qed.

(** *** The bytes of a code point *)

Lemma encode_1 cp : 0 <= cp < 128 -> encode_code_point cp = [cp].
Proof.
  intros H. unfold encode_code_point.
  destruct (Z.ltb_spec cp 128); [reflexivity|lia].
Qed.

Lemma encode_2 cp :
  128 <= cp < 2048 ->
  encode_code_point cp = [192 + cp / 64; 128 + cp mod 64].
Proof.
  intros H. unfold encode_code_point.
  destruct (Z.ltb_spec cp 128); [lia|].
  destruct (Z.ltb_spec cp 2048); [|lia].
  rewrite land_63, shiftr_6, lor_192, lor_128 by euclid. reflexivity.
Qed.

Lemma encode_3 cp :
  2048 <= cp < 65536 ->
  encode_code_point cp
  = [224 + cp / 4096; 128 + (cp / 64) mod 64; 128 + cp mod 64].
Proof.
  intros H. unfold encode_code_point.
  destruct (Z.ltb_spec cp 128); [lia|].
  destruct (Z.ltb_spec cp 2048); [lia|].
  destruct (Z.ltb_spec cp 65536); [|lia].
  rewrite !land_63, shiftr_6, shiftr_12, lor_224, !lor_128 by euclid.
  reflexivity.
Qed.

Lemma encode_4 cp :
  65536 <= cp < 1114112 ->
  encode_code_point cp
  = [240 + cp / 262144; 128 + (cp / 4096) mod 64;
     128 + (cp / 64) mod 64; 128 + cp mod 64].
Proof.
  intros H. unfold encode_code_point.
  destruct (Z.ltb_spec cp 128); [lia|].
  destruct (Z.ltb_spec cp 2048); [lia|].
  destruct (Z.ltb_spec cp 65536); [lia|].
  rewrite !land_63, shiftr_6, shiftr_12, shiftr_18, lor_240, !lor_128 by euclid.
  reflexivity.
Qed.

(** *** The automaton on these bytes *)

Ltac tests :=
  repeat match goal with
         | |- context [?x <=? ?y] => destruct (Z.leb_spec x y); try lia
         | |- context [?x <? ?y] => destruct (Z.ltb_spec x y); try lia
         | |- context [?x =? ?y] => destruct (Z.eqb_spec x y); try lia
         end;
  cbn [andb orb negb].

Lemma first_byte_1 b : 0 <= b < 128 -> first_byte b = ([b], initial).
Proof. intros H. unfold first_byte. now tests. Qed.

Lemma first_byte_2 x :
  2 <= x < 32 ->
  first_byte (192 + x)
  = ([], {| code_point := x; needed := 1; lower := 128; upper := 191 |}).
Proof.
  intros H. unfold first_byte. rewrite land_31. tests.
  repeat f_equal. euclid.
Qed.

Lemma first_byte_3 x :
  0 <= x < 16 ->
  first_byte (224 + x)
  = ([], {| code_point := x; needed := 2;
            lower := if x =? 0 then 160 else 128;
            upper := if x =? 13 then 159 else 191 |}).
Proof.
  intros H. unfold first_byte. rewrite land_15.
  replace ((224 + x) mod 16) with x by euclid.
  destruct (Z.eqb_spec x 0), (Z.eqb_spec x 13); try lia; now tests.
Qed.

Lemma first_byte_4 x :
  0 <= x <= 4 ->
  first_byte (240 + x)
  = ([], {| code_point := x; needed := 3;
            lower := if x =? 0 then 144 else 128;
            upper := if x =? 4 then 143 else 191 |}).
Proof.
  intros H. unfold first_byte. rewrite land_7.
  replace ((240 + x) mod 8) with x by euclid.
  destruct (Z.eqb_spec x 0), (Z.eqb_spec x 4); try lia; now tests.
Qed.

(** A continuation byte within the bounds of the state. *)
Lemma step_continuation (st : state) (n : nat) (y : Z) :
  needed st = S n ->
  0 <= y < 64 ->
  lower st <= 128 + y <= upper st ->
  step st (128 + y)
  = match n with
    | O => (utf16 (code_point st * 64 + y), initial)
    | S _ => ([], {| code_point := code_point st * 64 + y; needed := n;
                     lower := 128; upper := 191 |})
    end.
Proof.
  intros Hn Hy Hb. unfold step. rewrite Hn, push_six.
  replace ((128 + y) mod 64) with y by euclid.
  now tests.
Qed.

Lemma utf16_bmp c : 0 <= c < 65536 -> utf16 c = [c].
Proof. intros H. unfold utf16. now tests. Qed.

Lemma utf16_pair hi lo :
  is_high_surrogate hi = true -> is_low_surrogate lo = true ->
  utf16 (pair_code_point hi lo) = [hi; lo].
Proof.
  unfold is_high_surrogate, is_low_surrogate, utf16, pair_code_point.
  intros Hh Hl. rewrite shiftl_10, shiftr_10, land_1023.
  tests. f_equal; [|f_equal]; euclid.
Qed.

Lemma pair_range hi lo :
  is_high_surrogate hi = true -> is_low_surrogate lo = true ->
  65536 <= pair_code_point hi lo < 1114112.
Proof.
  unfold is_high_surrogate, is_low_surrogate, pair_code_point.
  intros Hh Hl. rewrite shiftl_10. lia.
Qed.

(** The decoder reads the bytes of a scalar value as that value and is back
    in its initial state. *)
Lemma decode_code_point (cp : Z) (rest : list Z) :
  scalar cp ->
  decode_from initial (encode_code_point cp ++ rest)
  = utf16 cp ++ decode_from initial rest.
Proof.
  intros [Hr Hs].
  destruct (Z.lt_ge_cases cp 128);
    [|destruct (Z.lt_ge_cases cp 2048); [|destruct (Z.lt_ge_cases cp 65536)]].
  - rewrite encode_1, utf16_bmp by lia. cbn [app decode_from step initial needed].
    now rewrite first_byte_1 by lia.
  - rewrite encode_2, utf16_bmp by lia.
    cbn [app decode_from step initial needed].
    rewrite first_byte_2 by euclid.
    cbn [app decode_from].
    rewrite (step_continuation _ O) by (cbn [needed lower upper]; euclid || reflexivity).
    cbn [code_point]. rewrite utf16_bmp by euclid.
    cbn [app]. f_equal. euclid.
  - rewrite encode_3, utf16_bmp by lia.
    cbn [app decode_from step initial needed].
    rewrite first_byte_3 by euclid.
    cbn [app decode_from].
    rewrite (step_continuation _ 1%nat);
      [|reflexivity|euclid|cbn [lower upper]; tests; euclid].
    cbn [app decode_from code_point].
    rewrite (step_continuation _ O) by (cbn [needed lower upper]; euclid || reflexivity).
    cbn [code_point]. rewrite utf16_bmp by euclid.
    cbn [app]. f_equal. euclid.
  - rewrite encode_4 by lia.
    cbn [app decode_from step initial needed].
    rewrite first_byte_4 by euclid.
    cbn [app decode_from].
    rewrite (step_continuation _ 2%nat);
      [|reflexivity|euclid|cbn [lower upper]; tests; euclid].
    cbn [app decode_from code_point].
    rewrite (step_continuation _ 1%nat) by (cbn [needed lower upper]; euclid || reflexivity).
    cbn [app decode_from code_point].
    rewrite (step_continuation _ O) by (cbn [needed lower upper]; euclid || reflexivity).
    cbn [code_point].
    replace (((cp / 262144 * 64 + (cp / 4096) mod 64) * 64 + (cp / 64) mod 64) * 64
             + cp mod 64) with cp by euclid.
    reflexivity.
Qed.

End Utf8Facts.

Module Utf8RoundTrip.

Import Utf8 Utf8Facts Base64Facts.

Lemma unit_scalar_scalar c : unit_scalar c -> scalar c.
Proof.
  unfold unit_scalar, scalar, is_surrogate. intros [Hr Hs]. split; lia.
Qed.

Lemma pair_scalar hi lo :
  is_high_surrogate hi = true -> is_low_surrogate lo = true ->
  scalar (pair_code_point hi lo).
Proof.
  intros Hh Hl. pose proof (pair_range hi lo Hh Hl). unfold scalar. lia.
Qed.

(** Induction over a well-formed string, scalar value by scalar value. *)
Lemma well_formed_ind (P : jsstring -> Prop) :
  P [] ->
  (forall c r, unit_scalar c -> well_formed r = true -> P r -> P (c :: r)) ->
  (forall hi lo r,
      is_high_surrogate hi = true -> is_low_surrogate lo = true ->
      well_formed r = true -> P r -> P (hi :: lo :: r)) ->
  forall s, well_formed s = true -> P s.
Proof.
  intros Hnil Hunit Hpair s.
  remember (List.length s) as n eqn:Hn.
  revert s Hn. induction n as [n IH] using (well_founded_induction lt_wf).
  intros [|c r] Hn Hwf; [exact Hnil|].
  cbn [well_formed] in Hwf. destruct (is_high_surrogate c) eqn:Hh.
  - destruct r as [|d r']; [discriminate|].
    apply andb_true_iff in Hwf as [Hl Hwf].
    apply Hpair; try assumption.
    apply (IH (List.length r')); [subst n; simpl; lia|reflexivity|exact Hwf].
  - apply andb_true_iff in Hwf as [Hwf Hr].
    apply andb_true_iff in Hwf as [Hc Hl].
    apply Hunit; try assumption.
    + unfold unit_scalar, is_surrogate.
      unfold is_high_surrogate in Hh. unfold is_low_surrogate in Hl. lia.
    + apply (IH (List.length r)); [subst n; simpl; lia|reflexivity|exact Hr].
Qed.

Lemma unit_scalar_not_high c : unit_scalar c -> is_high_surrogate c = false.
Proof. unfold unit_scalar, is_surrogate, is_high_surrogate. lia. Qed.

Lemma unit_scalar_not_low c : unit_scalar c -> is_low_surrogate c = false.
Proof. unfold unit_scalar, is_surrogate, is_low_surrogate. lia. Qed.

Lemma encode_unit c r :
  unit_scalar c -> encode (c :: r) = encode_code_point c ++ encode r.
Proof.
  intros H. cbn [encode].
  now rewrite (unit_scalar_not_high c H), (unit_scalar_not_low c H).
Qed.

Lemma encode_pair hi lo r :
  is_high_surrogate hi = true -> is_low_surrogate lo = true ->
  encode (hi :: lo :: r) = encode_code_point (pair_code_point hi lo) ++ encode r.
Proof. intros Hh Hl. cbn [encode]. now rewrite Hh, Hl. Qed.

(** Decoding the UTF-8 form of a well-formed string gives the string back. *)
Lemma utf8_decode_encode (s : jsstring) :
  well_formed s = true -> decode (encode s) = s.
Proof.
  revert s. unfold decode.
  apply (well_formed_ind (fun s => decode_from initial (encode s) = s));
    [|intros c r Hc Hr IH|intros hi lo r Hh Hl Hr IH].
  - reflexivity.
  - rewrite encode_unit, decode_code_point, IH, utf16_bmp
      by (auto using unit_scalar_scalar; apply Hc).
    reflexivity.
  - rewrite encode_pair, decode_code_point, IH, utf16_pair
      by auto using pair_scalar.
    reflexivity.
Qed.

Lemma code_point_bytes cp : scalar cp -> Forall byte (encode_code_point cp).
Proof.
  intros [Hr Hs].
  destruct (Z.lt_ge_cases cp 128);
    [|destruct (Z.lt_ge_cases cp 2048); [|destruct (Z.lt_ge_cases cp 65536)]].
  - rewrite encode_1 by lia. repeat constructor; lia.
  - rewrite encode_2 by lia. repeat constructor; euclid.
  - rewrite encode_3 by lia. repeat constructor; euclid.
  - rewrite encode_4 by lia. repeat constructor; euclid.
Qed.

(** The UTF-8 form of a well-formed string is made of bytes. *)
Lemma encode_bytes (s : jsstring) :
  well_formed s = true -> Forall byte (encode s).
Proof.
  revert s.
  apply (well_formed_ind (fun s => Forall byte (encode s)));
    [|intros c r Hc Hr IH|intros hi lo r Hh Hl Hr IH].
  - constructor.
  - rewrite encode_unit by assumption. apply Forall_app. split; [|exact IH].
    now apply code_point_bytes, unit_scalar_scalar.
  - rewrite encode_pair by assumption. apply Forall_app. split; [|exact IH].
    now apply code_point_bytes, pair_scalar.
Qed.

End Utf8RoundTrip.

(** ** encodeURIComponent and decodeURIComponent *)

Module UriFacts.

Import Uri Utf8 Utf8Facts Base64Facts Utf8RoundTrip.

Lemma hex_value_digit (v : Z) : 0 <= v < 16 -> hex_value (hex_digit v) = Some v.
Proof.
  intros H.
  pose (P := fun v => (16 <=? v)
                      || match hex_value (hex_digit v) with
                         | Some w => w =? v
                         | None => false
                         end).
  assert (E : P v = true).
  { apply (for_all_bytes P); [vm_compute; reflexivity|]. unfold byte. lia. }
  unfold P in E. apply orb_true_iff in E as [E|E].
  - apply Z.leb_le in E. lia.
  - destruct (hex_value (hex_digit v)) as [w|]; [|discriminate].
    apply Z.eqb_eq in E. now subst.
Qed.

Lemma read_escape_percent (b : Z) (rest : jsstring) :
  byte b -> read_escape (percent b ++ rest) = Some (b, rest).
Proof.
  intros Hb. unfold byte in Hb. unfold percent, read_escape. cbn [app].
  rewrite Z.shiftr_div_pow2, land_15 by lia.
  rewrite !hex_value_digit by euclid.
  do 2 f_equal. euclid.
Qed.

Lemma read_escapes_percent (bs : list Z) (rest : jsstring) :
  Forall byte bs ->
  read_escapes (List.length bs) (percent_all bs ++ rest) = Some bs.
Proof.
  induction 1 as [|b bs Hb Hbs IH]; [reflexivity|].
  unfold percent_all in *. cbn [flat_map List.length read_escapes].
  rewrite <- app_assoc, read_escape_percent by assumption.
  now rewrite IH.
Qed.

Lemma length_percent_all (bs : list Z) :
  List.length (percent_all bs) = (3 * List.length bs)%nat.
Proof.
  unfold percent_all. induction bs as [|b bs IH]; [reflexivity|].
  cbn [flat_map]. rewrite length_app, IH. simpl. lia.
Qed.

(** The strict reading of a continuation byte. *)
Lemma decode_rest_step (st : state) (n : nat) (y : Z) (r : list Z) :
  needed st = S n ->
  0 <= y < 64 ->
  lower st <= 128 + y <= upper st ->
  decode_rest st ((128 + y) :: r)
  = match n with
    | S m => decode_rest {| code_point := code_point st * 64 + y; needed := S m;
                            lower := 128; upper := 191 |} r
    | O => match r with
           | [] => Some (code_point st * 64 + y)
           | _ => None
           end
    end.
Proof.
  intros Hn Hy Hb. cbn [decode_rest]. rewrite Hn, push_six.
  replace ((128 + y) mod 64) with y by euclid.
  destruct (Z.leb_spec (lower st) (128 + y)); [|lia].
  destruct (Z.leb_spec (128 + y) (upper st)); [|lia].
  cbn [andb]. now destruct n.
Qed.

(** The strict decoder reads the bytes of a scalar value above the ASCII
    range as that value. *)
Lemma decode_one_code_point (cp : Z) :
  scalar cp -> 128 <= cp -> decode_one (encode_code_point cp) = Some cp.
Proof.
  intros [Hr Hs] Hcp.
  destruct (Z.lt_ge_cases cp 2048); [|destruct (Z.lt_ge_cases cp 65536)].
  - rewrite encode_2 by lia. unfold decode_one.
    rewrite first_byte_2 by euclid. cbn [needed].
    rewrite (decode_rest_step _ O) by (cbn [needed lower upper]; euclid || reflexivity).
    cbn [code_point]. f_equal. euclid.
  - rewrite encode_3 by lia. unfold decode_one.
    rewrite first_byte_3 by euclid. cbn [needed].
    rewrite (decode_rest_step _ 1%nat);
      [|reflexivity|euclid|cbn [lower upper]; tests; euclid].
    rewrite (decode_rest_step _ O) by (cbn [needed lower upper]; euclid || reflexivity).
    cbn [code_point]. f_equal. euclid.
  - rewrite encode_4 by lia. unfold decode_one.
    rewrite first_byte_4 by euclid. cbn [needed].
    rewrite (decode_rest_step _ 2%nat);
      [|reflexivity|euclid|cbn [lower upper]; tests; euclid].
    rewrite (decode_rest_step _ 1%nat) by (cbn [needed lower upper]; euclid || reflexivity).
    rewrite (decode_rest_step _ O) by (cbn [needed lower upper]; euclid || reflexivity).
    cbn [code_point]. f_equal. euclid.
Qed.

(** The first byte of a scalar value above the ASCII range announces the
    number of its bytes. *)
Lemma leading_ones_code_point (cp : Z) :
  scalar cp -> 128 <= cp ->
  exists b bs m,
    encode_code_point cp = b :: bs
    /\ List.length bs = S m
    /\ leading_ones b = S (S m)
    /\ (m <= 2)%nat.
Proof.
  intros [Hr Hs] Hcp.
  destruct (Z.lt_ge_cases cp 2048); [|destruct (Z.lt_ge_cases cp 65536)].
  - rewrite encode_2 by lia. do 2 eexists. exists 0%nat.
    repeat split; [|lia]. unfold leading_ones. tests; try reflexivity; euclid.
  - rewrite encode_3 by lia. do 2 eexists. exists 1%nat.
    repeat split; [|lia]. unfold leading_ones. tests; try reflexivity; euclid.
  - rewrite encode_4 by lia. do 2 eexists. exists 2%nat.
    repeat split; [|lia]. unfold leading_ones. tests; try reflexivity; euclid.
Qed.

(** Decode reads the escapes of a scalar value as its code units. *)
Lemma decode_at_code_point (cp : Z) (rest : jsstring) :
  scalar cp ->
  decode_at (percent_all (encode_code_point cp) ++ rest)
  = Ok (utf16 cp, (3 * List.length (encode_code_point cp))%nat).
Proof.
  intros Hcp. pose proof (code_point_bytes cp Hcp) as Hbytes.
  destruct (Z.lt_ge_cases cp 128) as [Hlow|Hhigh].
  - destruct Hcp as [Hr _].
    rewrite encode_1 in * by lia. unfold percent_all. cbn [flat_map].
    rewrite app_nil_r. unfold decode_at.
    rewrite read_escape_percent by (unfold byte; lia).
    unfold leading_ones. destruct (Z.ltb_spec cp 128); [|lia].
    now rewrite utf16_bmp by lia.
  - destruct (leading_ones_code_point cp Hcp Hhigh)
      as (b & bs & m & Henc & Hlen & Hones & Hm).
    pose proof (decode_one_code_point cp Hcp Hhigh) as Hone.
    rewrite Henc in *. apply Forall_cons_iff in Hbytes as [Hb Hbs].
    unfold percent_all. cbn [flat_map]. rewrite <- app_assoc.
    unfold decode_at. rewrite read_escape_percent, Hones by assumption.
    destruct (Nat.ltb_spec 4 (S (S m))); [lia|].
    rewrite <- Hlen. fold (percent_all bs).
    rewrite read_escapes_percent, Hone by assumption.
    reflexivity.
Qed.

Lemma decode_loop_skip (pre rest : jsstring) :
  decode_loop (List.length pre) (pre ++ rest) = decode_loop O rest.
Proof. induction pre as [|c pre IH]; [reflexivity|exact IH]. Qed.

Lemma decode_loop_escape (tail : jsstring) :
  decode_loop O (37 :: tail)
  = bind (decode_at (37 :: tail))
         (fun res => bind (decode_loop (Nat.pred (snd res)) tail)
                          (fun rest => Ok (fst res ++ rest))).
Proof. reflexivity. Qed.

(** The loop of Decode passes the escapes of a scalar value and goes on
    after them. *)
Lemma decode_loop_code_point (cp : Z) (rest : jsstring) :
  scalar cp ->
  decode_loop O (percent_all (encode_code_point cp) ++ rest)
  = bind (decode_loop O rest) (fun r => Ok (utf16 cp ++ r)).
Proof.
  intros Hcp.
  pose proof (decode_at_code_point cp rest Hcp) as Hat.
  pose proof (length_percent_all (encode_code_point cp)) as Hlen.
  assert (Hne : exists b bs, encode_code_point cp = b :: bs).
  { destruct Hcp as [Hr _]. unfold encode_code_point.
    destruct (cp <? 128), (cp <? 2048), (cp <? 65536); eauto. }
  destruct Hne as (b & bs & Henc). rewrite Henc in *.
  unfold percent_all in *. cbn [flat_map] in *.
  remember (hex_digit (Z.shiftr b 4) :: hex_digit (Z.land b 15)
            :: flat_map percent bs) as pre eqn:Hpre.
  assert (Hsplit : percent b ++ flat_map percent bs = 37 :: pre)
    by (subst pre; reflexivity).
  rewrite Hsplit in *. cbn [app] in *.
  rewrite decode_loop_escape, Hat. cbn [bind fst snd].
  replace (Nat.pred (3 * List.length (b :: bs))) with (List.length pre)
    by (cbn [List.length] in *; lia).
  now rewrite decode_loop_skip.
Qed.

Lemma unescaped_ascii (c : Z) : unescaped c = true -> 0 <= c < 128 /\ c <> 37.
Proof.
  unfold unescaped, is_alnum, is_digit. cbn [existsb].
  intros H. repeat (apply orb_true_iff in H as [H|H]);
    try (apply andb_true_iff in H as [H1 H2]); lia.
Qed.

(** Encoding a well-formed string succeeds, and decoding the result gives
    the string back. *)
Lemma uri_decode_encode :
  forall s, well_formed s = true ->
            exists e, encodeURIComponent s = Ok e
                      /\ decodeURIComponent e = Ok s.
Proof.
  unfold decodeURIComponent.
  apply (well_formed_ind
           (fun s => exists e, encodeURIComponent s = Ok e
                               /\ decode_loop O e = Ok s));
    [|intros c r Hc Hr (e & He & Hd)|intros hi lo r Hh Hl Hr (e & He & Hd)].
  - now exists [].
  - cbn [encodeURIComponent]. rewrite He. cbn [bind].
    destruct (unescaped c) eqn:Hu.
    + exists (c :: e). split; [reflexivity|].
      apply unescaped_ascii in Hu as [_ Hu].
      cbn [decode_loop]. apply Z.eqb_neq in Hu. rewrite Hu, Hd. reflexivity.
    + rewrite (unit_scalar_not_high c Hc), (unit_scalar_not_low c Hc).
      eexists. split; [reflexivity|].
      rewrite decode_loop_code_point, Hd by now apply unit_scalar_scalar.
      cbn [bind]. rewrite utf16_bmp by apply Hc. reflexivity.
  - cbn [encodeURIComponent]. rewrite He, Hh, Hl. cbn [bind].
    assert (Hu : unescaped hi = false).
    { destruct (unescaped hi) eqn:Hu; [|reflexivity].
      apply unescaped_ascii in Hu. unfold is_high_surrogate in Hh. lia. }
    rewrite Hu. eexists. split; [reflexivity|].
    rewrite decode_loop_code_point, Hd by now apply pair_scalar.
    cbn [bind]. now rewrite utf16_pair.
Qed.

End UriFacts.

(** Printable ASCII text is well formed. *)
Lemma printable_ascii_well_formed (s : jsstring) :
  forallb (fun c => (32 <=? c) && (c <=? 126)) s = true ->
  Utf8.well_formed s = true.
Proof.
  induction s as [|c s IH]; [reflexivity|]. cbn [forallb]. intros H.
  apply andb_true_iff in H as [Hc Hs]. cbn [Utf8.well_formed].
  unfold Utf8.is_high_surrogate, Utf8.is_low_surrogate.
  rewrite (IH Hs).
  destruct (Z.leb_spec 55296 c); [lia|]. cbn [andb].
  destruct (Z.leb_spec 0 c); [|lia].
  destruct (Z.ltb_spec c 65536); [|lia].
  destruct (Z.leb_spec 56320 c); [lia|]. reflexivity.
Qed.

(** C1.  For every well-formed string (every sequence of Unicode scalar
    values in UTF-16, printable ASCII text included), decoding the base64
    encoding gives the string back, and so does decoding the URL encoding,
    which succeeds. *)
Theorem encode_decode_round_trip (s : jsstring) :
  Utf8.well_formed s = true ->
  Codec.base64Decode (Codec.base64Encode s) = Ok s
  /\ exists encoded, Codec.urlEncode s = Ok encoded
                     /\ Codec.urlDecode encoded = Ok s.
Proof.
  intros Hwf. split.
  - unfold Codec.base64Decode, Codec.base64Encode, try_catch.
    rewrite Base64RoundTrip.base64_decode_encode
      by now apply Utf8RoundTrip.encode_bytes.
    now rewrite Utf8RoundTrip.utf8_decode_encode.
  - now apply UriFacts.uri_decode_encode.
Qed.

Lemma encode_decode_round_trip_witness :
  Codec.base64Decode
    (Codec.base64Encode (js "Hello, world!" ++ [233; 8364; 55357; 56832]))
  = Ok (js "Hello, world!" ++ [233; 8364; 55357; 56832])
  /\ exists encoded,
      Codec.urlEncode (js "Hello, world!" ++ [233; 8364; 55357; 56832])
      = Ok encoded
      /\ Codec.urlDecode encoded
         = Ok (js "Hello, world!" ++ [233; 8364; 55357; 56832]).
Proof.
  apply (encode_decode_round_trip
           (js "Hello, world!" ++ [233; 8364; 55357; 56832])).
  reflexivity.
Defined.

(** C5.  base64Decode never throws on a string: Buffer.from skips the
    characters that are not base64 and stops at the first =, so the handler of
    the try statement, which would throw Invalid Base64 string, is never
    entered.  On the malformed text !!! the function returns the empty
    string. *)
Theorem base64Decode_accepts_malformed_text :
  (forall encoded, exists decoded, Codec.base64Decode encoded = Ok decoded)
  /\ forallb (fun c => match Base64.unbase64 c with
                       | Some _ => true
                       | None => false
                       end) (js "!!!") = false
  /\ Codec.base64Decode (js "!!!") = Ok [].
Proof.
  split; [|split; reflexivity].
  intros encoded. eexists. reflexivity.
Qed.

(** C4.  jwtDecode throws the error Invalid JWT token whenever it throws:
    the error Invalid JWT format, thrown for a token that has not three
    segments, is thrown inside the try statement, whose handler replaces it.
    A token of two segments therefore fails with Invalid JWT token. *)
Theorem jwtDecode_errors {M : Json.NumberModel} :
  (forall token,
      List.length (split 46 token) <> 3%nat ->
      Codec.jwtDecode token = Throw (Error "Invalid JWT token"))
  /\ (forall token e,
         Codec.jwtDecode token = Throw e -> e = Error "Invalid JWT token")
  /\ Codec.jwtDecode (js "a.b") = Throw (Error "Invalid JWT token")
  /\ Error "Invalid JWT token" <> Error "Invalid JWT format".
Proof.
  split; [|split; [|split; [reflexivity|discriminate]]].
  - intros token H. unfold Codec.jwtDecode.
    apply Nat.eqb_neq in H. rewrite H. reflexivity.
  - intros token e. unfold Codec.jwtDecode, try_catch.
    destruct (bind _ _); congruence.
Qed.

Lemma jwtDecode_errors_witness :
  Codec.jwtDecode (M := IntegerNumbers.model) (js "e30.e30.sig.more")
  = Throw (Error "Invalid JWT token").
Proof.
  apply (proj1 (@jwtDecode_errors IntegerNumbers.model)).
  vm_compute. discriminate.
Defined.

(** ** Property order *)

Module OrderFacts.

Lemma digits_value_acc (acc : Z) (l : jsstring) :
  Obj.digits_value acc l
  = acc * 10 ^ Z.of_nat (List.length l) + Obj.digits_value 0 l.
Proof.
  revert acc; induction l as [|d l IH]; intros acc.
  - simpl. lia.
  - cbn [Obj.digits_value List.length]. rewrite IH, (IH (0 * 10 + (d - 48))).
    rewrite Nat2Z.inj_succ, Z.pow_succ_r by lia. lia.
Qed.

Lemma digits_value_cons (d : Z) (l : jsstring) :
  Obj.digits_value 0 (d :: l)
  = (d - 48) * 10 ^ Z.of_nat (List.length l) + Obj.digits_value 0 l.
Proof. cbn [Obj.digits_value]. rewrite digits_value_acc. f_equal. Qed.

Lemma digits_value_bound (l : jsstring) :
  forallb is_digit l = true ->
  0 <= Obj.digits_value 0 l < 10 ^ Z.of_nat (List.length l).
Proof.
  induction l as [|d l IH]; intros H.
  - simpl. lia.
  - cbn [forallb] in H. apply andb_true_iff in H as [Hd Hl].
    specialize (IH Hl). rewrite digits_value_cons.
    cbn [List.length]. rewrite Nat2Z.inj_succ, Z.pow_succ_r by lia.
    unfold is_digit in Hd. nia.
Qed.

(** Digit strings of one length with one value are equal. *)
Lemma digits_value_inj (a b : jsstring) :
  forallb is_digit a = true -> forallb is_digit b = true ->
  List.length a = List.length b ->
  Obj.digits_value 0 a = Obj.digits_value 0 b -> a = b.
Proof.
  revert b; induction a as [|c a IH]; intros [|d b] Ha Hb Hlen Hv;
    try discriminate; [reflexivity|].
  cbn [forallb] in Ha, Hb.
  apply andb_true_iff in Ha as [Hc Ha]. apply andb_true_iff in Hb as [Hd Hb].
  injection Hlen as Hlen. rewrite !digits_value_cons, <- Hlen in Hv.
  pose proof (digits_value_bound a Ha) as Ba.
  pose proof (digits_value_bound b Hb) as Bb. rewrite <- Hlen in Bb.
  set (P := 10 ^ Z.of_nat (List.length a)) in *.
  assert (c = d).
  { destruct (Z.lt_trichotomy c d) as [L|[E|L]]; [exfalso|exact E|exfalso].
    - assert (1 * P <= (d - c) * P) by (apply Z.mul_le_mono_nonneg_r; lia). lia.
    - assert (1 * P <= (c - d) * P) by (apply Z.mul_le_mono_nonneg_r; lia). lia. }
  subst d. f_equal. apply IH; try assumption. lia.
Qed.

Lemma array_index_shape (k : jsstring) (i : Z) :
  Obj.array_index k = Some i ->
  exists c r, k = c :: r
              /\ forallb is_digit k = true
              /\ (c <> 48 \/ r = [])
              /\ i = Obj.digits_value 0 k.
Proof.
  unfold Obj.array_index. destruct k as [|c r]; [discriminate|].
  destruct (forallb is_digit (c :: r)) eqn:Hd; [|discriminate].
  destruct (Z.of_nat (List.length (c :: r)) <=? 10); [|discriminate].
  cbn [andb].
  destruct (negb (c =? 48) || match r with [] => true | _ => false end) eqn:Hz;
    [|discriminate].
  destruct (Obj.digits_value 0 (c :: r) <? 4294967295); [|discriminate].
  intros H. injection H as <-. exists c, r. repeat split.
  apply orb_true_iff in Hz as [Hz|Hz].
  - left. apply negb_true_iff, Z.eqb_neq in Hz. exact Hz.
  - right. now destruct r.
Qed.

(** A canonical digit string of at least the length of another has at least
    its value, by more when it is longer. *)
Lemma longer_is_larger (a b : jsstring) (c : Z) (r : jsstring) :
  a <> [] ->
  forallb is_digit a = true -> forallb is_digit b = true ->
  b = c :: r -> (c <> 48 \/ r = []) ->
  (List.length a < List.length b)%nat ->
  Obj.digits_value 0 a < Obj.digits_value 0 b.
Proof.
  intros Hne Ha Hb -> Hc Hlen.
  pose proof (digits_value_bound a Ha) as Ba.
  cbn [forallb] in Hb. apply andb_true_iff in Hb as [Hd Hr].
  pose proof (digits_value_bound r Hr) as Br.
  rewrite digits_value_cons. cbn [List.length] in Hlen.
  destruct Hc as [Hc| ->].
  - assert (10 ^ Z.of_nat (List.length a) <= 10 ^ Z.of_nat (List.length r))
      by (apply Z.pow_le_mono_r; lia).
    unfold is_digit in Hd.
    assert (1 * 10 ^ Z.of_nat (List.length r)
            <= (c - 48) * 10 ^ Z.of_nat (List.length r))
      by (apply Z.mul_le_mono_nonneg_r; lia).
    lia.
  - destruct a; [contradiction|simpl in Hlen; lia].
Qed.

(** An array index has one canonical form. *)
Lemma array_index_inj (k k' : jsstring) (i : Z) :
  Obj.array_index k = Some i -> Obj.array_index k' = Some i -> k = k'.
Proof.
  intros H H'.
  destruct (array_index_shape k i H) as (c & r & Hk & Hd & Hz & Hi).
  destruct (array_index_shape k' i H') as (c' & r' & Hk' & Hd' & Hz' & Hi').
  destruct (Nat.lt_trichotomy (List.length k) (List.length k')) as [L|[L|L]].
  - assert (Hne : k <> []) by (rewrite Hk; discriminate).
    pose proof (longer_is_larger k k' c' r' Hne Hd Hd' Hk' Hz' L). lia.
  - apply digits_value_inj; try assumption. lia.
  - assert (Hne : k' <> []) by (rewrite Hk'; discriminate).
    pose proof (longer_is_larger k' k c r Hne Hd' Hd Hk Hz L). lia.
Qed.

End OrderFacts.

Module CanonicalFacts.

Import OrderFacts.

Section Objects.
Context {V : Type}.
Implicit Types (o : Obj.t V) (k : jsstring) (v : V).

Lemma has_keys o k : Obj.has o k = true <-> In k (Obj.keys o).
Proof.
  unfold Obj.has, Obj.keys. induction o as [|[k1 v1] o IH]; simpl.
  - split; [discriminate|tauto].
  - destruct (str_eqb k1 k) eqn:E.
    + apply str_eqb_eq in E. tauto.
    + apply str_eqb_neq in E. rewrite IH. tauto.
Qed.

Lemma not_has_keys o k : Obj.has o k = false <-> ~ In k (Obj.keys o).
Proof.
  rewrite <- has_keys. destruct (Obj.has o k); split; congruence.
Qed.

Lemma canonical_replace o k v : Obj.canonical o -> Obj.canonical (Obj.replace o k v).
Proof. unfold Obj.canonical. now rewrite ObjFacts.keys_replace. Qed.

Lemma canonical_insert_index o i k v :
  Obj.canonical o -> Obj.has o k = false -> Obj.array_index k = Some i ->
  Obj.canonical (Obj.insert_index o i k v).
Proof.
  unfold Obj.canonical. intros Hc Hk Hi. apply not_has_keys in Hk.
  induction o as [|[k1 v1] o IH]; [simpl; tauto|].
  cbn [Obj.keys map fst Obj.canonical_keys] in Hc, Hk.
  destruct Hc as (Hnew & Hord & Hc).
  assert (Hk1 : k1 <> k) by (intros ->; apply Hk; now left).
  assert (Hko : ~ In k (Obj.keys o)) by (intros H; apply Hk; now right).
  cbn [Obj.insert_index].
  destruct (Obj.array_index k1) as [j|] eqn:Ej; [destruct (Z.ltb_spec j i)|].
  - cbn [Obj.keys map fst Obj.canonical_keys]. rewrite Ej. split; [|split].
    + fold (Obj.keys (Obj.insert_index o i k v)).
      rewrite ObjFacts.keys_insert_index. tauto.
    + fold (Obj.keys (Obj.insert_index o i k v)). intros x i' Hx Hxi.
      apply ObjFacts.keys_insert_index in Hx as [->|Hx].
      * exists j. split; [reflexivity|]. congruence.
      * apply (Hord x i' Hx Hxi).
    + apply IH; assumption.
  - cbn [Obj.keys map fst Obj.canonical_keys]. rewrite Ej.
    split; [|split; [|split; [|split]]].
    + intros [H'|H']; [now apply Hk1|now apply Hko].
    + intros x i' [<-|Hx] Hxi.
      * exists i. split; [exact Hi|].
        assert (j <> i) by (intros ->; apply Hk1; now apply (array_index_inj k1 k i)).
        assert (i' = j) by congruence. lia.
      * destruct (Hord x i' Hx Hxi) as (j' & Hj' & Hlt).
        exists i. split; [exact Hi|]. assert (j' = j) by congruence. lia.
    + exact Hnew.
    + exact Hord.
    + exact Hc.
  - cbn [Obj.keys map fst Obj.canonical_keys]. rewrite Ej.
    split; [|split; [|split; [|split]]].
    + intros [H'|H']; [now apply Hk1|now apply Hko].
    + intros x i' [<-|Hx] Hxi; [congruence|].
      destruct (Hord x i' Hx Hxi) as (j' & Hj' & _). congruence.
    + exact Hnew.
    + exact Hord.
    + exact Hc.
Qed.

Lemma canonical_keys_snoc (l : list jsstring) k :
  Obj.canonical_keys l -> ~ In k l -> Obj.array_index k = None ->
  Obj.canonical_keys (l ++ [k]).
Proof.
  intros Hc Hk Hi. induction l as [|k1 l IH]; [simpl; tauto|].
  cbn [app Obj.canonical_keys] in *. destruct Hc as (Hnew & Hord & Hc).
  split; [|split].
  - intros H. apply in_app_iff in H as [H|[H|[]]].
    + now apply Hnew.
    + apply Hk. now left.
  - intros x i' Hx Hxi. apply in_app_iff in Hx as [Hx|[<-|[]]].
    + apply (Hord x i' Hx Hxi).
    + congruence.
  - apply IH; [exact Hc|]. intros H. apply Hk. now right.
Qed.

Lemma canonical_append o k v :
  Obj.canonical o -> Obj.has o k = false -> Obj.array_index k = None ->
  Obj.canonical (o ++ [(k, v)]).
Proof.
  unfold Obj.canonical, Obj.keys. intros Hc Hk Hi. apply not_has_keys in Hk.
  rewrite map_app. now apply canonical_keys_snoc.
Qed.

(** CreateDataProperty keeps the property order. *)
Lemma canonical_define o k v : Obj.canonical o -> Obj.canonical (Obj.define o k v).
Proof.
  intros Hc. unfold Obj.define. destruct (Obj.has o k) eqn:Hk.
  - now apply canonical_replace.
  - destruct (Obj.array_index k) as [i|] eqn:Hi.
    + now apply canonical_insert_index.
    + now apply canonical_append.
Qed.

Lemma canonical_prefix o o' : Obj.canonical (o ++ o') -> Obj.canonical o.
Proof.
  unfold Obj.canonical, Obj.keys. rewrite map_app.
  induction (map fst o) as [|k l IH]; [simpl; tauto|].
  cbn [app Obj.canonical_keys]. intros (Hnew & Hord & Hc). split; [|split].
  - intros H. apply Hnew. apply in_app_iff. now left.
  - intros x i Hx. apply Hord. apply in_app_iff. now left.
  - now apply IH.
Qed.

(** A property that stands last in property order is where
    CreateDataProperty puts it. *)
Lemma define_last o k v :
  Obj.canonical (o ++ [(k, v)]) -> Obj.define o k v = o ++ [(k, v)].
Proof.
  intros Hc.
  assert (Hk : Obj.has o k = false).
  { apply not_has_keys. unfold Obj.canonical, Obj.keys in Hc.
    rewrite map_app in Hc. cbn [map fst] in Hc.
    fold (Obj.keys o) in Hc. induction (Obj.keys o) as [|k1 l IH]; [tauto|].
    cbn [app Obj.canonical_keys] in Hc. destruct Hc as (Hnew & _ & Hc).
    intros [->|H]; [|now apply IH].
    apply Hnew. apply in_app_iff. right. now left. }
  unfold Obj.define. rewrite Hk.
  destruct (Obj.array_index k) as [i|] eqn:Hi; [|reflexivity].
  clear Hk. induction o as [|[k1 v1] o IH]; [reflexivity|].
  unfold Obj.canonical in Hc.
  cbn [app Obj.keys map fst Obj.canonical_keys] in Hc.
  destruct Hc as (_ & Hord & Hc).
  destruct (Hord k i) as (j & Hj & Hlt); [|exact Hi|].
  { apply in_map_iff. exists (k, v). split; [reflexivity|].
    apply in_app_iff. right. now left. }
  cbn [Obj.insert_index app]. rewrite Hj.
  destruct (Z.ltb_spec j i); [|lia]. f_equal. now apply IH.
Qed.

(** Building an object again from its properties, in their order, gives the
    object. *)
Lemma refold o acc :
  Obj.canonical (acc ++ o) ->
  fold_left (fun o kv => Obj.define o (fst kv) (snd kv)) o acc = acc ++ o.
Proof.
  revert acc; induction o as [|[k v] o IH]; intros acc Hc.
  - now rewrite app_nil_r.
  - cbn [fold_left fst snd].
    replace (acc ++ (k, v) :: o) with ((acc ++ [(k, v)]) ++ o) in *
      by now rewrite <- app_assoc.
    rewrite define_last by now apply canonical_prefix in Hc.
    now apply IH.
Qed.

End Objects.

End CanonicalFacts.

(** ** JSON strings and numbers *)

Module LexFacts.

Import Json Utf8Facts Base64Facts.

Lemma hex_lower_value (v : Z) :
  0 <= v < 16 -> Uri.hex_value (hex_lower v) = Some v.
Proof.
  intros H.
  pose (P := fun v => (16 <=? v)
                      || match Uri.hex_value (hex_lower v) with
                         | Some w => w =? v
                         | None => false
                         end).
  assert (E : P v = true).
  { apply (for_all_bytes P); [vm_compute; reflexivity|]. unfold byte. lia. }
  unfold P in E. apply orb_true_iff in E as [E|E].
  - apply Z.leb_le in E. lia.
  - destruct (Uri.hex_value (hex_lower v)) as [w|]; [|discriminate].
    apply Z.eqb_eq in E. now subst.
Qed.

Lemma hex_value_range (c v : Z) : Uri.hex_value c = Some v -> 0 <= v < 16.
Proof.
  unfold Uri.hex_value, is_digit.
  destruct ((48 <=? c) && (c <=? 57)) eqn:E1;
    [|destruct ((65 <=? c) && (c <=? 70)) eqn:E2;
      [|destruct ((97 <=? c) && (c <=? 102)) eqn:E3]];
    intros H; inversion H; lia.
Qed.

Lemma some_inj {A} (a b : A) : Some a = Some b -> a = b.
Proof. congruence. Qed.

Lemma hex4_range (a b c d u : Z) : hex4 a b c d = Some u -> 0 <= u < 65536.
Proof.
  unfold hex4.
  destruct (Uri.hex_value a) as [x|] eqn:Ha; [|discriminate].
  destruct (Uri.hex_value b) as [y|] eqn:Hb; [|discriminate].
  destruct (Uri.hex_value c) as [z|] eqn:Hc; [|discriminate].
  destruct (Uri.hex_value d) as [w|] eqn:Hd; [|discriminate].
  apply hex_value_range in Ha, Hb, Hc, Hd. intros H. apply some_inj in H. lia.
Qed.

Lemma hex4_escape (c : Z) :
  0 <= c < 65536 ->
  hex4 (hex_lower (Z.shiftr c 12)) (hex_lower (Z.land (Z.shiftr c 8) 15))
       (hex_lower (Z.land (Z.shiftr c 4) 15)) (hex_lower (Z.land c 15))
  = Some c.
Proof.
  intros H. unfold hex4.
  rewrite !land_15, !Z.shiftr_div_pow2 by lia.
  change (2 ^ 12) with 4096. change (2 ^ 8) with 256. change (2 ^ 4) with 16.
  rewrite !hex_lower_value by euclid.
  f_equal. euclid.
Qed.

(** The three ways in which the lexer reads one code unit. *)
Lemma lex_raw (c : Z) (r : jsstring) :
  c <> 34 -> c <> 92 -> 32 <= c ->
  lex_string (c :: r) = cons_result c (lex_string r).
Proof.
  intros H1 H2 H3. cbn [lex_string].
  destruct (Z.eqb_spec c 34); [lia|]. destruct (Z.eqb_spec c 92); [lia|].
  destruct (Z.ltb_spec c 32); [lia|]. reflexivity.
Qed.

Lemma lex_simple (e u : Z) (r : jsstring) :
  e <> 117 -> simple_escape e = Some u ->
  lex_string (92 :: e :: r) = cons_result u (lex_string r).
Proof.
  intros H1 H2. cbn [lex_string]. cbn [Z.eqb Pos.eqb].
  destruct (Z.eqb_spec e 117); [lia|]. now rewrite H2.
Qed.

Lemma lex_unicode (c : Z) (r : jsstring) :
  0 <= c < 65536 ->
  lex_string (unicode_escape c ++ r) = cons_result c (lex_string r).
Proof.
  intros H. unfold unicode_escape. cbn [app lex_string]. cbn [Z.eqb Pos.eqb].
  now rewrite hex4_escape.
Qed.

Lemma lex_quote_body_length (n : nat) :
  forall s rest,
    (List.length s <= n)%nat -> units_ok s ->
    lex_string (quote_body s ++ 34 :: rest) = Some (s, rest).
Proof.
  induction n as [|n IH]; intros [|c r] rest Hlen Hok;
    try (simpl in Hlen; lia); try reflexivity.
  cbn [List.length] in Hlen.
  apply Forall_cons_iff in Hok as [Hc Hr].
  assert (Tail : lex_string (quote_body r ++ 34 :: rest) = Some (r, rest))
    by (apply IH; [lia|exact Hr]).
  assert (Escaped : 0 <= c < 65536 ->
            lex_string (unicode_escape c ++ quote_body r ++ 34 :: rest)
            = Some (c :: r, rest)).
  { intros H. now rewrite lex_unicode, Tail. }
  cbn [quote_body].
  destruct (Z.eqb_spec c 8) as [->|N8];
    [cbn [app]; now rewrite (lex_simple 98 8), Tail|].
  destruct (Z.eqb_spec c 9) as [->|N9];
    [cbn [app]; now rewrite (lex_simple 116 9), Tail|].
  destruct (Z.eqb_spec c 10) as [->|N10];
    [cbn [app]; now rewrite (lex_simple 110 10), Tail|].
  destruct (Z.eqb_spec c 12) as [->|N12];
    [cbn [app]; now rewrite (lex_simple 102 12), Tail|].
  destruct (Z.eqb_spec c 13) as [->|N13];
    [cbn [app]; now rewrite (lex_simple 114 13), Tail|].
  destruct (Z.eqb_spec c 34) as [->|N34];
    [cbn [app]; now rewrite (lex_simple 34 34), Tail|].
  destruct (Z.eqb_spec c 92) as [->|N92];
    [cbn [app]; now rewrite (lex_simple 92 92), Tail|].
  destruct (Z.ltb_spec c 32) as [L32|L32];
    [rewrite <- app_assoc; apply Escaped; lia|].
  unfold Utf8.is_high_surrogate, Utf8.is_low_surrogate.
  destruct ((55296 <=? c) && (c <=? 56319)) eqn:Hh.
  - destruct r as [|d r'].
    + cbn [app]. rewrite <- (app_nil_l (34 :: rest)) at 1.
      change (unicode_escape c ++ [] ++ 34 :: rest)
        with (unicode_escape c ++ quote_body [] ++ 34 :: rest).
      apply Escaped. lia.
    + destruct ((56320 <=? d) && (d <=? 57343)) eqn:Hl.
      * apply Forall_cons_iff in Hr as [Hd Hr'].
        cbn [app]. rewrite !lex_raw by lia.
        rewrite (IH r' rest) by (simpl in Hlen; try lia; exact Hr').
        reflexivity.
      * rewrite <- app_assoc. apply Escaped. lia.
  - destruct ((56320 <=? c) && (c <=? 57343)) eqn:Hl.
    + rewrite <- app_assoc. apply Escaped. lia.
    + cbn [app]. now rewrite lex_raw, Tail by lia.
Qed.

(** The lexer reads a quoted string as the string. *)
Lemma lex_quote (s rest : jsstring) :
  units_ok s -> lex_string (quote_body s ++ 34 :: rest) = Some (s, rest).
Proof. intros H. now apply (lex_quote_body_length (List.length s)). Qed.

Lemma simple_escape_range (e u : Z) : simple_escape e = Some u -> 0 <= u.
Proof.
  unfold simple_escape.
  repeat match goal with
         | |- context [?x =? ?y] => destruct (Z.eqb_spec x y)
         end; intros H; inversion H; lia.
Qed.

Lemma lex_string_units_length (n : nat) :
  forall s str rest,
    (List.length s <= n)%nat -> lex_string s = Some (str, rest) -> units_ok str.
Proof.
  induction n as [|n IH]; intros [|c r] str rest Hlen H;
    try (simpl in Hlen; lia); try discriminate.
  cbn [List.length] in Hlen. cbn [lex_string] in H.
  destruct (c =? 34); [inversion H; constructor|].
  destruct (Z.eqb_spec c 92) as [E92|N92].
  - destruct r as [|e r1]; [discriminate|]. cbn [List.length] in Hlen.
    destruct (e =? 117).
    + destruct r1 as [|a [|b [|c' [|d r2]]]]; try discriminate.
      destruct (hex4 a b c' d) as [u|] eqn:Hu; [|discriminate].
      destruct (lex_string r2) as [[str' rest']|] eqn:E; [|discriminate].
      inversion H; subst. constructor.
      * apply hex4_range in Hu. lia.
      * apply (IH r2 str' rest); [simpl in Hlen; lia|exact E].
    + destruct (simple_escape e) as [u|] eqn:Hu; [|discriminate].
      destruct (lex_string r1) as [[str' rest']|] eqn:E; [|discriminate].
      inversion H; subst. constructor.
      * now apply simple_escape_range in Hu.
      * apply (IH r1 str' rest); [lia|exact E].
  - destruct (Z.ltb_spec c 32); [discriminate|].
    destruct (lex_string r) as [[str' rest']|] eqn:E; [|discriminate].
    inversion H; subst. constructor; [lia|].
    apply (IH r str' rest); [lia|exact E].
Qed.

(** The code units of a string literal are never negative. *)
Lemma lex_string_units (s str rest : jsstring) :
  lex_string s = Some (str, rest) -> units_ok str.
Proof. apply (lex_string_units_length (List.length s)). lia. Qed.

(** *** Number tokens *)

Lemma delimited_stops_digits rest : delimited rest -> stops_digits rest.
Proof. destruct rest; simpl; tauto. Qed.

Lemma span_digits_app (s ds r rest : jsstring) :
  span_digits s = (ds, r) ->
  r <> [] \/ stops_digits rest ->
  span_digits (s ++ rest) = (ds, r ++ rest).
Proof.
  revert ds r; induction s as [|c s IH]; intros ds r H Hr.
  - inversion H; subst. destruct Hr as [Hr|Hr]; [contradiction|].
    destruct rest as [|c rest]; [reflexivity|]. simpl in *. now rewrite Hr.
  - cbn [span_digits app] in *. destruct (is_digit c) eqn:Hc.
    + destruct (span_digits s) as [ds' r'] eqn:E. inversion H; subst.
      now rewrite (IH ds' r eq_refl Hr).
    + now inversion H; subst.
Qed.

Lemma span_digits_nil_rest (s ds : jsstring) :
  span_digits s = (ds, []) -> ds = s.
Proof.
  revert ds; induction s as [|c s IH]; intros ds H.
  - now inversion H.
  - cbn [span_digits] in H. destruct (is_digit c).
    + destruct (span_digits s) as [ds' r'] eqn:E. inversion H; subst.
      now rewrite (IH ds' eq_refl).
    + inversion H.
Qed.

Lemma lex_int_app (s i r rest : jsstring) :
  lex_int s = Some (i, r) ->
  r <> [] \/ delimited rest ->
  lex_int (s ++ rest) = Some (i, r ++ rest).
Proof.
  destruct s as [|c s]; [discriminate|]. cbn [lex_int app].
  destruct (c =? 48); [now intros H; inversion H; subst|].
  destruct (is_digit c) eqn:Hc; [|discriminate].
  intros H Hr. inversion H as [H']. f_equal.
  change (c :: s ++ rest) with ((c :: s) ++ rest).
  apply span_digits_app; [exact H'|].
  destruct Hr; [now left|right; now apply delimited_stops_digits].
Qed.

Lemma lex_frac_app (s f r rest : jsstring) :
  lex_frac s = Some (f, r) ->
  r <> [] \/ delimited rest ->
  lex_frac (s ++ rest) = Some (f, r ++ rest).
Proof.
  destruct s as [|c s]; cbn [lex_frac app].
  - intros H Hr. inversion H; subst. destruct Hr as [Hr|Hr]; [contradiction|].
    destruct rest as [|c rest]; [reflexivity|]. cbn [lex_frac app].
    destruct Hr as (_ & Hdot & _).
    destruct (Z.eqb_spec c 46); [contradiction|reflexivity].
  - destruct (c =? 46).
    + destruct (span_digits s) as [ds r'] eqn:E. intros H Hr.
      destruct ds as [|d ds]; [discriminate|]. inversion H; subst.
      rewrite (span_digits_app s (d :: ds) r rest E); [reflexivity|].
      destruct Hr; [now left|right; now apply delimited_stops_digits].
    + intros H _. now inversion H; subst.
Qed.

Lemma lex_exp_app (s e r rest : jsstring) :
  lex_exp s = Some (e, r) ->
  r <> [] \/ delimited rest ->
  lex_exp (s ++ rest) = Some (e, r ++ rest).
Proof.
  destruct s as [|c s]; cbn [lex_exp app].
  - intros H Hr. inversion H; subst. destruct Hr as [Hr|Hr]; [contradiction|].
    destruct rest as [|c rest]; [reflexivity|]. cbn [lex_exp app].
    destruct Hr as (_ & _ & He & HE).
    destruct (Z.eqb_spec c 101); [contradiction|].
    destruct (Z.eqb_spec c 69); [contradiction|reflexivity].
  - destruct ((c =? 101) || (c =? 69)); [|now intros H _; inversion H; subst].
    intros H Hr.
    assert (Hstop : r <> [] \/ stops_digits rest)
      by (destruct Hr; [now left|right; now apply delimited_stops_digits]).
    destruct s as [|d s1].
    + simpl in H. discriminate.
    + cbn [app]. destruct ((d =? 43) || (d =? 45)).
      * destruct (span_digits s1) as [ds r'] eqn:E.
        destruct ds as [|x ds]; [discriminate|]. inversion H; subst.
        now rewrite (span_digits_app s1 (x :: ds) r rest E Hstop).
      * destruct (span_digits (d :: s1)) as [ds r'] eqn:E.
        destruct ds as [|x ds]; [discriminate|]. inversion H; subst.
        change (d :: s1 ++ rest) with ((d :: s1) ++ rest).
        now rewrite (span_digits_app (d :: s1) (x :: ds) r rest E Hstop).
Qed.

Lemma lex_frac_nil (s f r : jsstring) :
  lex_frac s = Some (f, r) -> s = [] -> r = [].
Proof. intros H ->. now inversion H. Qed.

Lemma lex_exp_nil (s e r : jsstring) :
  lex_exp s = Some (e, r) -> s = [] -> r = [].
Proof. intros H ->. now inversion H. Qed.

Lemma lex_unsigned_app (sg s1 tok rest : jsstring) :
  lex_unsigned sg s1 = Some (tok, []) ->
  delimited rest ->
  lex_unsigned sg (s1 ++ rest) = Some (tok, rest).
Proof.
  unfold lex_unsigned. intros H Hrest.
  destruct (lex_int s1) as [[i s2]|] eqn:Ei; [|discriminate].
  destruct (lex_frac s2) as [[f s3]|] eqn:Ef; [|discriminate].
  destruct (lex_exp s3) as [[e s4]|] eqn:Ee; [|discriminate].
  inversion H as [[Htok Hs4]]. subst s4.
  rewrite (lex_int_app s1 i s2 rest Ei (or_intror Hrest)).
  rewrite (lex_frac_app s2 f s3 rest Ef (or_intror Hrest)).
  rewrite (lex_exp_app s3 e [] rest Ee (or_intror Hrest)).
  reflexivity.
Qed.

(** A number token is read the same before anything that continues no
    number. *)
Lemma lex_number_app (tok rest : jsstring) :
  lex_number tok = Some (tok, []) ->
  delimited rest ->
  lex_number (tok ++ rest) = Some (tok, rest).
Proof.
  intros H Hrest. destruct tok as [|c r]; [discriminate H|].
  unfold lex_number in *. cbn [app]. destruct (c =? 45).
  - now apply lex_unsigned_app.
  - now apply (lex_unsigned_app [] (c :: r)).
Qed.

(** A number token starts with a minus sign or a digit. *)
Lemma lex_number_head (tok rest : jsstring) :
  lex_number tok = Some (tok, rest) ->
  exists c r, tok = c :: r /\ (c = 45 \/ is_digit c = true).
Proof.
  unfold lex_number. destruct tok as [|c r]; [discriminate|].
  intros H. exists c, r. split; [reflexivity|].
  destruct (Z.eqb_spec c 45); [now left|right].
  unfold lex_unsigned, lex_int in H. destruct (Z.eqb_spec c 48); [now subst|].
  destruct (is_digit c); [reflexivity|discriminate].
Qed.

End LexFacts.

(** ** JSON.parse after JSON.stringify *)

Module JsonFacts.

Import Json LexFacts.

Ltac flatten := repeat (progress (rewrite <- ?app_assoc; cbn [app])).

Lemma skip_ws_app (w s : jsstring) :
  forallb is_ws w = true -> skip_ws (w ++ s) = skip_ws s.
Proof.
  unfold skip_ws. induction w as [|c w IH]; [reflexivity|].
  cbn [forallb app drop_while]. intros H.
  apply andb_true_iff in H as [Hc Hw]. rewrite Hc. now apply IH.
Qed.

Lemma skip_ws_head (c : Z) (r : jsstring) :
  is_ws c = false -> skip_ws (c :: r) = c :: r.
Proof. intros H. unfold skip_ws. cbn [drop_while]. now rewrite H. Qed.

Lemma is_ws_cases (c : Z) :
  is_ws c = false <-> c <> 32 /\ c <> 9 /\ c <> 10 /\ c <> 13.
Proof. unfold is_ws. lia. Qed.

Lemma delimited_ws (w rest : jsstring) (c : Z) :
  forallb is_ws w = true ->
  is_digit c = false -> c <> 46 -> c <> 101 -> c <> 69 ->
  delimited (w ++ c :: rest).
Proof.
  destruct w as [|x w]; cbn [app delimited forallb]; [tauto|].
  intros H _ _ _ _. apply andb_true_iff in H as [H _].
  unfold is_ws in H. unfold is_digit. lia.
Qed.

Section WithNumbers.
Context {M : NumberModel}.

(** Induction on a value and, with it, on the values inside. *)
Lemma value_induction (P : value -> Prop) :
  P VNull ->
  (forall b, P (VBool b)) ->
  (forall n, P (VNum n)) ->
  (forall s, P (VStr s)) ->
  (forall items, Forall P items -> P (VArr items)) ->
  (forall props, Forall (fun kv => P (snd kv)) props -> P (VObj props)) ->
  forall v, P v.
Proof.
  intros Hnull Hbool Hnum Hstr Harr Hobj.
  fix IH 1. intros [| b | n | s | items | props].
  - exact Hnull.
  - apply Hbool.
  - apply Hnum.
  - apply Hstr.
  - apply Harr. induction items as [|x items IHitems]; constructor.
    + apply IH.
    + exact IHitems.
  - apply Hobj. induction props as [|[k x] props IHprops]; constructor.
    + apply IH.
    + exact IHprops.
Qed.

Lemma well_built_array (items : list value) :
  well_built (VArr items) <-> Forall well_built items.
Proof.
  cbn [well_built]. induction items as [|x items IH].
  - split; constructor.
  - rewrite Forall_cons_iff, <- IH. reflexivity.
Qed.

Lemma well_built_object (props : Obj.t value) :
  well_built (VObj props)
  <-> Obj.canonical props
      /\ Forall (fun kv => units_ok (fst kv) /\ well_built (snd kv)) props.
Proof.
  cbn [well_built]. apply and_iff_compat_l.
  induction props as [|kv props IH].
  - split; constructor.
  - rewrite Forall_cons_iff, <- IH. tauto.
Qed.

(** The text of a parsed value skips leading whitespace. *)
Lemma parse_value_skip (fuel : nat) (w s : jsstring) :
  forallb is_ws w = true -> parse_value fuel (w ++ s) = parse_value fuel s.
Proof.
  intros H. destruct fuel as [|f]; [reflexivity|].
  cbn [parse_value]. now rewrite skip_ws_app.
Qed.

Lemma parse_members_skip (fuel : nat) (w s : jsstring) :
  forallb is_ws w = true -> parse_members fuel (w ++ s) = parse_members fuel s.
Proof.
  intros H. destruct fuel as [|f]; [reflexivity|].
  cbn [parse_members]. now rewrite skip_ws_app.
Qed.

Lemma wrap_shape (opening closing : Z) (gap stepback : jsstring)
      (p : jsstring) (ps : list jsstring) :
  wrap opening closing gap stepback (p :: ps)
  = opening :: inner_space gap stepback
    ++ join (44 :: inner_space gap stepback) (p :: ps)
    ++ outer_space gap stepback ++ [closing].
Proof.
  unfold wrap, inner_space, outer_space. destruct gap as [|g gap].
  - reflexivity.
  - cbn [app]. unfold LF. now rewrite <- !app_assoc.
Qed.

Lemma inner_space_ws gap stepback :
  forallb is_ws gap = true -> forallb is_ws stepback = true ->
  forallb is_ws (inner_space gap stepback) = true.
Proof.
  intros Hg Hs. unfold inner_space. destruct gap; [reflexivity|].
  cbn [forallb]. now rewrite forallb_app, Hg, Hs.
Qed.

Lemma outer_space_ws gap stepback :
  forallb is_ws stepback = true ->
  forallb is_ws (outer_space gap stepback) = true.
Proof.
  intros Hs. unfold outer_space. destruct gap; [reflexivity|].
  cbn [forallb]. now rewrite Hs.
Qed.

Lemma indent_ws gap indent :
  forallb is_ws gap = true -> forallb is_ws indent = true ->
  forallb is_ws (indent ++ gap) = true.
Proof. intros Hg Hi. now rewrite forallb_app, Hg, Hi. Qed.

Context {L : NumberLaws M}.

Lemma number_head (n : number) :
  number_is_finite n = true ->
  exists c r, number_to_string n = c :: r /\ (c = 45 \/ is_digit c = true).
Proof.
  intros H. destruct (to_string_token n H) as (Htok & _).
  now apply lex_number_head in Htok.
Qed.

Lemma serialize_head (gap indent : jsstring) (v : value) :
  not_closing (serialize gap indent v).
Proof.
  unfold not_closing. destruct v as [| [|] | n | s | items | props];
    cbn [serialize].
  - do 2 eexists. split; [reflexivity|]. split; [reflexivity|discriminate].
  - do 2 eexists. split; [reflexivity|]. split; [reflexivity|discriminate].
  - do 2 eexists. split; [reflexivity|]. split; [reflexivity|discriminate].
  - destruct (number_is_finite n) eqn:Hf.
    + destruct (number_head n Hf) as (c & r & -> & Hc).
      exists c, r. split; [reflexivity|].
      unfold is_ws, is_digit in *. lia.
    + do 2 eexists. split; [reflexivity|]. split; [reflexivity|discriminate].
  - do 2 eexists. split; [reflexivity|]. split; [reflexivity|discriminate].
  - destruct (map (serialize gap (indent ++ gap)) items) as [|p ps].
    + do 2 eexists. split; [reflexivity|]. split; [reflexivity|discriminate].
    + rewrite wrap_shape. do 2 eexists. split; [reflexivity|].
      split; [reflexivity|discriminate].
  - destruct (map _ props) as [|p ps].
    + do 2 eexists. split; [reflexivity|]. split; [reflexivity|discriminate].
    + rewrite wrap_shape. do 2 eexists. split; [reflexivity|].
      split; [reflexivity|discriminate].
Qed.

(** The elements of an array, as SerializeJSONArray writes them between the
    brackets. *)
Lemma read_elements (gap indent w1 w2 : jsstring) :
  forallb is_ws gap = true -> forallb is_ws indent = true ->
  forallb is_ws w1 = true -> forallb is_ws w2 = true ->
  forall items,
    items <> [] -> Forall reads items ->
    forall rest fuel,
      (list_sum (map (fun x => S (weight x)) items) <= fuel)%nat ->
      parse_elements fuel
        (w1 ++ join (44 :: w1) (map (serialize gap indent) items)
            ++ w2 ++ 93 :: rest)
      = Some (map normalize items, rest).
Proof.
  intros Hgap Hindent Hw1 Hw2.
  induction items as [|x items IH]; [contradiction|].
  intros _ Hall rest fuel Hfuel.
  apply Forall_cons_iff in Hall as [Hx Hall].
  unfold list_sum in Hfuel. cbn [map fold_right] in Hfuel.
  destruct fuel as [|f]; [lia|].
  cbn [parse_elements]. rewrite parse_value_skip by assumption.
  destruct items as [|y items].
  - cbn [map join].
    rewrite (Hx gap indent);
      [|assumption|assumption
       |apply delimited_ws; trivial; try lia; reflexivity
       |lia].
    rewrite skip_ws_app, skip_ws_head by (assumption || reflexivity).
    reflexivity.
  - assert (Hjoin : join (44 :: w1) (map (serialize gap indent) (x :: y :: items))
                    = serialize gap indent x
                      ++ 44 :: w1
                      ++ join (44 :: w1) (map (serialize gap indent) (y :: items)))
      by reflexivity.
    rewrite Hjoin, <- !app_assoc. cbn [app]. rewrite <- ?app_assoc.
    rewrite (Hx gap indent);
      [|assumption|assumption
       |cbn; repeat split; (reflexivity || lia)
       |lia].
    rewrite skip_ws_head by reflexivity.
    cbn [Z.eqb Pos.eqb].
    rewrite (IH ltac:(discriminate) Hall rest f)
      by (unfold list_sum in *; cbn [map fold_right] in *; lia).
    reflexivity.
Qed.

Lemma colon_space_ws (gap : jsstring) :
  forallb is_ws (match gap with [] => [] | _ => [32] end) = true.
Proof. now destruct gap. Qed.

Lemma read_members (gap indent w1 w2 : jsstring) :
  forallb is_ws gap = true -> forallb is_ws indent = true ->
  forallb is_ws w1 = true -> forallb is_ws w2 = true ->
  forall props,
    props <> [] ->
    Forall (fun kv => units_ok (fst kv) /\ reads (snd kv)) props ->
    forall rest fuel,
      (list_sum (map (fun kv => S (weight (snd kv))) props) <= fuel)%nat ->
      parse_members fuel
        (w1 ++ join (44 :: w1) (map (member gap indent) props)
            ++ w2 ++ 125 :: rest)
      = Some (map (fun kv => (fst kv, normalize (snd kv))) props, rest).
Proof.
  intros Hgap Hindent Hw1 Hw2.
  induction props as [|[k x] props IH]; [contradiction|].
  intros _ Hall rest fuel Hfuel.
  apply Forall_cons_iff in Hall as [[Hk Hx] Hall].
  cbn [fst snd] in Hk, Hx.
  unfold list_sum in Hfuel. cbn [map fold_right snd] in Hfuel.
  destruct fuel as [|f]; [lia|].
  rewrite parse_members_skip by assumption.
  assert (Hmember : forall tail,
             member gap indent (k, x) ++ tail
             = 34 :: quote_body k
               ++ 34 :: 58 :: match gap with [] => [] | _ => [32] end
               ++ serialize gap indent x ++ tail).
  { intros tail. unfold member, quote. cbn [fst snd].
    repeat (progress (rewrite <- ?app_assoc; cbn [app])). reflexivity. }
  destruct props as [|kv props].
  - cbn [map join]. rewrite Hmember.
    cbn [parse_members]. rewrite skip_ws_head by reflexivity.
    cbn [Z.eqb Pos.eqb]. rewrite lex_quote by assumption.
    rewrite skip_ws_head by reflexivity. cbn [Z.eqb Pos.eqb].
    rewrite parse_value_skip by apply colon_space_ws.
    rewrite (Hx gap indent);
      [|assumption|assumption
       |apply delimited_ws; trivial; try lia; reflexivity
       |lia].
    rewrite skip_ws_app, skip_ws_head by (assumption || reflexivity).
    reflexivity.
  - assert (Hjoin : join (44 :: w1) (map (member gap indent) ((k, x) :: kv :: props))
                    = member gap indent (k, x)
                      ++ 44 :: w1
                      ++ join (44 :: w1) (map (member gap indent) (kv :: props)))
      by reflexivity.
    rewrite Hjoin, <- !app_assoc. rewrite Hmember.
    cbn [parse_members]. rewrite skip_ws_head by reflexivity.
    cbn [Z.eqb Pos.eqb]. rewrite lex_quote by assumption.
    rewrite skip_ws_head by reflexivity. cbn [Z.eqb Pos.eqb].
    rewrite parse_value_skip by apply colon_space_ws.
    cbn [app]. rewrite <- ?app_assoc.
    rewrite (Hx gap indent);
      [|assumption|assumption
       |cbn; repeat split; (reflexivity || lia)
       |lia].
    rewrite skip_ws_head by reflexivity.
    cbn [Z.eqb Pos.eqb].
    rewrite (IH ltac:(discriminate) Hall rest f)
      by (unfold list_sum in *; cbn [map fold_right] in *; lia).
    reflexivity.
Qed.

Lemma starts_with_other (x c : Z) (p r : jsstring) :
  x <> c -> starts_with (x :: p) (c :: r) = false.
Proof.
  intros H. cbn [starts_with]. destruct (Z.eqb_spec x c); [contradiction|].
  reflexivity.
Qed.

(** A number token is read as the number it denotes. *)
Lemma parse_number_token (f : nat) (tok rest : jsstring) :
  lex_number tok = Some (tok, []) -> delimited rest ->
  parse_value (S f) (tok ++ rest) = Some (VNum (number_of_token tok), rest).
Proof.
  intros Htok Hrest.
  pose proof (lex_number_app tok rest Htok Hrest) as Hlex.
  destruct (lex_number_head tok [] Htok) as (c & r & -> & Hc).
  assert (Hcases : c <> 32 /\ c <> 9 /\ c <> 10 /\ c <> 13 /\ c <> 123
                   /\ c <> 91 /\ c <> 34 /\ c <> 116 /\ c <> 102 /\ c <> 110)
    by (unfold is_digit in Hc; lia).
  cbn [app] in *. cbn [parse_value].
  rewrite skip_ws_head by (apply is_ws_cases; tauto).
  destruct (Z.eqb_spec c 123); [tauto|].
  destruct (Z.eqb_spec c 91); [tauto|].
  destruct (Z.eqb_spec c 34); [tauto|].
  unfold js. cbn [list_ascii_of_string map N_of_ascii N_of_digits Z.of_N
                  N.add N.mul Pos.add Pos.mul Pos.succ].
  rewrite !starts_with_other by (intros E; symmetry in E; tauto).
  now rewrite Hlex.
Qed.

(** JSON.parse reads what JSON.stringify writes for a value built by
    JSON.parse, whatever the indentation. *)
Lemma reads_all (v : value) : well_built v -> reads v.
Proof.
  induction v as [| b | n | s | items IH | props IH] using value_induction;
    intros Hwb gap indent rest fuel Hgap Hindent Hrest Hfuel;
    (destruct fuel as [|f]; [simpl in Hfuel; lia|]).
  - reflexivity.
  - destruct b; reflexivity.
  - cbn [serialize normalize]. destruct (number_is_finite n) eqn:Hfin.
    + destruct (to_string_token n Hfin) as (Htok & _).
      now apply parse_number_token.
    + reflexivity.
  - cbn [serialize normalize well_built] in *. unfold quote.
    flatten. cbn [parse_value]. rewrite skip_ws_head by reflexivity.
    cbn [Z.eqb Pos.eqb].
    now rewrite lex_quote.
  - apply well_built_array in Hwb.
    assert (Hreads : Forall reads items).
    { rewrite Forall_forall in *. intros x Hx. apply IH; [exact Hx|now apply Hwb]. }
    cbn [serialize normalize weight] in *.
    destruct items as [|x items]; [reflexivity|].
    cbn [map]. rewrite wrap_shape. flatten.
    cbn [parse_value]. rewrite skip_ws_head by reflexivity.
    cbn [Z.eqb Pos.eqb].
    rewrite skip_ws_app by now apply inner_space_ws.
    destruct (serialize_head gap (indent ++ gap) x) as (c & r & Hhead & Hws & Hc).
    assert (Hjoin : exists tail,
               join (44 :: inner_space gap indent)
                    (serialize gap (indent ++ gap) x
                     :: map (serialize gap (indent ++ gap)) items)
               ++ outer_space gap indent ++ 93 :: rest = c :: tail).
    { destruct items; cbn [map join]; rewrite Hhead; cbn [app]; eauto. }
    destruct Hjoin as (tail & Hjoin). rewrite Hjoin, skip_ws_head by assumption.
    destruct (Z.eqb_spec c 93); [contradiction|].
    rewrite <- Hjoin.
    change (serialize gap (indent ++ gap) x
            :: map (serialize gap (indent ++ gap)) items)
      with (map (serialize gap (indent ++ gap)) (x :: items)).
    rewrite (read_elements gap (indent ++ gap));
      try assumption; try discriminate; try reflexivity.
    + now apply indent_ws.
    + now apply inner_space_ws.
    + now apply outer_space_ws.
    + lia.
  - apply well_built_object in Hwb as [Hcanon Hwb].
    assert (Hreads : Forall (fun kv => units_ok (fst kv) /\ reads (snd kv)) props).
    { rewrite Forall_forall in *. intros kv Hkv.
      destruct (Hwb kv Hkv) as [Hk Hv]. split; [exact Hk|].
      now apply IH. }
    cbn [serialize normalize weight] in *.
    destruct props as [|kv props]; [reflexivity|].
    change (map (fun kv0 => quote (fst kv0) ++ [58]
                            ++ match gap with [] => [] | _ => [32] end
                            ++ serialize gap (indent ++ gap) (snd kv0))
                (kv :: props))
      with (map (member gap (indent ++ gap)) (kv :: props)).
    cbn [map]. rewrite wrap_shape. flatten.
    cbn [parse_value]. rewrite skip_ws_head by reflexivity.
    cbn [Z.eqb Pos.eqb].
    rewrite skip_ws_app by now apply inner_space_ws.
    assert (Hjoin : exists tail,
               join (44 :: inner_space gap indent)
                    (member gap (indent ++ gap) kv
                     :: map (member gap (indent ++ gap)) props)
               ++ outer_space gap indent ++ 125 :: rest = 34 :: tail).
    { destruct props; cbn [map join]; unfold member at 1, quote;
        cbn [app]; eauto. }
    destruct Hjoin as (tail & Hjoin). rewrite Hjoin, skip_ws_head by reflexivity.
    cbn [Z.eqb Pos.eqb].
    rewrite <- Hjoin.
    change (member gap (indent ++ gap) kv
            :: map (member gap (indent ++ gap)) props)
      with (map (member gap (indent ++ gap)) (kv :: props)).
    rewrite (read_members gap (indent ++ gap));
      try assumption; try discriminate; try reflexivity.
    + now apply indent_ws.
    + now apply inner_space_ws.
    + now apply outer_space_ws.
    + lia.
Qed.

(** *** What JSON.parse builds *)

Lemma forall_replace {V} (Q : jsstring * V -> Prop) (o : Obj.t V) k v :
  Forall Q o -> Q (k, v) -> Forall Q (Obj.replace o k v).
Proof.
  intros Ho Hq. induction Ho as [|[k1 v1] o H1 Ho IH]; [constructor|].
  cbn [Obj.replace]. destruct (str_eqb k1 k) eqn:E.
  - apply str_eqb_eq in E. subst k1. now constructor.
  - now constructor.
Qed.

Lemma forall_insert_index {V} (Q : jsstring * V -> Prop) (o : Obj.t V) i k v :
  Forall Q o -> Q (k, v) -> Forall Q (Obj.insert_index o i k v).
Proof.
  intros Ho Hq. induction Ho as [|[k1 v1] o H1 Ho IH]; [now constructor|].
  cbn [Obj.insert_index].
  destruct (Obj.array_index k1) as [j|]; [destruct (j <? i)|];
    repeat constructor; assumption.
Qed.

Lemma forall_define {V} (Q : jsstring * V -> Prop) (o : Obj.t V) k v :
  Forall Q o -> Q (k, v) -> Forall Q (Obj.define o k v).
Proof.
  intros Ho Hq. unfold Obj.define. destruct (Obj.has o k).
  - now apply forall_replace.
  - destruct (Obj.array_index k).
    + now apply forall_insert_index.
    + apply Forall_app. split; [assumption|now constructor].
Qed.

Lemma object_of_members_forall (Q : jsstring * value -> Prop) ms :
  Forall Q ms -> Forall Q (object_of_members ms).
Proof.
  unfold object_of_members. intros H.
  enough (G : forall acc, Forall Q acc ->
                Forall Q (fold_left (fun o kv => Obj.define o (fst kv) (snd kv))
                                    ms acc))
    by (apply G; constructor).
  induction H as [|[k v] ms Hq Hms IH]; intros acc Hacc; [exact Hacc|].
  cbn [fold_left fst snd]. apply IH. now apply forall_define.
Qed.

Lemma object_of_members_canonical (ms : list (jsstring * value)) :
  Obj.canonical (object_of_members ms).
Proof.
  unfold object_of_members.
  enough (G : forall acc, Obj.canonical acc ->
                Obj.canonical
                  (fold_left (fun o kv => Obj.define o (fst kv) (snd kv)) ms acc))
    by (apply G; exact I).
  induction ms as [|[k v] ms IH]; intros acc Hacc; [exact Hacc|].
  cbn [fold_left fst snd]. apply IH. now apply CanonicalFacts.canonical_define.
Qed.

(** An object in property order is built again as itself. *)
Lemma object_of_members_canonical_id (props : Obj.t value) :
  Obj.canonical props -> object_of_members props = props.
Proof. intros H. apply (CanonicalFacts.refold props []). exact H. Qed.

Lemma parse_well_built (fuel : nat) :
  (forall s v r, parse_value fuel s = Some (v, r) -> well_built v)
  /\ (forall s vs r, parse_elements fuel s = Some (vs, r) -> Forall well_built vs)
  /\ (forall s ms r,
         parse_members fuel s = Some (ms, r) ->
         Forall (fun kv => units_ok (fst kv) /\ well_built (snd kv)) ms).
Proof.
  induction fuel as [|f (IHv & IHe & IHm)]; [repeat split; discriminate|].
  split; [|split].
  - intros s v r. cbn [parse_value].
    destruct (skip_ws s) as [|c r0]; [discriminate|].
    destruct (c =? 123).
    { destruct (skip_ws r0) as [|c' r']; [discriminate|].
      destruct (c' =? 125).
      - intros [= <- _]. apply well_built_object. split; [exact I|constructor].
      - destruct (parse_members f r0) as [[ms rest]|] eqn:E; [|discriminate].
        intros [= <- _]. apply well_built_object. split.
        + apply object_of_members_canonical.
        + apply object_of_members_forall. now apply (IHm r0 ms rest). }
    destruct (c =? 91).
    { destruct (skip_ws r0) as [|c' r']; [discriminate|].
      destruct (c' =? 93).
      - intros [= <- _]. exact I.
      - destruct (parse_elements f r0) as [[vs rest]|] eqn:E; [|discriminate].
        intros [= <- _]. apply well_built_array. now apply (IHe r0 vs rest). }
    destruct (c =? 34).
    { destruct (lex_string r0) as [[str rest]|] eqn:E; [|discriminate].
      intros [= <- _]. cbn [well_built]. now apply lex_string_units in E. }
    destruct (starts_with (js "true") (c :: r0)); [intros [= <- _]; exact I|].
    destruct (starts_with (js "false") (c :: r0)); [intros [= <- _]; exact I|].
    destruct (starts_with (js "null") (c :: r0)); [intros [= <- _]; exact I|].
    destruct (lex_number (c :: r0)) as [[tok rest]|]; [|discriminate].
    intros [= <- _]. exact I.
  - intros s vs r. cbn [parse_elements].
    destruct (parse_value f s) as [[v r0]|] eqn:Ev; [|discriminate].
    apply IHv in Ev.
    destruct (skip_ws r0) as [|c r']; [discriminate|].
    destruct (c =? 44).
    + destruct (parse_elements f r') as [[vs' rest]|] eqn:Ee; [|discriminate].
      intros [= <- _]. constructor; [exact Ev|now apply (IHe r' vs' rest)].
    + destruct (c =? 93); [|discriminate].
      intros [= <- _]. now constructor.
  - intros s ms r. cbn [parse_members].
    destruct (skip_ws s) as [|q r0]; [discriminate|].
    destruct (q =? 34); [|discriminate].
    destruct (lex_string r0) as [[k r1]|] eqn:Ek; [|discriminate].
    apply lex_string_units in Ek.
    destruct (skip_ws r1) as [|colon r2]; [discriminate|].
    destruct (colon =? 58); [|discriminate].
    destruct (parse_value f r2) as [[v r3]|] eqn:Ev; [|discriminate].
    apply IHv in Ev.
    destruct (skip_ws r3) as [|c r4]; [discriminate|].
    destruct (c =? 44).
    + destruct (parse_members f r4) as [[ms' rest]|] eqn:Em; [|discriminate].
      intros [= <- _]. constructor; [now split|now apply (IHm r4 ms' rest)].
    + destruct (c =? 125); [|discriminate].
      intros [= <- _]. constructor; [now split|constructor].
Qed.

(** JSON.parse builds strings of code units and objects in property
    order. *)
Lemma parse_builds (text : jsstring) (v : value) :
  parse text = Some v -> well_built v.
Proof.
  unfold parse.
  destruct (parse_value (S (List.length text)) text) as [[v' rest]|] eqn:E;
    [|discriminate].
  destruct (skip_ws rest); [|discriminate].
  intros [= <-]. now apply (proj1 (parse_well_built _)) in E.
Qed.

(** *** Serialising the normal form *)

Lemma keys_normalized (props : Obj.t value) :
  Obj.keys (map (fun kv => (fst kv, normalize (snd kv))) props) = Obj.keys props.
Proof. unfold Obj.keys. rewrite map_map. reflexivity. Qed.

(** The value read back has the same text. *)
Lemma serialize_normalize (v : value) :
  well_built v ->
  forall gap indent, serialize gap indent (normalize v) = serialize gap indent v.
Proof.
  induction v as [| b | n | s | items IH | props IH] using value_induction;
    intros Hwb gap indent; try reflexivity.
  - cbn [normalize]. destruct (number_is_finite n) eqn:Hfin.
    + destruct (to_string_token n Hfin) as (_ & Hfin' & Htext).
      cbn [serialize]. now rewrite Hfin', Hfin, Htext.
    + cbn [serialize]. now rewrite Hfin.
  - apply well_built_array in Hwb. cbn [normalize serialize].
    rewrite map_map. f_equal. apply map_ext_Forall.
    rewrite Forall_forall in *. intros x Hx. apply IH; [exact Hx|now apply Hwb].
  - apply well_built_object in Hwb as [Hcanon Hwb]. cbn [normalize].
    rewrite object_of_members_canonical_id
      by (unfold Obj.canonical; now rewrite keys_normalized).
    cbn [serialize]. rewrite map_map. f_equal. apply map_ext_Forall.
    rewrite Forall_forall in *. intros kv Hkv. cbn [fst snd].
    rewrite IH; [reflexivity|exact Hkv|now apply Hwb].
Qed.

(** *** The fuel *)

Lemma length_join (sep : jsstring) (parts : list jsstring) :
  sep <> [] ->
  (list_sum (map (fun p => S (List.length p)) parts)
   <= S (List.length (join sep parts)))%nat.
Proof.
  intros Hsep. induction parts as [|p [|q parts] IH].
  - simpl. lia.
  - simpl. lia.
  - change (join sep (p :: q :: parts)) with (p ++ sep ++ join sep (q :: parts)).
    rewrite !length_app. unfold list_sum in *. cbn [map fold_right] in *.
    destruct sep; [contradiction|]. cbn [List.length]. unfold jsstring in *. lia.
Qed.

Lemma length_wrap (opening closing : Z) (gap stepback : jsstring)
      (parts : list jsstring) :
  (S (list_sum (map (fun p => S (List.length p)) parts))
   <= List.length (wrap opening closing gap stepback parts))%nat.
Proof.
  destruct parts as [|p ps]; [simpl; lia|].
  rewrite wrap_shape. cbn [List.length]. rewrite !length_app.
  pose proof (length_join (44 :: inner_space gap stepback) (p :: ps)
                ltac:(discriminate)).
  cbn [List.length]. lia.
Qed.

Lemma list_sum_le {A} (f g : A -> nat) (l : list A) :
  Forall (fun x => (f x <= g x)%nat) l ->
  (list_sum (map f l) <= list_sum (map g l))%nat.
Proof.
  induction 1 as [|x l Hx Hl IH]; [reflexivity|].
  unfold list_sum in *. cbn [map fold_right]. lia.
Qed.

(** The text of a value is at least as long as the fuel that reading it
    needs. *)
Lemma weight_length (v : value) :
  forall gap indent, (weight v <= List.length (serialize gap indent v))%nat.
Proof.
  induction v as [| b | n | s | items IH | props IH] using value_induction;
    intros gap indent.
  - simpl. lia.
  - destruct b; simpl; lia.
  - cbn [serialize weight]. destruct (number_is_finite n) eqn:Hfin.
    + destruct (number_head n Hfin) as (c & r & -> & _). simpl. lia.
    + simpl. lia.
  - cbn [serialize weight]. unfold quote. simpl. lia.
  - cbn [serialize weight].
    etransitivity; [|apply length_wrap]. apply le_n_S.
    rewrite map_map. apply list_sum_le.
    rewrite Forall_forall in *. intros x Hx. apply le_n_S. now apply IH.
  - cbn [serialize weight].
    etransitivity; [|apply length_wrap]. apply le_n_S.
    rewrite map_map. apply list_sum_le.
    rewrite Forall_forall in *. intros kv Hkv. apply le_n_S.
    rewrite !length_app. specialize (IH kv Hkv gap (indent ++ gap)). lia.
Qed.

(** JSON.parse reads the text that JSON.stringify writes, with or without
    indentation, as the normal form of the value. *)
Lemma parse_serialize (v : value) (gap : jsstring) :
  well_built v -> forallb is_ws gap = true ->
  parse (serialize gap [] v) = Some (normalize v).
Proof.
  intros Hwb Hgap. unfold parse.
  pose proof (reads_all v Hwb gap [] [] (S (List.length (serialize gap [] v)))
                Hgap eq_refl I) as H.
  rewrite app_nil_r in H. rewrite H; [reflexivity|].
  pose proof (weight_length v gap []). lia.
Qed.

End WithNumbers.

End JsonFacts.

(** ** The fuel of the parser *)

Module FuelFacts.

Import Json.

Section WithNumbers.
Context {M : NumberModel}.

(** More fuel reads the same. *)
Lemma fuel_step (fuel : nat) :
  (forall s r, parse_value fuel s = Some r -> parse_value (S fuel) s = Some r)
  /\ (forall s r, parse_elements fuel s = Some r ->
                  parse_elements (S fuel) s = Some r)
  /\ (forall s r, parse_members fuel s = Some r ->
                  parse_members (S fuel) s = Some r).
Proof.
  induction fuel as [|f (IHv & IHe & IHm)]; [repeat split; discriminate|].
  split; [|split]; intros s r H.
  - cbn [parse_value] in H. remember (S f) as f' eqn:Ef in |- *.
    cbn [parse_value]. subst f'. 
    destruct (skip_ws s) as [|c r0]; [discriminate|].
    destruct (c =? 123).
    { destruct (skip_ws r0) as [|c' r']; [discriminate|].
      destruct (c' =? 125); [exact H|].
      destruct (parse_members f r0) as [[ms rest]|] eqn:E; [|discriminate].
      now rewrite (IHm _ _ E). }
    destruct (c =? 91).
    { destruct (skip_ws r0) as [|c' r']; [discriminate|].
      destruct (c' =? 93); [exact H|].
      destruct (parse_elements f r0) as [[vs rest]|] eqn:E; [|discriminate].
      now rewrite (IHe _ _ E). }
    exact H.
  - cbn [parse_elements] in H. remember (S f) as f' eqn:Ef in |- *.
    cbn [parse_elements]. subst f'.
    destruct (parse_value f s) as [[v r0]|] eqn:Ev; [|discriminate].
    rewrite (IHv _ _ Ev).
    destruct (skip_ws r0) as [|c r']; [discriminate|].
    destruct (c =? 44); [|exact H].
    destruct (parse_elements f r') as [[vs rest]|] eqn:E; [|discriminate].
    now rewrite (IHe _ _ E).
  - cbn [parse_members] in H. remember (S f) as f' eqn:Ef in |- *.
    cbn [parse_members]. subst f'.
    destruct (skip_ws s) as [|q r0]; [discriminate|].
    destruct (q =? 34); [|discriminate].
    destruct (lex_string r0) as [[k r1]|]; [|discriminate].
    destruct (skip_ws r1) as [|colon r2]; [discriminate|].
    destruct (colon =? 58); [|discriminate].
    destruct (parse_value f r2) as [[v r3]|] eqn:Ev; [|discriminate].
    rewrite (IHv _ _ Ev).
    destruct (skip_ws r3) as [|c r4]; [discriminate|].
    destruct (c =? 44); [|exact H].
    destruct (parse_members f r4) as [[ms rest]|] eqn:E; [|discriminate].
    now rewrite (IHm _ _ E).
Qed.

Lemma fuel_more (fuel fuel' : nat) :
  (fuel <= fuel')%nat ->
  (forall s r, parse_value fuel s = Some r -> parse_value fuel' s = Some r)
  /\ (forall s r, parse_elements fuel s = Some r ->
                  parse_elements fuel' s = Some r)
  /\ (forall s r, parse_members fuel s = Some r ->
                  parse_members fuel' s = Some r).
Proof.
  induction 1 as [|f' Hle (IHv & IHe & IHm)]; [repeat split; auto|].
  destruct (fuel_step f') as (Sv & Se & Sm).
  repeat split; intros s r H.
  - apply Sv, IHv, H.
  - apply Se, IHe, H.
  - apply Sm, IHm, H.
Qed.

(** *** What the lexers consume *)

Lemma skip_ws_length (s : jsstring) :
  (List.length (skip_ws s) <= List.length s)%nat.
Proof.
  unfold skip_ws. induction s as [|c s IH]; [reflexivity|].
  cbn [drop_while]. destruct (is_ws c); cbn [List.length] in *; lia.
Qed.

Lemma skip_ws_head_length (s r : jsstring) (c : Z) :
  skip_ws s = c :: r -> (List.length r < List.length s)%nat.
Proof.
  intros H. pose proof (skip_ws_length s) as L. rewrite H in L.
  cbn [List.length] in L. lia.
Qed.

Lemma lex_string_length (n : nat) :
  forall s str rest,
    (List.length s <= n)%nat -> lex_string s = Some (str, rest) ->
    (List.length rest < List.length s)%nat.
Proof.
  induction n as [|n IH]; intros [|c r] str rest Hlen H;
    try (simpl in Hlen; lia); try discriminate.
  cbn [List.length] in Hlen. cbn [lex_string] in H.
  destruct (c =? 34).
  { injection H as _ <-. cbn [List.length]. lia. }
  destruct (c =? 92).
  - destruct r as [|e r1]; [discriminate|]. cbn [List.length] in Hlen.
    destruct (e =? 117).
    + destruct r1 as [|a [|b [|c' [|d r2]]]]; try discriminate.
      destruct (hex4 a b c' d); [|discriminate].
      destruct (lex_string r2) as [[str' rest']|] eqn:E; [|discriminate].
      injection H as _ <-. cbn [List.length] in *.
      pose proof (IH r2 str' rest' ltac:(lia) E). lia.
    + destruct (simple_escape e); [|discriminate].
      destruct (lex_string r1) as [[str' rest']|] eqn:E; [|discriminate].
      injection H as _ <-. cbn [List.length] in *.
      pose proof (IH r1 str' rest' ltac:(lia) E). lia.
  - destruct (c <? 32); [discriminate|].
    destruct (lex_string r) as [[str' rest']|] eqn:E; [|discriminate].
    injection H as _ <-. cbn [List.length].
    pose proof (IH r str' rest' ltac:(lia) E). lia.
Qed.

Lemma lex_string_shorter (s str rest : jsstring) :
  lex_string s = Some (str, rest) -> (List.length rest < List.length s)%nat.
Proof. now apply (lex_string_length (List.length s)). Qed.

Lemma span_digits_length (s ds r : jsstring) :
  span_digits s = (ds, r) -> (List.length r <= List.length s)%nat.
Proof.
  revert ds r; induction s as [|c s IH]; intros ds r H.
  - injection H as _ <-. reflexivity.
  - cbn [span_digits] in H. destruct (is_digit c).
    + destruct (span_digits s) as [ds' r'] eqn:E. injection H as _ <-.
      specialize (IH ds' r' eq_refl). cbn [List.length]. lia.
    + injection H as _ <-. reflexivity.
Qed.

Lemma lex_int_length (s i r : jsstring) :
  lex_int s = Some (i, r) -> (List.length r < List.length s)%nat.
Proof.
  unfold lex_int. destruct s as [|c s]; [discriminate|].
  destruct (c =? 48).
  - intros [= _ <-]. cbn [List.length]. lia.
  - destruct (is_digit c) eqn:Hc; [|discriminate]. intros [= H].
    cbn [span_digits] in H. rewrite Hc in H.
    destruct (span_digits s) as [ds' r'] eqn:E. injection H as _ <-.
    apply span_digits_length in E. cbn [List.length]. lia.
Qed.

Lemma lex_frac_length (s f r : jsstring) :
  lex_frac s = Some (f, r) -> (List.length r <= List.length s)%nat.
Proof.
  unfold lex_frac. destruct s as [|c s]; [now intros [= _ <-]|].
  destruct (c =? 46); [|now intros [= _ <-]].
  destruct (span_digits s) as [ds r'] eqn:E. apply span_digits_length in E.
  destruct ds; [discriminate|]. intros [= _ <-]. cbn [List.length]. lia.
Qed.

Lemma lex_exp_length (s e r : jsstring) :
  lex_exp s = Some (e, r) -> (List.length r <= List.length s)%nat.
Proof.
  unfold lex_exp. destruct s as [|c s]; [now intros [= _ <-]|].
  destruct ((c =? 101) || (c =? 69)); [|now intros [= _ <-]].
  assert (Sign : forall (t sg r1 : jsstring),
             match t with
             | d :: r1 => if (d =? 43) || (d =? 45) then ([d], r1) else ([], t)
             | [] => ([], t)
             end = (sg, r1) -> (List.length r1 <= List.length t)%nat).
  { intros t sg r1. destruct t as [|d t']; [now intros [= _ <-]|].
    destruct ((d =? 43) || (d =? 45)); intros [= _ <-]; cbn [List.length]; lia. }
  destruct (match s with
            | d :: r1 => if (d =? 43) || (d =? 45) then ([d], r1) else ([], s)
            | [] => ([], s)
            end) as [sg r1] eqn:Es.
  apply Sign in Es.
  destruct (span_digits r1) as [ds r2] eqn:E. apply span_digits_length in E.
  destruct ds; [discriminate|]. intros [= _ <-]. cbn [List.length]. lia.
Qed.

Lemma lex_unsigned_length (sg s tok rest : jsstring) :
  lex_unsigned sg s = Some (tok, rest) ->
  (List.length rest < List.length s)%nat.
Proof.
  unfold lex_unsigned.
  destruct (lex_int s) as [[i s2]|] eqn:Ei; [|discriminate].
  destruct (lex_frac s2) as [[f s3]|] eqn:Ef; [|discriminate].
  destruct (lex_exp s3) as [[e s4]|] eqn:Ee; [|discriminate].
  intros [= _ <-].
  apply lex_int_length in Ei. apply lex_frac_length in Ef.
  apply lex_exp_length in Ee. lia.
Qed.

Lemma lex_number_length (s tok rest : jsstring) :
  lex_number s = Some (tok, rest) -> (List.length rest < List.length s)%nat.
Proof.
  unfold lex_number. destruct s as [|c r]; [discriminate|].
  destruct (c =? 45); intros H; apply lex_unsigned_length in H;
    cbn [List.length] in *; lia.
Qed.

Lemma starts_with_length (p s : jsstring) :
  starts_with p s = true -> (List.length p <= List.length s)%nat.
Proof.
  revert s; induction p as [|x p IH]; intros s H; [simpl; lia|].
  destruct s as [|y s]; [discriminate|]. cbn [starts_with] in H.
  apply andb_true_iff in H as [_ H]. apply IH in H. cbn [List.length]. lia.
Qed.

Lemma literal_length (p s : jsstring) :
  p <> [] -> starts_with p s = true ->
  (List.length (skipn (List.length p) s) < List.length s)%nat.
Proof.
  intros Hp H. apply starts_with_length in H. rewrite length_skipn.
  destruct p; [contradiction|]. cbn [List.length] in *. lia.
Qed.

(** *** Fuel as long as the text that is read *)

Ltac enough_fuel k :=
  match goal with
  | |- parse_value ?n _ = _ =>
      apply (proj1 (fuel_more k n ltac:(lia)))
  | |- parse_elements ?n _ = _ =>
      apply (proj1 (proj2 (fuel_more k n ltac:(lia))))
  | |- parse_members ?n _ = _ =>
      apply (proj2 (proj2 (fuel_more k n ltac:(lia))))
  end.

Lemma fuel_bound (fuel : nat) :
  (forall s v rest,
      parse_value fuel s = Some (v, rest) ->
      (List.length rest < List.length s)%nat
      /\ parse_value (List.length s - List.length rest) s = Some (v, rest))
  /\ (forall s vs rest,
         parse_elements fuel s = Some (vs, rest) ->
         (List.length rest < List.length s)%nat
         /\ parse_elements (List.length s - List.length rest) s = Some (vs, rest))
  /\ (forall s ms rest,
         parse_members fuel s = Some (ms, rest) ->
         (List.length rest < List.length s)%nat
         /\ parse_members (List.length s - List.length rest) s = Some (ms, rest)).
Proof.
  induction fuel as [|f (IHv & IHe & IHm)]; [repeat split; discriminate|].
  split; [|split].
  - intros s v rest H.
    assert (Scalar : (List.length rest < List.length (skip_ws s))%nat ->
                     parse_value 1 s = Some (v, rest) ->
                     (List.length rest < List.length s)%nat
                     /\ parse_value (List.length s - List.length rest) s
                        = Some (v, rest)).
    { intros Hlen H1. pose proof (skip_ws_length s) as Hs.
      split; [lia|].
      assert (Hle : (1 <= List.length s - List.length rest)%nat) by lia.
      apply (proj1 (fuel_more _ _ Hle) _ _ H1). }
    cbn [parse_value] in H.
    destruct (skip_ws s) as [|c r0] eqn:Es; [discriminate|].
    pose proof (skip_ws_head_length s r0 c Es) as Ls.
    destruct (c =? 123) eqn:E123.
    { destruct (skip_ws r0) as [|c' r'] eqn:Er; [discriminate|].
      pose proof (skip_ws_head_length r0 r' c' Er) as Lr.
      destruct (c' =? 125) eqn:E125.
      - injection H as <- <-. apply Scalar; [cbn [List.length]; lia|].
        cbn [parse_value]. now rewrite Es, E123, Er, E125.
      - destruct (parse_members f r0) as [[ms rest']|] eqn:E; [|discriminate].
        injection H as <- <-. destruct (IHm _ _ _ E) as [Lm Hm].
        split; [lia|].
        enough_fuel (S (List.length r0 - List.length rest')).
        cbn [parse_value]. now rewrite Es, E123, Er, E125, Hm. }
    destruct (c =? 91) eqn:E91.
    { destruct (skip_ws r0) as [|c' r'] eqn:Er; [discriminate|].
      pose proof (skip_ws_head_length r0 r' c' Er) as Lr.
      destruct (c' =? 93) eqn:E93.
      - injection H as <- <-. apply Scalar; [cbn [List.length]; lia|].
        cbn [parse_value]. now rewrite Es, E123, E91, Er, E93.
      - destruct (parse_elements f r0) as [[vs rest']|] eqn:E; [|discriminate].
        injection H as <- <-. destruct (IHe _ _ _ E) as [Le He].
        split; [lia|].
        enough_fuel (S (List.length r0 - List.length rest')).
        cbn [parse_value]. now rewrite Es, E123, E91, Er, E93, He. }
    assert (Leaf : (List.length rest < List.length (c :: r0))%nat ->
                   (List.length rest < List.length s)%nat
                   /\ parse_value (List.length s - List.length rest) s
                      = Some (v, rest)).
    { intros Hlen. apply Scalar; [exact Hlen|].
      cbn [parse_value]. now rewrite Es, E123, E91. }
    apply Leaf. clear Leaf Scalar.
    destruct (c =? 34).
    { destruct (lex_string r0) as [[str rest']|] eqn:E; [|discriminate].
      injection H as _ <-. apply lex_string_shorter in E.
      cbn [List.length]. lia. }
    destruct (starts_with (js "true") (c :: r0)) eqn:Et.
    { pose proof (literal_length (js "true") _ ltac:(discriminate) Et) as Hk.
      injection H as _ <-. exact Hk. }
    destruct (starts_with (js "false") (c :: r0)) eqn:Ef.
    { pose proof (literal_length (js "false") _ ltac:(discriminate) Ef) as Hk.
      injection H as _ <-. exact Hk. }
    destruct (starts_with (js "null") (c :: r0)) eqn:En.
    { pose proof (literal_length (js "null") _ ltac:(discriminate) En) as Hk.
      injection H as _ <-. exact Hk. }
    destruct (lex_number (c :: r0)) as [[tok rest']|] eqn:E; [|discriminate].
    injection H as _ <-. now apply lex_number_length in E.
  - intros s vs rest H. cbn [parse_elements] in H.
    destruct (parse_value f s) as [[v r]|] eqn:Ev; [|discriminate].
    destruct (IHv _ _ _ Ev) as [Lv Hv].
    destruct (skip_ws r) as [|c r'] eqn:Er; [discriminate|].
    pose proof (skip_ws_head_length r r' c Er) as Lr.
    destruct (c =? 44) eqn:E44.
    + destruct (parse_elements f r') as [[vs' rest']|] eqn:E; [|discriminate].
      injection H as <- <-. destruct (IHe _ _ _ E) as [Le He].
      split; [lia|].
      enough_fuel (S (Nat.max (List.length s - List.length r) (List.length r' - List.length rest'))).
      cbn [parse_elements].
      rewrite (proj1 (fuel_more _ _ (Nat.le_max_l _ _)) _ _ Hv), Er, E44.
      now rewrite (proj1 (proj2 (fuel_more _ _ (Nat.le_max_r _ _))) _ _ He).
    + destruct (c =? 93) eqn:E93; [|discriminate].
      injection H as <- <-. split; [lia|].
      enough_fuel (S (List.length s - List.length r)).
      cbn [parse_elements]. now rewrite Hv, Er, E44, E93.
  - intros s ms rest H. cbn [parse_members] in H.
    destruct (skip_ws s) as [|q r0] eqn:Es; [discriminate|].
    pose proof (skip_ws_head_length s r0 q Es) as Ls.
    destruct (q =? 34) eqn:Eq; [|discriminate].
    destruct (lex_string r0) as [[k r1]|] eqn:Ek; [|discriminate].
    pose proof (lex_string_shorter _ _ _ Ek) as Lk.
    destruct (skip_ws r1) as [|colon r2] eqn:Er1; [discriminate|].
    pose proof (skip_ws_head_length r1 r2 colon Er1) as Lc.
    destruct (colon =? 58) eqn:Ecolon; [|discriminate].
    destruct (parse_value f r2) as [[v r3]|] eqn:Ev; [|discriminate].
    destruct (IHv _ _ _ Ev) as [Lv Hv].
    destruct (skip_ws r3) as [|c r4] eqn:Er3; [discriminate|].
    pose proof (skip_ws_head_length r3 r4 c Er3) as Lr.
    destruct (c =? 44) eqn:E44.
    + destruct (parse_members f r4) as [[ms' rest']|] eqn:E; [|discriminate].
      injection H as <- <-. destruct (IHm _ _ _ E) as [Lm Hm].
      split; [lia|].
      enough_fuel (S (Nat.max (List.length r2 - List.length r3) (List.length r4 - List.length rest'))).
      cbn [parse_members]. rewrite Es, Eq, Ek, Er1, Ecolon.
      rewrite (proj1 (fuel_more _ _ (Nat.le_max_l _ _)) _ _ Hv), Er3, E44.
      now rewrite (proj2 (proj2 (fuel_more _ _ (Nat.le_max_r _ _))) _ _ Hm).
    + destruct (c =? 125) eqn:E125; [|discriminate].
      injection H as <- <-. split; [lia|].
      enough_fuel (S (List.length r2 - List.length r3)).
      cbn [parse_members].
      now rewrite Es, Eq, Ek, Er1, Ecolon, Hv, Er3, E44, E125.
Qed.

(** The fuel of [parse] is enough: a text that some fuel reads to its end
    is read by [parse]. *)
Lemma parse_fuel_enough (text : jsstring) (fuel : nat) (v : value)
      (rest : jsstring) :
  parse_value fuel text = Some (v, rest) -> skip_ws rest = [] ->
  parse text = Some v.
Proof.
  intros H Hrest. destruct (proj1 (fuel_bound fuel) _ _ _ H) as [Hlen Hv].
  assert (Hle : (List.length text - List.length rest <= S (List.length text))%nat)
    by lia.
  unfold parse. rewrite (proj1 (fuel_more _ _ Hle) _ _ Hv).
  now rewrite Hrest.
Qed.

End WithNumbers.

End FuelFacts.

(** ** formatJSON and minifyJSON *)

(** C9.  formatJSON and minifyJSON are idempotent on valid JSON: for every
    text that JSON.parse accepts, minifyJSON returns a text that minifyJSON
    returns unchanged, and formatJSON returns a text that formatJSON returns
    unchanged. *)
Theorem json_idempotence {M : Json.NumberModel} {L : Json.NumberLaws M}
        (j : jsstring) :
  (exists v, Json.parse j = Some v) ->
  (exists m, Codec.minifyJSON j = Ok m /\ Codec.minifyJSON m = Ok m)
  /\ (exists f, Codec.formatJSON j = Ok f /\ Codec.formatJSON f = Ok f).
Proof.
  intros [v Hv]. pose proof (JsonFacts.parse_builds j v Hv) as Hwb. split.
  - exists (Json.stringify v).
    unfold Codec.minifyJSON, Codec.JSON_parse, Json.stringify.
    rewrite Hv, (JsonFacts.parse_serialize v [] Hwb eq_refl).
    cbn [bind try_catch]. now rewrite JsonFacts.serialize_normalize.
  - exists (Json.stringify2 v).
    unfold Codec.formatJSON, Codec.JSON_parse, Json.stringify2.
    rewrite Hv, (JsonFacts.parse_serialize v [32; 32] Hwb eq_refl).
    cbn [bind try_catch]. now rewrite JsonFacts.serialize_normalize.
Qed.

Lemma json_idempotence_witness :
  (exists m,
      Codec.minifyJSON (M := IntegerNumbers.model)
        (jq "{ 'b': [1, 20, {}],  '10': 'x\ny', '2': null, 'b': -7 }") = Ok m
      /\ Codec.minifyJSON (M := IntegerNumbers.model) m = Ok m)
  /\ (exists f,
         Codec.formatJSON (M := IntegerNumbers.model)
           (jq "{ 'b': [1, 20, {}],  '10': 'x\ny', '2': null, 'b': -7 }") = Ok f
         /\ Codec.formatJSON (M := IntegerNumbers.model) f = Ok f).
Proof.
  apply (@json_idempotence IntegerNumbers.model IntegerFacts.laws).
  eexists. vm_compute. reflexivity.
Defined.

(** ** Global replacement *)

Module ReplaceFacts.

Import Text.

Section Replace.

Variable match_at : jsstring -> option nat.
Variable replacement : jsstring -> jsstring.

(** The index passes the rest of a match without looking at it. *)
Lemma replace_from_skipn (n : nat) (s : jsstring) :
  replace_from match_at replacement n s
  = replace_global match_at replacement (skipn n s).
Proof.
  revert n; induction s as [|c r IH]; intros [|n]; try reflexivity.
  cbn [replace_from skipn]. apply IH.
Qed.

Lemma replace_no_match (c : Z) (r : jsstring) :
  match_at (c :: r) = None ->
  replace_global match_at replacement (c :: r)
  = c :: replace_global match_at replacement r.
Proof. intros H. unfold replace_global. cbn [replace_from]. now rewrite H. Qed.

Lemma replace_match (m r : jsstring) :
  m <> [] -> match_at (m ++ r) = Some (List.length m) ->
  replace_global match_at replacement (m ++ r)
  = replacement m ++ replace_global match_at replacement r.
Proof.
  intros Hm H. destruct m as [|c m]; [contradiction|].
  unfold replace_global at 1. cbn [app replace_from].
  change (c :: m ++ r) with ((c :: m) ++ r). rewrite H. cbn [List.length].
  rewrite replace_from_skipn.
  change (S (List.length m)) with (List.length (c :: m)).
  rewrite firstn_app, firstn_all, Nat.sub_diag, skipn_app, skipn_all,
    Nat.sub_diag.
  cbn [firstn skipn app]. now rewrite app_nil_r.
Qed.

End Replace.

Lemma literal_match (pattern r : jsstring) :
  literal pattern (pattern ++ r) = Some (List.length pattern).
Proof.
  unfold literal.
  assert (H : starts_with pattern (pattern ++ r) = true).
  { induction pattern as [|x p IH]; [reflexivity|].
    cbn [app starts_with]. now rewrite Z.eqb_refl, IH. }
  now rewrite H.
Qed.

Lemma literal_other (x c : Z) (pattern r : jsstring) :
  x <> c -> literal (x :: pattern) (c :: r) = None.
Proof.
  intros H. unfold literal. cbn [starts_with].
  destruct (Z.eqb_spec x c); [contradiction|reflexivity].
Qed.

(** A pattern of one character: every occurrence is replaced, and what
    is put in is not searched again. *)
Lemma replace_character (c : Z) (text s : jsstring) :
  replace_literal [c] text s
  = flat_map (fun x => if x =? c then text else [x]) s.
Proof.
  unfold replace_literal, replace_global.
  induction s as [|x s IH]; [reflexivity|].
  cbn [replace_from flat_map literal]. unfold literal. cbn [starts_with].
  rewrite (Z.eqb_sym c x). destruct (x =? c); cbn [andb List.length app].
  - f_equal. exact IH.
  - f_equal. exact IH.
Qed.

(** A text without the first character of the pattern is left as it is. *)
Lemma replace_absent (x : Z) (pattern text s : jsstring) :
  ~ In x s -> replace_literal (x :: pattern) text s = s.
Proof.
  unfold replace_literal. induction s as [|c s IH]; intros H; [reflexivity|].
  rewrite replace_no_match.
  - f_equal. apply IH. intros Hin. apply H. now right.
  - apply literal_other. intros ->. apply H. now left.
Qed.

Lemma flat_map_flat_map {A B C} (f : A -> list B) (g : B -> list C) (l : list A) :
  flat_map g (flat_map f l) = flat_map (fun x => flat_map g (f x)) l.
Proof.
  induction l as [|x l IH]; [reflexivity|].
  cbn [flat_map]. now rewrite flat_map_app, IH.
Qed.

End ReplaceFacts.

(** ** htmlEscape and escapeXml *)

Module EscapeFacts.

Import Text TextSpec ReplaceFacts.

Lemma htmlEscape_characters (text : jsstring) :
  htmlEscape text = flat_map html_entity text.
Proof.
  unfold htmlEscape. rewrite !replace_character, !flat_map_flat_map.
  apply flat_map_ext. intros c. unfold html_entity.
  destruct (Z.eqb_spec c 38); [subst; reflexivity|].
  destruct (Z.eqb_spec c 60); [subst; reflexivity|].
  destruct (Z.eqb_spec c 62); [subst; reflexivity|].
  destruct (Z.eqb_spec c 34); [subst; reflexivity|].
  destruct (Z.eqb_spec c 39); [subst; reflexivity|].
  cbn [flat_map app].
  repeat match goal with
         | |- context [c =? ?y] => destruct (Z.eqb_spec c y); [contradiction|]
         | _ => progress cbn [flat_map app]
         end.
  reflexivity.
Qed.

Lemma escapeXml_characters (unsafe : jsstring) :
  escapeXml unsafe = flat_map xml_character unsafe.
Proof.
  unfold escapeXml, replace_global.
  induction unsafe as [|c s IH]; [reflexivity|].
  cbn [replace_from flat_map xml_special]. unfold xml_character at 1.
  destruct (Z.eqb_spec c 60); [subst; cbn; now rewrite IH|].
  destruct (Z.eqb_spec c 62); [subst; cbn; now rewrite IH|].
  destruct (Z.eqb_spec c 38); [subst; cbn; now rewrite IH|].
  destruct (Z.eqb_spec c 39); [subst; cbn; now rewrite IH|].
  destruct (Z.eqb_spec c 34); [subst; cbn; now rewrite IH|].
  cbn [orb app]. now rewrite IH.
Qed.

(** A text written character by character in a code without prefixes can
    be read back in one way only. *)
Lemma flat_map_injective (f : Z -> jsstring) :
  (forall x, f x <> []) ->
  (forall x y A B, f x ++ A = f y ++ B -> x = y /\ A = B) ->
  forall a b, flat_map f a = flat_map f b -> a = b.
Proof.
  intros Hne Hcode. induction a as [|x a IH]; intros [|y b] H.
  - reflexivity.
  - cbn [flat_map] in H. destruct (f y) eqn:E; [now apply Hne in E|discriminate].
  - cbn [flat_map] in H. destruct (f x) eqn:E; [now apply Hne in E|discriminate].
  - cbn [flat_map] in H. apply Hcode in H as [-> H]. f_equal. now apply IH.
Qed.

Ltac entity_cases f :=
  unfold f;
  repeat match goal with
         | |- context [?x =? ?y] => destruct (Z.eqb_spec x y); subst
         end.

Lemma html_entity_code (x y : Z) (A B : jsstring) :
  html_entity x ++ A = html_entity y ++ B -> x = y /\ A = B.
Proof.
  entity_cases html_entity; cbn [js app map list_ascii_of_string];
    intros H; injection H; intros; subst; try lia; try (split; congruence).
Qed.

Lemma xml_character_code (x y : Z) (A B : jsstring) :
  xml_character x ++ A = xml_character y ++ B -> x = y /\ A = B.
Proof.
  entity_cases xml_character; cbn [js app map list_ascii_of_string];
    intros H; injection H; intros; subst; try lia; try (split; congruence).
Qed.

Lemma html_entity_safe (x c : Z) :
  In c (html_entity x) -> c <> 60 /\ c <> 62 /\ c <> 34 /\ c <> 39.
Proof.
  entity_cases html_entity; cbn; intros H;
    repeat (destruct H as [<-|H]; [lia|]); destruct H.
Qed.

Lemma xml_character_safe (x c : Z) :
  In c (xml_character x) -> c <> 60 /\ c <> 62 /\ c <> 34 /\ c <> 39.
Proof.
  entity_cases xml_character; cbn; intros H;
    repeat (destruct H as [<-|H]; [lia|]); destruct H.
Qed.

End EscapeFacts.

(** X1.  htmlEscape replaces every character once: what it writes for a
    text is the text of each character, the entity of an ampersand, an angle
    bracket, a double quote or an apostrophe, and the character itself
    otherwise; the ampersand of an entity that it has written is not escaped
    again.  The result holds no angle bracket, no double quote and no
    apostrophe, and two different texts have different results. *)
Theorem htmlEscape_safe_and_injective :
  (forall text, Text.htmlEscape text = flat_map TextSpec.html_entity text)
  /\ (forall text c, In c (Text.htmlEscape text) ->
                     c <> 60 /\ c <> 62 /\ c <> 34 /\ c <> 39)
  /\ (forall a b, Text.htmlEscape a = Text.htmlEscape b -> a = b).
Proof.
  split; [exact EscapeFacts.htmlEscape_characters|split].
  - intros text c. rewrite EscapeFacts.htmlEscape_characters.
    intros H. apply in_flat_map in H as (x & _ & H).
    now apply (EscapeFacts.html_entity_safe x).
  - intros a b. rewrite !EscapeFacts.htmlEscape_characters.
    apply EscapeFacts.flat_map_injective.
    + intros x. unfold TextSpec.html_entity.
      repeat match goal with
             | |- context [if ?c then _ else _] => destruct c
             end; discriminate.
    + apply EscapeFacts.html_entity_code.
Qed.

(** X2.  escapeXml replaces every character once, by the entity of an angle
    bracket, an ampersand, an apostrophe or a double quote, and by itself
    otherwise.  The result holds no angle bracket, no double quote and no
    apostrophe, and two different texts have different results. *)
Theorem escapeXml_safe_and_injective :
  (forall unsafe, Text.escapeXml unsafe = flat_map TextSpec.xml_character unsafe)
  /\ (forall unsafe c, In c (Text.escapeXml unsafe) ->
                       c <> 60 /\ c <> 62 /\ c <> 34 /\ c <> 39)
  /\ (forall a b, Text.escapeXml a = Text.escapeXml b -> a = b).
Proof.
  split; [exact EscapeFacts.escapeXml_characters|split].
  - intros unsafe c. rewrite EscapeFacts.escapeXml_characters.
    intros H. apply in_flat_map in H as (x & _ & H).
    now apply (EscapeFacts.xml_character_safe x).
  - intros a b. rewrite !EscapeFacts.escapeXml_characters.
    apply EscapeFacts.flat_map_injective.
    + intros x. unfold TextSpec.xml_character.
      repeat match goal with
             | |- context [if ?c then _ else _] => destruct c
             end; discriminate.
    + apply EscapeFacts.xml_character_code.
Qed.

(** ** htmlUnescape after htmlEscape *)

Module UnescapeFacts.

Import Text TextSpec ReplaceFacts.

Lemma starts_with_app (p s : jsstring) :
  starts_with p s = true -> s = p ++ skipn (List.length p) s.
Proof.
  revert s; induction p as [|x p IH]; intros s H; [reflexivity|].
  destruct s as [|y s]; [discriminate|]. cbn [starts_with] in H.
  apply andb_true_iff in H as [Hx H]. apply Z.eqb_eq in Hx. subst y.
  cbn [List.length skipn app]. f_equal. now apply IH.
Qed.

Section Step.

Variables (f f' : Z -> jsstring) (q : jsstring).

Lemma replace_passes (e text rest : jsstring) :
  ~ In 38 e -> (forall rest, starts_with q (e ++ rest) = false) ->
  replace_literal (38 :: q) text ((38 :: e) ++ rest)
  = (38 :: e) ++ replace_literal (38 :: q) text rest.
Proof.
  intros He Hq. unfold replace_literal. cbn [app].
  rewrite replace_no_match
    by (unfold literal; cbn [starts_with]; now rewrite Z.eqb_refl, Hq).
  f_equal. clear Hq. induction e as [|c e IH]; [reflexivity|].
  cbn [app]. rewrite replace_no_match.
  - f_equal. apply IH. intros H. apply He. now right.
  - apply literal_other. intros H. apply He. now left.
Qed.

(** The first replacement of htmlUnescape, of the entity of the
    ampersand: every ampersand of the text is the head of an entity. *)
Lemma step_ampersand :
  f 38 = 38 :: q -> f' 38 = [38] ->
  (forall y, y <> 38 -> (f y = [y] /\ f' y = [y]) \/ passes q (f y) (f' y)) ->
  forall t, replace_literal (38 :: q) [38] (flat_map f t) = flat_map f' t.
Proof.
  intros H38 H38' Hkinds. induction t as [|y t IH]; [reflexivity|].
  cbn [flat_map]. destruct (Z.eq_dec y 38) as [->|Hy].
  - rewrite H38, H38'. unfold replace_literal in *.
    rewrite replace_match; [now rewrite IH|discriminate|apply literal_match].
  - destruct (Hkinds y Hy) as [[E E']|(e & E & E' & He & Hq)]; rewrite E, E'.
    + unfold replace_literal in *. cbn [app]. rewrite replace_no_match.
      * now rewrite IH.
      * apply literal_other. congruence.
    + rewrite replace_passes by assumption. now rewrite IH.
Qed.

(** A later replacement, of the entity of [x]. *)
Variable x : Z.
Hypothesis x_entity : f x = 38 :: q.
Hypothesis x_after : f' x = [x].
Hypothesis x_no_ampersand : x <> 38.
Hypothesis name_plain : Forall (fun c => f c = [c] /\ c <> 38) q.
Hypothesis kinds :
  forall y, y <> x -> (f y = [y] /\ f' y = [y]) \/ (passes q (f y) (f' y) /\ y <> 38).

Lemma plain_ampersand : f 38 = [38] /\ f' 38 = [38].
Proof.
  destruct (kinds 38 (not_eq_sym x_no_ampersand)) as [H|[_ H]];
    [exact H|contradiction].
Qed.

(** The name of the entity is read in the escaped text where it is read in
    the text. *)
Lemma starts_plain (p : jsstring) :
  Forall (fun c => f c = [c] /\ c <> 38) p ->
  forall u, starts_with p (flat_map f u) = starts_with p u.
Proof.
  induction 1 as [|c p [Hc Hc38] Hp IH]; intros u; [reflexivity|].
  destruct u as [|z u]; [reflexivity|]. cbn [flat_map].
  destruct (Z.eq_dec z x) as [->|Hz].
  - rewrite x_entity. cbn [app starts_with].
    destruct (Z.eqb_spec c 38); [contradiction|].
    destruct (Z.eqb_spec c x) as [->|]; [|reflexivity].
    rewrite x_entity in Hc. congruence.
  - destruct (kinds z Hz) as [[E _]|[(e & E & _) _]]; rewrite E.
    + cbn [app starts_with]. now rewrite IH.
    + cbn [app starts_with].
      destruct (Z.eqb_spec c 38); [contradiction|].
      destruct (Z.eqb_spec c z) as [->|]; [|reflexivity].
      rewrite E in Hc. congruence.
Qed.

Lemma flat_map_plain (p : jsstring) :
  Forall (fun c => f c = [c] /\ c <> 38) p -> flat_map f p = p.
Proof.
  induction 1 as [|c p [Hc _] Hp IH]; [reflexivity|].
  cbn [flat_map]. now rewrite Hc, IH.
Qed.

Lemma step_length (n : nat) :
  forall t, (List.length t <= n)%nat ->
    replace_literal (38 :: q) [x] (flat_map f t)
    = flat_map f' (replace_literal (38 :: q) [x] t).
Proof.
  destruct plain_ampersand as [H38 H38'].
  induction n as [|n IH]; intros [|y t] Hlen; try reflexivity;
    cbn [List.length] in Hlen; [lia|].
  assert (IHt : replace_literal (38 :: q) [x] (flat_map f t)
                = flat_map f' (replace_literal (38 :: q) [x] t))
    by (apply IH; lia).
  cbn [flat_map]. destruct (Z.eq_dec y x) as [->|Hy].
  - (* the character that the entity stands for *)
    rewrite x_entity. unfold replace_literal in *.
    rewrite replace_match; [|discriminate|apply literal_match].
    rewrite (replace_no_match _ _ x t) by (apply literal_other; congruence).
    cbn [flat_map]. now rewrite x_after, IHt.
  - destruct (kinds y Hy) as [[E E']|[(e & E & E' & He & Hq) Hy38]].
    + rewrite E. cbn [app]. destruct (starts_with (38 :: q) (y :: t)) eqn:Hm.
      * (* the entity is in the text itself *)
        pose proof (starts_with_app _ _ Hm) as Ht.
        cbn [starts_with] in Hm. apply andb_true_iff in Hm as [Hy38 Hm].
        apply Z.eqb_eq in Hy38. subst y.
        cbn [List.length skipn app] in Ht. injection Ht as Ht.
        set (t' := skipn (List.length q) t) in *.
        assert (Hlen' : (List.length t' <= n)%nat).
        { rewrite Ht, length_app in Hlen. lia. }
        rewrite Ht, flat_map_app, flat_map_plain by exact name_plain.
        unfold replace_literal in *.
        change (38 :: q ++ flat_map f t') with ((38 :: q) ++ flat_map f t').
        change (38 :: q ++ t') with ((38 :: q) ++ t').
        rewrite !replace_match; try discriminate; try apply literal_match.
        cbn [flat_map app]. rewrite x_after. cbn [app].
        f_equal. now apply IH.
      * unfold replace_literal in *.
        rewrite (replace_no_match _ _ y t) by (unfold literal; now rewrite Hm).
        rewrite replace_no_match.
        -- cbn [flat_map]. now rewrite E', IHt.
        -- unfold literal. cbn [starts_with] in *.
           destruct (38 =? y); [|reflexivity].
           cbn [andb] in *. now rewrite (starts_plain q name_plain), Hm.
    + rewrite E, replace_passes by assumption.
      unfold replace_literal in *.
      rewrite (replace_no_match _ _ y t) by (apply literal_other; congruence).
      cbn [flat_map]. now rewrite E', IHt.
Qed.

Lemma step (t : jsstring) :
  replace_literal (38 :: q) [x] (flat_map f t)
  = flat_map f' (replace_literal (38 :: q) [x] t).
Proof. now apply (step_length (List.length t)). Qed.

End Step.

Ltac entity_passes :=
  eexists;
  split; [reflexivity|];
  split; [reflexivity|];
  split; [cbn; intuition discriminate|intros rest; reflexivity].

Ltac kinds_of_entities :=
  unfold passes, entity_after; cbn [Nat.ltb Nat.leb andb];
  repeat match goal with
         | |- context [?a =? ?b] =>
             destruct (Z.eqb_spec a b); [subst; cbn [andb]|cbn [andb]]
         end;
  try lia;
  first [ left; split; reflexivity
        | right; first [ entity_passes | split; [entity_passes|lia] ] ].

Lemma unescape_ampersand (t : jsstring) :
  replace_literal (js "&amp;") [38] (flat_map (entity_after 0) t)
  = flat_map (entity_after 1) t.
Proof.
  apply (step_ampersand (entity_after 0) (entity_after 1) (js "amp;"));
    [reflexivity|reflexivity|].
  intros y Hy. kinds_of_entities.
Qed.

Ltac plain_name :=
  repeat constructor; try reflexivity; try discriminate.

Lemma unescape_lt (t : jsstring) :
  replace_literal (js "&lt;") [60] (flat_map (entity_after 1) t)
  = flat_map (entity_after 2) (replace_literal (js "&lt;") [60] t).
Proof.
  apply (step (entity_after 1) (entity_after 2) (js "lt;") 60);
    [reflexivity|reflexivity|discriminate|plain_name|].
  intros y Hy. kinds_of_entities.
Qed.

Lemma unescape_gt (t : jsstring) :
  replace_literal (js "&gt;") [62] (flat_map (entity_after 2) t)
  = flat_map (entity_after 3) (replace_literal (js "&gt;") [62] t).
Proof.
  apply (step (entity_after 2) (entity_after 3) (js "gt;") 62);
    [reflexivity|reflexivity|discriminate|plain_name|].
  intros y Hy. kinds_of_entities.
Qed.

Lemma unescape_quot (t : jsstring) :
  replace_literal (js "&quot;") [34] (flat_map (entity_after 3) t)
  = flat_map (entity_after 4) (replace_literal (js "&quot;") [34] t).
Proof.
  apply (step (entity_after 3) (entity_after 4) (js "quot;") 34);
    [reflexivity|reflexivity|discriminate|plain_name|].
  intros y Hy. kinds_of_entities.
Qed.

Lemma unescape_apostrophe (t : jsstring) :
  replace_literal (js "&#39;") [39] (flat_map (entity_after 4) t)
  = flat_map (entity_after 5) (replace_literal (js "&#39;") [39] t).
Proof.
  apply (step (entity_after 4) (entity_after 5) (js "#39;") 39);
    [reflexivity|reflexivity|discriminate|plain_name|].
  intros y Hy. kinds_of_entities.
Qed.

Lemma entity_after_0 (t : jsstring) :
  flat_map TextSpec.html_entity t = flat_map (entity_after 0) t.
Proof.
  apply flat_map_ext. intros c.
  unfold TextSpec.html_entity, entity_after. cbn [Nat.ltb Nat.leb].
  now rewrite !andb_true_r.
Qed.

Lemma entity_after_5 (t : jsstring) : flat_map (entity_after 5) t = t.
Proof.
  induction t as [|c t IH]; [reflexivity|].
  cbn [flat_map]. rewrite IH. unfold entity_after. cbn [Nat.ltb Nat.leb].
  now rewrite !andb_false_r.
Qed.

End UnescapeFacts.

(** X3.  htmlUnescape does not always undo htmlEscape.  What it returns for
    an escaped text is the text in which the entities of the angle brackets,
    the double quote and the apostrophe, where the text itself holds them,
    are replaced as well: the text is given back exactly when these four
    replacements leave it as it is, as they do when it holds no ampersand,
    and the text of the entity of an angle bracket comes back as the
    bracket. *)
Theorem htmlUnescape_htmlEscape :
  (forall text,
      Text.htmlUnescape (Text.htmlEscape text)
      = Text.replace_literal (js "&#39;") [39]
          (Text.replace_literal (js "&quot;") [34]
             (Text.replace_literal (js "&gt;") [62]
                (Text.replace_literal (js "&lt;") [60] text))))
  /\ (forall text, ~ In 38 text ->
                   Text.htmlUnescape (Text.htmlEscape text) = text)
  /\ Text.htmlUnescape (Text.htmlEscape (js "&lt;")) = js "<".
Proof.
  assert (General : forall text,
      Text.htmlUnescape (Text.htmlEscape text)
      = Text.replace_literal (js "&#39;") [39]
          (Text.replace_literal (js "&quot;") [34]
             (Text.replace_literal (js "&gt;") [62]
                (Text.replace_literal (js "&lt;") [60] text)))).
  { intros text. rewrite EscapeFacts.htmlEscape_characters.
    unfold Text.htmlUnescape.
    rewrite UnescapeFacts.entity_after_0, UnescapeFacts.unescape_ampersand,
      UnescapeFacts.unescape_lt, UnescapeFacts.unescape_gt,
      UnescapeFacts.unescape_quot, UnescapeFacts.unescape_apostrophe.
    apply UnescapeFacts.entity_after_5. }
  split; [exact General|split].
  - intros text H. rewrite General.
    change (js "&lt;") with (38 :: js "lt;").
    change (js "&gt;") with (38 :: js "gt;").
    change (js "&quot;") with (38 :: js "quot;").
    change (js "&#39;") with (38 :: js "#39;").
    rewrite (ReplaceFacts.replace_absent 38 (js "lt;") [60] text H).
    rewrite (ReplaceFacts.replace_absent 38 (js "gt;") [62] text H).
    rewrite (ReplaceFacts.replace_absent 38 (js "quot;") [34] text H).
    apply (ReplaceFacts.replace_absent 38 (js "#39;") [39] text H).
  - reflexivity.
Qed.

(** ** minifyXML *)

Module MinifyFacts.

Import Text TextSpec ReplaceFacts.

Lemma take_drop_while (p : Z -> bool) (s : jsstring) :
  take_while p s ++ drop_while p s = s.
Proof.
  induction s as [|c r IH]; [reflexivity|].
  cbn [take_while drop_while]. destruct (p c); [|reflexivity].
  cbn [app]. now rewrite IH.
Qed.

Lemma skipn_take_while (p : Z -> bool) (s : jsstring) :
  skipn (List.length (take_while p s)) s = drop_while p s.
Proof.
  induction s as [|c r IH]; [reflexivity|].
  cbn [take_while drop_while]. destruct (p c); [|reflexivity].
  cbn [List.length skipn]. exact IH.
Qed.

Lemma take_while_all (p : Z -> bool) (s : jsstring) :
  forallb p (take_while p s) = true.
Proof.
  induction s as [|c r IH]; [reflexivity|].
  cbn [take_while]. destruct (p c) eqn:E; [|reflexivity].
  cbn [forallb]. now rewrite E.
Qed.

Lemma take_while_app (p : Z -> bool) (w t : jsstring) :
  forallb p w = true ->
  match t with [] => True | d :: _ => p d = false end ->
  take_while p (w ++ t) = w /\ drop_while p (w ++ t) = t.
Proof.
  intros Hw Ht. induction w as [|c w IH].
  - cbn [app]. destruct t as [|d t]; [now split|].
    cbn [take_while drop_while]. now rewrite Ht.
  - cbn [forallb] in Hw. apply andb_true_iff in Hw as [Hc Hw].
    cbn [app take_while drop_while]. rewrite Hc.
    destruct (IH Hw) as [-> ->]. now split.
Qed.

Lemma drop_while_head (p : Z -> bool) (s : jsstring) :
  match drop_while p s with [] => True | d :: _ => p d = false end.
Proof.
  induction s as [|c r IH]; [exact I|].
  cbn [drop_while]. destruct (p c) eqn:E; [exact IH|exact E].
Qed.

(** The expression, by what it reads. *)
Lemma tag_gap_shape (c : Z) (r : jsstring) :
  tag_gap (c :: r)
  = if c =? 62 then
      match take_while is_js_space r, drop_while is_js_space r with
      | _ :: _, d :: _ =>
          if d =? 60
          then Some (List.length (take_while is_js_space r) + 2)%nat
          else None
      | _, _ => None
      end
    else None.
Proof.
  unfold tag_gap. cbv zeta. destruct (c =? 62); [|reflexivity].
  pose proof (skipn_take_while is_js_space r) as H.
  destruct (take_while is_js_space r); [reflexivity|]. now rewrite H.
Qed.

Lemma tag_gap_match (spaces rest : jsstring) :
  spaces <> [] -> forallb is_js_space spaces = true ->
  tag_gap (62 :: spaces ++ 60 :: rest) = Some (List.length spaces + 2)%nat.
Proof.
  intros Hne Hsp. rewrite tag_gap_shape. cbn [Z.eqb Pos.eqb].
  destruct (take_while_app is_js_space spaces (60 :: rest) Hsp eq_refl)
    as [-> ->].
  destruct spaces; [contradiction|reflexivity].
Qed.

Lemma tag_gap_inversion (s : jsstring) (n : nat) :
  tag_gap s = Some n ->
  exists spaces rest,
    s = 62 :: spaces ++ 60 :: rest
    /\ spaces <> [] /\ forallb is_js_space spaces = true
    /\ n = (List.length spaces + 2)%nat.
Proof.
  destruct s as [|c r]; [discriminate|]. rewrite tag_gap_shape.
  destruct (Z.eqb_spec c 62) as [->|]; [|discriminate].
  pose proof (take_drop_while is_js_space r) as Split.
  pose proof (take_while_all is_js_space r) as All.
  destruct (take_while is_js_space r) as [|w ws] eqn:Ew; [discriminate|].
  destruct (drop_while is_js_space r) as [|d rest]; [discriminate|].
  destruct (Z.eqb_spec d 60) as [->|]; [|discriminate].
  intros [= <-]. exists (w :: ws), rest. repeat split; try assumption.
  - now rewrite Split.
  - discriminate.
Qed.

Lemma squeeze_match (spaces rest : jsstring) :
  spaces <> [] -> forallb is_js_space spaces = true ->
  squeeze (62 :: spaces ++ 60 :: rest) = 62 :: 60 :: squeeze rest.
Proof.
  intros Hne Hsp. unfold squeeze.
  change (62 :: spaces ++ 60 :: rest) with ((62 :: spaces) ++ [60] ++ rest).
  rewrite app_assoc.
  rewrite replace_match; [reflexivity|discriminate|].
  rewrite <- app_assoc. cbn [app]. rewrite tag_gap_match by assumption.
  f_equal. cbn [List.length]. rewrite length_app. cbn [List.length]. lia.
Qed.

Lemma squeeze_other (c : Z) (r : jsstring) :
  tag_gap (c :: r) = None -> squeeze (c :: r) = c :: squeeze r.
Proof. apply replace_no_match. Qed.

Lemma squeeze_head (d : Z) (t : jsstring) :
  exists out, squeeze (d :: t) = d :: out.
Proof.
  destruct (tag_gap (d :: t)) as [n|] eqn:E.
  - apply tag_gap_inversion in E as (spaces & rest & E & Hne & Hsp & _).
    injection E as -> ->. rewrite squeeze_match by assumption. eauto.
  - rewrite squeeze_other by assumption. eauto.
Qed.

Lemma space_not_bracket (c : Z) : is_js_space c = true -> c <> 62 /\ c <> 60.
Proof. unfold is_js_space. lia. Qed.

Lemma squeeze_spaces (w t : jsstring) :
  forallb is_js_space w = true -> squeeze (w ++ t) = w ++ squeeze t.
Proof.
  induction w as [|c w IH]; intros H; [reflexivity|].
  cbn [forallb] in H. apply andb_true_iff in H as [Hc Hw].
  cbn [app]. rewrite squeeze_other.
  - now rewrite IH.
  - rewrite tag_gap_shape. destruct (space_not_bracket c Hc) as [Hn _].
    destruct (Z.eqb_spec c 62); [contradiction|reflexivity].
Qed.

(** Where the expression does not match, it does not match what is written
    for the rest either. *)
Lemma tag_gap_squeeze (c : Z) (r : jsstring) :
  tag_gap (c :: r) = None -> tag_gap (c :: squeeze r) = None.
Proof.
  rewrite !tag_gap_shape. destruct (c =? 62); [|reflexivity].
  pose proof (take_drop_while is_js_space r) as Split.
  pose proof (take_while_all is_js_space r) as All.
  pose proof (drop_while_head is_js_space r) as Head.
  set (w := take_while is_js_space r) in *.
  set (t := drop_while is_js_space r) in *.
  rewrite <- Split, squeeze_spaces by exact All.
  intros H.
  assert (Hout : match squeeze t with
                 | [] => True
                 | d :: _ => is_js_space d = false
                 end).
  { destruct t as [|d t']; [exact I|].
    destruct (squeeze_head d t') as [out ->]. exact Head. }
  destruct (take_while_app is_js_space w (squeeze t) All Hout) as [-> ->].
  destruct w as [|x w]; [reflexivity|].
  destruct t as [|d t']; [reflexivity|].
  destruct (squeeze_head d t') as [out ->].
  destruct (d =? 60); [discriminate|reflexivity].
Qed.

Lemma squeeze_gap_free_length (n : nat) :
  forall s, (List.length s <= n)%nat -> gap_free (squeeze s).
Proof.
  induction n as [|n IH]; intros [|c r] Hlen; try exact I;
    cbn [List.length] in Hlen; [lia|].
  destruct (tag_gap (c :: r)) as [k|] eqn:E.
  - apply tag_gap_inversion in E as (spaces & rest & E & Hne & Hsp & _).
    injection E as -> ->. rewrite squeeze_match by assumption.
    rewrite length_app in Hlen. cbn [List.length] in Hlen.
    cbn [gap_free]. repeat split.
    + apply IH. lia.
  - rewrite squeeze_other by assumption. cbn [gap_free]. split.
    + now apply tag_gap_squeeze.
    + apply IH. lia.
Qed.

Lemma squeeze_gap_free (s : jsstring) : gap_free (squeeze s).
Proof. now apply (squeeze_gap_free_length (List.length s)). Qed.

Lemma squeeze_fixed (s : jsstring) : gap_free s -> squeeze s = s.
Proof.
  induction s as [|c r IH]; [reflexivity|]. intros [H Hr].
  rewrite squeeze_other by assumption. now rewrite IH.
Qed.

Lemma gap_free_drop_while (p : Z -> bool) (s : jsstring) :
  gap_free s -> gap_free (drop_while p s).
Proof.
  induction s as [|c r IH]; [intros; exact I|]. intros H.
  cbn [drop_while]. destruct (p c); [apply IH, H|exact H].
Qed.

Lemma tag_gap_app (t w : jsstring) (n : nat) :
  tag_gap t = Some n -> tag_gap (t ++ w) = Some n.
Proof.
  intros H. apply tag_gap_inversion in H as (spaces & rest & -> & Hne & Hsp & ->).
  cbn [app]. rewrite <- app_assoc. cbn [app]. now apply tag_gap_match.
Qed.

Lemma gap_free_prefix (u w : jsstring) : gap_free (u ++ w) -> gap_free u.
Proof.
  induction u as [|c u IH]; [intros; exact I|].
  change ((c :: u) ++ w) with (c :: (u ++ w)). intros [H Hr].
  split; [|now apply IH].
  destruct (tag_gap (c :: u)) as [n|] eqn:E; [|reflexivity].
  apply (tag_gap_app _ w) in E. cbn [app] in E. congruence.
Qed.

Lemma gap_free_suffix (u t : jsstring) : gap_free (u ++ t) -> gap_free t.
Proof.
  induction u as [|c u IH]; [intros H; exact H|].
  change ((c :: u) ++ t) with (c :: (u ++ t)). intros [_ H].
  now apply IH.
Qed.

(** What trim leaves is a part of the text: the text is this part between
    two runs of white space. *)
Lemma trim_part (s : jsstring) :
  exists before after,
    s = before ++ trim s ++ after
    /\ drop_while is_js_space s = trim s ++ after.
Proof.
  unfold trim. set (a := drop_while is_js_space s).
  exists (take_while is_js_space s),
         (rev (take_while is_js_space (rev a))).
  assert (Ha : a = rev (drop_while is_js_space (rev a))
                   ++ rev (take_while is_js_space (rev a))).
  { rewrite <- rev_app_distr, take_drop_while. now rewrite rev_involutive. }
  split; [|exact Ha].
  rewrite <- Ha. symmetry. apply take_drop_while.
Qed.

Lemma gap_free_trim (s : jsstring) : gap_free s -> gap_free (trim s).
Proof.
  intros H. destruct (trim_part s) as (before & after & E & _).
  rewrite E in H. apply gap_free_suffix in H. now apply gap_free_prefix in H.
Qed.

Lemma drop_while_fixed (p : Z -> bool) (s : jsstring) :
  match s with [] => True | d :: _ => p d = false end -> drop_while p s = s.
Proof. destruct s as [|d s]; [reflexivity|]. cbn [drop_while]. now intros ->. Qed.

Lemma drop_while_twice (p : Z -> bool) (s : jsstring) :
  drop_while p (drop_while p s) = drop_while p s.
Proof. apply drop_while_fixed, drop_while_head. Qed.

Lemma trim_twice (s : jsstring) : trim (trim s) = trim s.
Proof.
  destruct (trim_part s) as (before & after & _ & E).
  assert (Front : drop_while is_js_space (trim s) = trim s).
  { apply drop_while_fixed.
    pose proof (drop_while_head is_js_space s) as H. rewrite E in H.
    destruct (trim s); [exact I|exact H]. }
  unfold trim at 1. rewrite Front. unfold trim.
  now rewrite rev_involutive, drop_while_twice.
Qed.

End MinifyFacts.

(** X4.  minifyXML is idempotent: the result holds no closing bracket that
    white space separates from an opening bracket, and neither begins nor ends
    with white space, so that minifying it again changes nothing. *)
Theorem minifyXML_idempotent :
  (forall xml, Text.minifyXML (Text.minifyXML xml) = Text.minifyXML xml)
  /\ (forall xml before spaces after,
         spaces <> [] -> forallb is_js_space spaces = true ->
         Text.minifyXML xml <> before ++ [62] ++ spaces ++ [60] ++ after)
  /\ (forall xml, trim (Text.minifyXML xml) = Text.minifyXML xml).
Proof.
  assert (Free : forall xml, TextSpec.gap_free (Text.minifyXML xml)).
  { intros xml. apply MinifyFacts.gap_free_trim, MinifyFacts.squeeze_gap_free. }
  split; [|split].
  - intros xml. unfold Text.minifyXML at 1.
    change (Text.replace_global Text.tag_gap (fun _ => [62; 60])
              (Text.minifyXML xml))
      with (TextSpec.squeeze (Text.minifyXML xml)).
    rewrite MinifyFacts.squeeze_fixed by apply Free.
    apply MinifyFacts.trim_twice.
  - intros xml before spaces after Hne Hsp E.
    pose proof (Free xml) as H. rewrite E in H.
    apply MinifyFacts.gap_free_suffix in H. destruct H as [H _].
    cbn [app] in H. rewrite MinifyFacts.tag_gap_match in H by assumption.
    discriminate.
  - intros xml. apply MinifyFacts.trim_twice.
Qed.

(** ** stringLength *)

Module LengthFacts.

Import Utf8 TextSpec.

Lemma code_point_length (c : Z) :
  0 <= c < 65536 ->
  (1 <= List.length (encode_code_point c) <= 3)%nat
  /\ (List.length (encode_code_point c) = 1%nat <-> c < 128).
Proof.
  intros H. unfold encode_code_point.
  destruct (Z.ltb_spec c 128); [cbn; lia|].
  destruct (Z.ltb_spec c 2048); [cbn; lia|].
  destruct (Z.ltb_spec c 65536); [cbn; lia|lia].
Qed.

Lemma pair_length (hi lo : Z) :
  is_high_surrogate hi = true -> is_low_surrogate lo = true ->
  List.length (encode_code_point (pair_code_point hi lo)) = 4%nat.
Proof.
  intros Hh Hl. pose proof (Utf8Facts.pair_range hi lo Hh Hl) as R.
  now rewrite Utf8Facts.encode_4.
Qed.

Lemma encode_length (n : nat) :
  forall s, (List.length s <= n)%nat -> units s ->
    (List.length s <= List.length (encode s) <= 3 * List.length s)%nat
    /\ (List.length (encode s) = List.length s -> Forall (fun c => c < 128) s).
Proof.
  induction n as [|n IH]; intros [|c r] Hlen Hu;
    try (cbn [List.length] in Hlen; lia); try (cbn; split; [lia|constructor]).
  cbn [List.length] in Hlen.
  apply Forall_cons_iff in Hu as [Hc Hr].
  destruct (IH r ltac:(lia) Hr) as [Br Er].
  cbn [encode].
  destruct (is_high_surrogate c) eqn:Hh.
  - destruct r as [|d r']; [cbn; split; lia|].
    destruct (is_low_surrogate d) eqn:Hl.
    + apply Forall_cons_iff in Hr as [Hd Hr'].
      cbn [List.length] in Hlen.
      destruct (IH r' ltac:(lia) Hr') as [Br' _].
      rewrite length_app, pair_length by assumption.
      cbn [List.length]. split; lia.
    + rewrite length_app. cbn [List.length replacement] in *. split; lia.
  - destruct (is_low_surrogate c) eqn:Hl.
    + rewrite length_app. cbn [List.length replacement] in *. split; lia.
    + rewrite length_app. destruct (code_point_length c Hc) as [Bc Ec].
      cbn [List.length]. split; [lia|].
      intros E. constructor; [apply Ec; lia|apply Er; lia].
Qed.

Lemma encode_ascii (s : jsstring) :
  Forall (fun c => 0 <= c < 128) s -> encode s = s.
Proof.
  induction 1 as [|c r Hc Hr IH]; [reflexivity|].
  cbn [encode]. unfold is_high_surrogate, is_low_surrogate.
  destruct (Z.leb_spec 55296 c); [lia|]. cbn [andb].
  destruct (Z.leb_spec 56320 c); [lia|]. cbn [andb].
  now rewrite Utf8Facts.encode_1, IH by lia.
Qed.

Lemma split_length (sep : Z) (s : jsstring) :
  List.length (split sep s) = S (count_occ Z.eq_dec s sep).
Proof.
  induction s as [|c r IH]; [reflexivity|].
  cbn [split count_occ]. destruct (Z.eqb_spec c sep) as [->|Hc].
  - destruct (Z.eq_dec sep sep); [|contradiction]. cbn [List.length]. now rewrite IH.
  - destruct (Z.eq_dec c sep); [contradiction|].
    destruct (split sep r) as [|h t]; [discriminate|]. exact IH.
Qed.

Lemma count_words_inside (s : jsstring) :
  count_words false s
  = ((match s with
      | c :: _ => if is_js_space c then 0 else 1
      | [] => 0
      end) + count_words true s)%nat.
Proof.
  destruct s as [|c r]; [reflexivity|]. cbn [count_words].
  destruct (is_js_space c); reflexivity.
Qed.

(** The pieces of the text: the first one is empty exactly when the text
    begins with white space or is empty, and the pieces that are not empty
    are the words. *)
Lemma split_spaces_words (s : jsstring) :
  exists h t,
    Text.split_spaces s = h :: t
    /\ nonempty h = match s with
                    | c :: _ => negb (is_js_space c)
                    | [] => false
                    end
    /\ List.length (filter nonempty (h :: t)) = count_words false s.
Proof.
  induction s as [|c r (h & t & E & Hh & Hn)].
  - exists [], []. repeat split.
  - cbn [Text.split_spaces count_words]. destruct (is_js_space c) eqn:Hc.
    + destruct r as [|d r'].
      * exists [], [[]]. repeat split.
      * destruct (is_js_space d) eqn:Hd.
        -- exists h, t. rewrite E. repeat split; [exact Hh|exact Hn].
        -- exists [], (h :: t). rewrite E. repeat split. exact Hn.
    + rewrite E. exists (c :: h), t. repeat split.
      rewrite count_words_inside in Hn.
      cbn [filter] in *. change (nonempty (c :: h)) with true.
      cbn [List.length]. destruct (nonempty h) eqn:Eh.
      * cbn [List.length] in Hn. destruct r as [|d r']; [discriminate|].
        destruct (is_js_space d); [discriminate|]. lia.
      * destruct r as [|d r']; [cbn in *; lia|].
        destruct (is_js_space d); [cbn in *; lia|discriminate].
Qed.

Lemma count_words_none (inside : bool) (s : jsstring) :
  count_words inside s = 0%nat ->
  inside = true \/ forallb is_js_space s = true.
Proof.
  revert inside; induction s as [|c r IH]; intros inside H; [now right|].
  cbn [count_words forallb] in *. destruct (is_js_space c).
  - destruct (IH false H) as [|Hr]; [discriminate|now right].
  - destruct inside; [now left|discriminate].
Qed.

Lemma count_words_spaces (s : jsstring) :
  forallb is_js_space s = true -> count_words false s = 0%nat.
Proof.
  induction s as [|c r IH]; [reflexivity|]. cbn [forallb count_words].
  intros H. apply andb_true_iff in H as [-> Hr]. now apply IH.
Qed.

Lemma count_words_bound (s : jsstring) :
  (2 * count_words true s <= List.length s)%nat
  /\ (2 * count_words false s <= List.length s + 1)%nat.
Proof.
  induction s as [|c r [IH1 IH2]]; [cbn; lia|].
  cbn [count_words List.length]. destruct (is_js_space c); lia.
Qed.

End LengthFacts.

(** X5.  The sizes that stringLength reports for a text of 16-bit code
    units: bytes, the length of the UTF-8 form, is at least characters and at
    most three times characters, and equals characters exactly when every
    character is an ASCII character. *)
Theorem stringLength_bytes (text : jsstring) :
  TextSpec.units text ->
  (Text.characters (Text.stringLength text)
   <= Text.bytes (Text.stringLength text)
   <= 3 * Text.characters (Text.stringLength text))%nat
  /\ (Text.bytes (Text.stringLength text)
      = Text.characters (Text.stringLength text)
      <-> Forall (fun c => c < 128) text).
Proof.
  intros Hu. cbn [Text.stringLength Text.characters Text.bytes].
  destruct (LengthFacts.encode_length (List.length text) text (le_n _) Hu)
    as [B E].
  split; [exact B|split; [exact E|]].
  intros H. rewrite LengthFacts.encode_ascii; [reflexivity|].
  unfold TextSpec.units in Hu. rewrite Forall_forall in *.
  intros c Hc. specialize (H c Hc). specialize (Hu c Hc). lia.
Qed.

Lemma stringLength_bytes_witness :
  (Text.characters (Text.stringLength [110; 239; 8364; 55357; 56832]%Z)
   <= Text.bytes (Text.stringLength [110; 239; 8364; 55357; 56832]%Z)
   <= 3 * Text.characters (Text.stringLength [110; 239; 8364; 55357; 56832]%Z))%nat
  /\ (Text.bytes (Text.stringLength [110; 239; 8364; 55357; 56832])
      = Text.characters (Text.stringLength [110; 239; 8364; 55357; 56832])
      <-> Forall (fun c => c < 128) [110; 239; 8364; 55357; 56832]).
Proof.
  apply (stringLength_bytes [110; 239; 8364; 55357; 56832]).
  repeat constructor; cbn; lia.
Defined.

(** X6.  The counts that stringLength reports: lines is one more than the
    number of line feeds, so that the empty text has one line; words is the
    number of runs of characters other than white space, it is zero exactly
    when the text is empty or white space only, and twice it is at most one
    more than characters. *)
Theorem stringLength_counts :
  (forall text,
      Text.lines (Text.stringLength text) = S (count_occ Z.eq_dec text LF))
  /\ (forall text,
         Text.words (Text.stringLength text) = TextSpec.count_words false text)
  /\ (forall text,
         Text.words (Text.stringLength text) = 0%nat
         <-> forallb is_js_space text = true)
  /\ (forall text,
         2 * Text.words (Text.stringLength text)
         <= Text.characters (Text.stringLength text) + 1)%nat
  /\ Text.stringLength [] = {| Text.characters := 0; Text.bytes := 0;
                               Text.words := 0; Text.lines := 1 |}.
Proof.
  assert (Words : forall text,
             Text.words (Text.stringLength text)
             = TextSpec.count_words false text).
  { intros text. cbn [Text.stringLength Text.words].
    destruct (LengthFacts.split_spaces_words text) as (h & t & -> & _ & H).
    exact H. }
  split; [|split; [exact Words|split; [|split; [|reflexivity]]]].
  - intros text. apply LengthFacts.split_length.
  - intros text. rewrite Words. split.
    + intros H. apply LengthFacts.count_words_none in H as [H|H];
        [discriminate|exact H].
    + apply LengthFacts.count_words_spaces.
  - intros text. rewrite Words. cbn [Text.stringLength Text.characters].
    apply LengthFacts.count_words_bound.
Qed.

(** ** Regular expressions *)

Module RegexFacts.

Import Regex ValidatorSpec.

Lemma matches_repeat (least more : nat) (r : regex) (s : jsstring)
      (k : jsstring -> bool) :
  matches (Repeat least more r) s k
  = exactly (matches r) (upto (matches r) k more) least s.
Proof. reflexivity. Qed.

Section Loops.

Variable r : regex.
Hypothesis body :
  forall s k, matches r s k = true
              <-> exists s1 s2, s = s1 ++ s2 /\ lang r s1 /\ k s2 = true.

Lemma upto_spec (k : jsstring -> bool) (n : nat) :
  forall s,
    upto (matches r) k n s = true
    <-> exists pieces s2,
          s = List.concat pieces ++ s2 /\ Forall (lang r) pieces
          /\ (List.length pieces <= n)%nat /\ k s2 = true.
Proof.
  induction n as [|n IH]; intros s; cbn [upto].
  - split.
    + intros H. exists [], s. split; [reflexivity|]. split; [constructor|]. split; [cbn; lia|exact H].
    + intros (pieces & s2 & -> & _ & Hlen & Hk).
      destruct pieces; [exact Hk|cbn in Hlen; lia].
  - rewrite orb_true_iff, body. split.
    + intros [(s1 & s2 & -> & H1 & H2)|H].
      * apply IH in H2 as (pieces & s3 & -> & Hp & Hlen & Hk).
        exists (s1 :: pieces), s3. cbn [List.concat List.length].
        rewrite <- app_assoc. split; [reflexivity|]. split; [now constructor|]. split; [lia|exact Hk].
      * exists [], s. split; [reflexivity|]. split; [constructor|]. split; [cbn; lia|exact H].
    + intros (pieces & s2 & -> & Hp & Hlen & Hk).
      destruct pieces as [|p pieces]; [now right|left].
      apply Forall_cons_iff in Hp as [Hp Hps]. cbn [List.length] in Hlen.
      exists p, (List.concat pieces ++ s2). cbn [List.concat]. rewrite <- app_assoc.
      split; [reflexivity|]. split; [exact Hp|]. apply IH.
      exists pieces, s2. split; [reflexivity|]. split; [exact Hps|]. split; [lia|exact Hk].
Qed.

Lemma exactly_spec (rest : jsstring -> bool) (n : nat) :
  forall s,
    exactly (matches r) rest n s = true
    <-> exists pieces s2,
          s = List.concat pieces ++ s2 /\ Forall (lang r) pieces
          /\ List.length pieces = n /\ rest s2 = true.
Proof.
  induction n as [|n IH]; intros s; cbn [exactly].
  - split.
    + intros H. exists [], s. split; [reflexivity|]. split; [constructor|]. split; [reflexivity|exact H].
    + intros (pieces & s2 & -> & _ & Hlen & Hk).
      destruct pieces; [exact Hk|discriminate].
  - rewrite body. split.
    + intros (s1 & s2 & -> & H1 & H2).
      apply IH in H2 as (pieces & s3 & -> & Hp & Hlen & Hk).
      exists (s1 :: pieces), s3. cbn [List.concat List.length].
      rewrite <- app_assoc. split; [reflexivity|]. split; [now constructor|]. split; [lia|exact Hk].
    + intros (pieces & s2 & -> & Hp & Hlen & Hk).
      destruct pieces as [|p pieces]; [discriminate|].
      apply Forall_cons_iff in Hp as [Hp Hps]. cbn [List.length] in Hlen.
      exists p, (List.concat pieces ++ s2). cbn [List.concat]. rewrite <- app_assoc.
      split; [reflexivity|]. split; [exact Hp|]. apply IH.
      exists pieces, s2. split; [reflexivity|]. split; [exact Hps|]. split; [lia|exact Hk].
Qed.

End Loops.

(** The matcher finds a match exactly when there is one. *)
Lemma matches_spec (r : regex) :
  forall s k,
    matches r s k = true
    <-> exists s1 s2, s = s1 ++ s2 /\ lang r s1 /\ k s2 = true.
Proof.
  induction r as [p|a IHa b IHb|least more r IH]; intros s k.
  - cbn [matches lang]. split.
    + destruct s as [|c s]; [discriminate|]. intros H.
      apply andb_true_iff in H as [Hp Hk].
      exists [c], s. split; [reflexivity|]. split; [now exists c|exact Hk].
    + intros (s1 & s2 & -> & (c & -> & Hp) & Hk). cbn [app].
      now rewrite Hp, Hk.
  - cbn [matches lang]. rewrite IHa. split.
    + intros (s1 & s2 & -> & Ha & Hb). apply IHb in Hb as (s3 & s4 & -> & Hb & Hk).
      exists (s1 ++ s3), s4. split; [now rewrite app_assoc|].
      split; [now exists s1, s3|exact Hk].
    + intros (s12 & s4 & -> & (s1 & s3 & -> & Ha & Hb) & Hk).
      exists s1, (s3 ++ s4). split; [now rewrite app_assoc|].
      split; [exact Ha|]. apply IHb. now exists s3, s4.
  - rewrite matches_repeat, (exactly_spec r IH). cbn [lang]. split.
    + intros (p1 & s2 & -> & Hp1 & Hl1 & H).
      apply (upto_spec r IH) in H as (p2 & s3 & -> & Hp2 & Hl2 & Hk).
      exists (List.concat (p1 ++ p2)), s3.
      split; [now rewrite List.concat_app, <- app_assoc|].
      split; [|exact Hk].
      exists (p1 ++ p2). rewrite length_app.
      split; [reflexivity|]. split; [now apply Forall_app|lia].
    + intros (s1 & s3 & -> & (pieces & -> & Hp & Hlen) & Hk).
      rewrite <- (firstn_skipn least pieces) in Hp.
      apply Forall_app in Hp as [Hp1 Hp2].
      exists (firstn least pieces), (List.concat (skipn least pieces) ++ s3).
      split; [now rewrite app_assoc, <- List.concat_app, firstn_skipn|].
      split; [exact Hp1|].
      split; [apply firstn_length_le; lia|].
      apply (upto_spec r IH). exists (skipn least pieces), s3.
      split; [reflexivity|]. split; [exact Hp2|].
      split; [rewrite length_skipn; lia|exact Hk].
Qed.

Lemma test_spec (r : regex) (s : jsstring) : test r s = true <-> lang r s.
Proof.
  unfold test. rewrite matches_spec. split.
  - intros (s1 & s2 & -> & H & Hk). destruct s2; [|discriminate].
    now rewrite app_nil_r.
  - intros H. exists s, []. now rewrite app_nil_r.
Qed.

(** A repetition of a character class. *)
Lemma lang_group (p : Z -> bool) (least more : nat) (s : jsstring) :
  lang (Repeat least more (Class p)) s <-> group p least (least + more) s.
Proof.
  cbn [lang]. unfold group. split.
  - intros (pieces & -> & Hp & Hlen).
    assert (H : List.length (List.concat pieces) = List.length pieces
                /\ forallb p (List.concat pieces) = true).
    { clear Hlen. induction Hp as [|x l (c & -> & Hc) Hl [IH1 IH2]];
        [now split|].
      cbn [List.concat app List.length forallb]. now rewrite Hc, IH1, IH2. }
    destruct H as [-> H]. now split.
  - intros [Hlen Hp]. exists (map (fun c => [c]) s). repeat split.
    + clear Hlen Hp. induction s as [|c s IH]; [reflexivity|].
      cbn [map List.concat app]. now f_equal.
    + clear Hlen. induction s as [|c s IH]; [constructor|].
      cbn [forallb] in Hp. apply andb_true_iff in Hp as [Hc Hp].
      constructor; [now exists c|now apply IH].
    + rewrite length_map. lia.
    + rewrite length_map. lia.
Qed.

(** Groups that a separator follows, and a last group. *)
Lemma lang_groups (x : regex) (sep : Z) (n : nat) :
  forall s,
    lang (Cat (Repeat n 0 (Cat x (character sep))) x) s
    <-> exists groups,
          List.length groups = S n /\ Forall (lang x) groups
          /\ s = Json.join [sep] groups.
Proof.
  intros s. cbn [lang character]. split.
  - intros (s1 & s2 & -> & (pieces & -> & Hp & Hlen) & Hx).
    assert (Hn : List.length pieces = n) by lia. clear Hlen. subst n.
    induction Hp as [|piece pieces (g & c & -> & Hg & (c' & -> & Hc)) Hps IH].
    + exists [s2]. split; [reflexivity|]. split; [now constructor|reflexivity].
    + destruct IH as (groups & Hlen & Hgs & E).
      apply Z.eqb_eq in Hc. subst c'.
      exists (g :: groups). cbn [List.length List.concat].
      split; [now rewrite Hlen|]. split; [now constructor|].
      rewrite <- !app_assoc, E. destruct groups; [discriminate|reflexivity].
  - revert s. induction n as [|n IH]; intros s (groups & Hlen & Hgs & ->).
    + destruct groups as [|g [|]]; try discriminate.
      apply Forall_cons_iff in Hgs as [Hg _].
      exists [], g. split; [reflexivity|]. split; [|exact Hg].
      exists []. split; [reflexivity|]. split; [constructor|cbn; lia].
    + destruct groups as [|g groups]; [discriminate|].
      injection Hlen as Hlen. apply Forall_cons_iff in Hgs as [Hg Hgs].
      destruct (IH (Json.join [sep] groups))
        as (s1 & s2 & E & (pieces & -> & Hp & Hl) & Hx);
        [now exists groups|].
      exists ((g ++ [sep]) ++ List.concat pieces), s2.
      split; [|split; [|exact Hx]].
      * destruct groups as [|g' groups]; [discriminate|].
        change (Json.join [sep] (g :: g' :: groups))
          with (g ++ [sep] ++ Json.join [sep] (g' :: groups)).
        rewrite E. now rewrite <- !app_assoc.
      * exists ((g ++ [sep]) :: pieces). cbn [List.concat List.length].
        split; [reflexivity|]. split; [|lia].
        constructor; [|exact Hp].
        exists g, [sep]. split; [reflexivity|]. split; [exact Hg|].
        exists sep. split; [reflexivity|apply Z.eqb_refl].
Qed.

(** Splitting at the separator gives the groups back. *)
Lemma split_join (sep : Z) (groups : list jsstring) :
  groups <> [] -> Forall (fun g => ~ In sep g) groups ->
  split sep (Json.join [sep] groups) = groups.
Proof.
  intros Hne H. induction H as [|g groups Hg Hgs IH]; [contradiction|].
  clear Hne.
  assert (One : forall rest, split sep (g ++ sep :: rest) = g :: split sep rest).
  { intros rest. induction g as [|c g IHg].
    - cbn [app split]. now rewrite Z.eqb_refl.
    - cbn [app split]. destruct (Z.eqb_spec c sep) as [->|_].
      + exfalso. apply Hg. now left.
      + rewrite IHg; [reflexivity|]. intros Hin. apply Hg. now right. }
  destruct groups as [|g' groups].
  - cbn [Json.join]. clear IH One. induction g as [|c g IHg]; [reflexivity|].
    cbn [split]. destruct (Z.eqb_spec c sep) as [->|_].
    + exfalso. apply Hg. now left.
    + rewrite IHg; [reflexivity|]. intros Hin. apply Hg. now right.
  - change (Json.join [sep] (g :: g' :: groups))
      with (g ++ sep :: Json.join [sep] (g' :: groups)).
    rewrite One, IH; [reflexivity|discriminate].
Qed.

End RegexFacts.

(** ** The validators *)

Module ValidatorFacts.

Import Regex Validators ValidatorSpec RegexFacts.

Lemma digit_not_space (c : Z) : is_digit c = true -> is_js_space c = false.
Proof. unfold is_digit, is_js_space. lia. Qed.

Lemma take_while_all_of (p : Z -> bool) (s : jsstring) :
  forallb p s = true -> Text.take_while p s = s.
Proof.
  induction s as [|c s IH]; [reflexivity|]. cbn [forallb Text.take_while].
  intros H. apply andb_true_iff in H as [-> H]. now rewrite IH.
Qed.

Lemma radix_value_digits (acc : Z) (g : jsstring) :
  forallb is_digit g = true ->
  radix_value 10 acc g = Obj.digits_value acc g.
Proof.
  revert acc; induction g as [|d g IH]; intros acc H; [reflexivity|].
  cbn [forallb] in H. apply andb_true_iff in H as [Hd H].
  cbn [radix_value Obj.digits_value]. unfold Uri.hex_value. rewrite Hd.
  now rewrite IH.
Qed.

Lemma digits_value_nonneg (g : jsstring) (acc : Z) :
  forallb is_digit g = true -> 0 <= acc -> 0 <= Obj.digits_value acc g.
Proof.
  revert acc; induction g as [|d g IH]; intros acc H Hacc; [exact Hacc|].
  cbn [forallb] in H. apply andb_true_iff in H as [Hd H].
  cbn [Obj.digits_value]. apply IH; [exact H|]. unfold is_digit in Hd. lia.
Qed.

(** parseInt on a group of digits. *)
Lemma parseInt_digits (g : jsstring) :
  g <> [] -> forallb is_digit g = true ->
  parseInt g = Some (Obj.digits_value 0 g).
Proof.
  intros Hne H. destruct g as [|c r]; [contradiction|].
  pose proof H as Hall. cbn [forallb] in H.
  apply andb_true_iff in H as [Hc Hr].
  unfold parseInt. cbn [drop_while]. rewrite (digit_not_space c Hc).
  assert (Hc' : 48 <= c <= 57) by (unfold is_digit in Hc; lia).
  destruct (Z.eqb_spec c 45); [lia|]. destruct (Z.eqb_spec c 43); [lia|].
  assert (Decimal : parse_digits 10 is_digit (c :: r)
                    = Some (Obj.digits_value 0 (c :: r))).
  { unfold parse_digits. rewrite take_while_all_of by exact Hall.
    now rewrite radix_value_digits. }
  unfold parse_unsigned. destruct r as [|x r]; [exact Decimal|].
  cbn [forallb] in Hr. apply andb_true_iff in Hr as [Hx _].
  assert (Hx' : 48 <= x <= 57) by (unfold is_digit in Hx; lia).
  destruct (Z.eqb_spec x 120); [lia|]. destruct (Z.eqb_spec x 88); [lia|].
  rewrite andb_false_r. exact Decimal.
Qed.

Lemma group_digits (g : jsstring) :
  lang (Repeat 1 2 (Class is_digit)) g <-> group is_digit 1 3 g.
Proof. apply lang_group. Qed.

Lemma group_hex (g : jsstring) :
  lang (Repeat 1 3 (Class is_hex)) g <-> group is_hex 1 4 g.
Proof. apply lang_group. Qed.

Lemma forall_groups (x : regex) (P : jsstring -> Prop) (groups : list jsstring) :
  (forall g, lang x g <-> P g) ->
  Forall (lang x) groups <-> Forall P groups.
Proof.
  intros H. rewrite !Forall_forall. split; intros Hg g Hin; apply H, Hg, Hin.
Qed.

(** The texts that the expression of dotted addresses matches. *)
Lemma ipv4_shape (ip : jsstring) :
  test ipv4Regex ip = true
  <-> exists groups,
        List.length groups = 4%nat /\ Forall (group is_digit 1 3) groups
        /\ ip = Json.join [46] groups.
Proof.
  rewrite test_spec. unfold ipv4Regex. rewrite lang_groups.
  split; intros (groups & Hlen & Hg & E); exists groups;
    (split; [exact Hlen|split; [|exact E]]);
    now apply (forall_groups _ _ groups group_digits).
Qed.

Lemma ipv6_shape (ip : jsstring) :
  test ipv6Regex ip = true
  <-> exists groups,
        List.length groups = 8%nat /\ Forall (group is_hex 1 4) groups
        /\ ip = Json.join [58] groups.
Proof.
  rewrite test_spec. unfold ipv6Regex. rewrite lang_groups.
  split; intros (groups & Hlen & Hg & E); exists groups;
    (split; [exact Hlen|split; [|exact E]]);
    now apply (forall_groups _ _ groups group_hex).
Qed.

Lemma group_without (p : Z -> bool) (sep : Z) (least most : nat)
      (groups : list jsstring) :
  p sep = false -> Forall (group p least most) groups ->
  Forall (fun g => ~ In sep g) groups.
Proof.
  intros Hsep H. rewrite Forall_forall in *. intros g Hin Hg.
  destruct (H g Hin) as [_ Hp]. rewrite forallb_forall in Hp.
  rewrite (Hp sep Hg) in Hsep. discriminate.
Qed.

Lemma in_join (sep : Z) (groups : list jsstring) (c : Z) :
  In c (Json.join [sep] groups) -> c = sep \/ exists g, In g groups /\ In c g.
Proof.
  induction groups as [|g [|g' groups] IH]; intros H.
  - destruct H.
  - right. exists g. split; [now left|exact H].
  - change (Json.join [sep] (g :: g' :: groups))
      with (g ++ [sep] ++ Json.join [sep] (g' :: groups)) in H.
    apply in_app_or in H as [H|H]; [right; exists g; split; [now left|exact H]|].
    apply in_app_or in H as [[H|[]]|H]; [now left|].
    destruct (IH H) as [?|(g0 & Hin & Hc)]; [now left|].
    right. exists g0. split; [now right|exact Hc].
Qed.

Lemma join_separator (sep : Z) (g g' : jsstring) (groups : list jsstring) :
  In sep (Json.join [sep] (g :: g' :: groups)).
Proof.
  change (Json.join [sep] (g :: g' :: groups))
    with (g ++ [sep] ++ Json.join [sep] (g' :: groups)).
  apply in_or_app. right. now left.
Qed.

(** The two expressions match no text in common. *)
Lemma ipv4_not_ipv6 (ip : jsstring) :
  test ipv4Regex ip = true -> test ipv6Regex ip = false.
Proof.
  intros H4. destruct (test ipv6Regex ip) eqn:H6; [|reflexivity].
  apply ipv4_shape in H4 as (g4 & Hl4 & _ & E4).
  apply ipv6_shape in H6 as (g6 & _ & Hg6 & E6).
  assert (Hdot : In 46 ip).
  { rewrite E4. destruct g4 as [|a [|b g4]]; try discriminate.
    apply join_separator. }
  rewrite E6 in Hdot. apply in_join in Hdot as [Hdot|(g & Hin & Hdot)];
    [discriminate|].
  rewrite Forall_forall in Hg6. destruct (Hg6 g Hin) as [_ Hp].
  rewrite forallb_forall in Hp. specialize (Hp 46 Hdot). discriminate.
Qed.

(** The parts of a dotted address that the expression has matched. *)
Lemma octets_valid (groups : list jsstring) :
  Forall (group is_digit 1 3) groups ->
  forallb (fun part =>
             match parseInt part with
             | Some num => (0 <=? num) && (num <=? 255)
             | None => false
             end) groups = true
  <-> Forall octet groups.
Proof.
  induction 1 as [|g groups Hg Hgs IH]; [split; [constructor|reflexivity]|].
  cbn [forallb]. rewrite andb_true_iff, Forall_cons_iff, IH.
  destruct Hg as [Hlen Hd].
  assert (Hne : g <> []) by (destruct g; [cbn in Hlen; lia|discriminate]).
  rewrite (parseInt_digits g Hne Hd).
  pose proof (digits_value_nonneg g 0 Hd ltac:(lia)) as Hpos.
  unfold octet, group. intuition lia.
Qed.

Lemma dotted_valid (ip : jsstring) :
  ipAddressValidator ip = {| type := "IPv4"; valid := true |}
  <-> exists groups,
        List.length groups = 4%nat /\ Forall octet groups
        /\ ip = Json.join [46] groups.
Proof.
  unfold ipAddressValidator. cbv zeta. split.
  - destruct (test ipv4Regex ip) eqn:H4.
    + intros [= Hv]. apply ipv4_shape in H4 as (groups & Hlen & Hg & E).
      exists groups. split; [exact Hlen|split; [|exact E]].
      rewrite E, split_join in Hv.
      * now apply octets_valid in Hv.
      * destruct groups; discriminate.
      * now apply (group_without is_digit 46 1 3).
    + destruct (test ipv6Regex ip); discriminate.
  - intros (groups & Hlen & Ho & E).
    assert (Hg : Forall (group is_digit 1 3) groups).
    { rewrite Forall_forall in *. intros g Hin. apply Ho, Hin. }
    assert (H4 : test ipv4Regex ip = true) by (apply ipv4_shape; eauto).
    rewrite H4. f_equal. rewrite E, split_join.
    + now apply octets_valid.
    + destruct groups; discriminate.
    + now apply (group_without is_digit 46 1 3).
Qed.

(** The decimal text of a byte is an octet. *)
Lemma decimal_octet (b : Z) :
  0 <= b <= 255 ->
  octet (IntegerNumbers.decimal b) /\ Obj.digits_value 0 (IntegerNumbers.decimal b) = b.
Proof.
  intros Hb.
  assert (H : (fun b =>
                 Nat.leb 1 (List.length (IntegerNumbers.decimal b))
                 && Nat.leb (List.length (IntegerNumbers.decimal b)) 3
                 && forallb is_digit (IntegerNumbers.decimal b)
                 && (Obj.digits_value 0 (IntegerNumbers.decimal b) =? b)) b
              = true).
  { apply (Base64Facts.for_all_bytes
             (fun b =>
                Nat.leb 1 (List.length (IntegerNumbers.decimal b))
                && Nat.leb (List.length (IntegerNumbers.decimal b)) 3
                && forallb is_digit (IntegerNumbers.decimal b)
                && (Obj.digits_value 0 (IntegerNumbers.decimal b) =? b)));
      [vm_compute; reflexivity|unfold byte; lia]. }
  cbv beta in H. rewrite !andb_true_iff in H.
  destruct H as [[[H1 H2] H3] H4].
  apply Nat.leb_le in H1, H2. apply Z.eqb_eq in H4.
  unfold octet, group. rewrite H4. repeat split; try assumption; lia.
Qed.

(** The empty piece between two separators. *)
Lemma split_empty_piece (sep : Z) (a b : jsstring) :
  In [] (tl (split sep (a ++ sep :: sep :: b))).
Proof.
  induction a as [|c a IH].
  - cbn [app split]. rewrite Z.eqb_refl. cbn [tl]. now left.
  - cbn [app split]. destruct (c =? sep).
    + cbn [tl]. destruct (split sep (a ++ sep :: sep :: b)); [destruct IH|].
      right. exact IH.
    + destruct (split sep (a ++ sep :: sep :: b)); [destruct IH|exact IH].
Qed.

Lemma mac_test (mac : jsstring) : macAddressValidator mac = mac_shape mac.
Proof.
  unfold macAddressValidator, mac_shape, test, macRegex.
  do 18 (destruct mac as [|? mac];
         [cbn; rewrite ?andb_false_r; try reflexivity|]).
  cbn. now rewrite ?andb_false_r.
Qed.

(** A change of the characters that keeps the class of each one keeps the
    shape. *)
Lemma mac_shape_map (f : Z -> Z) (mac : jsstring) :
  (forall c, is_hex (f c) = is_hex c) ->
  (forall c, (f c =? 58) || (f c =? 45) = (c =? 58) || (c =? 45)) ->
  mac_shape (map f mac) = mac_shape mac.
Proof.
  intros Hhex Hsep. unfold mac_shape. rewrite length_map. f_equal.
  generalize (seq 0 17). intros l. revert l.
  induction mac as [|c mac IH]; intros [|i l]; try reflexivity.
  cbn [map combine forallb fst snd]. now rewrite Hhex, Hsep, IH.
Qed.

Lemma not_dotted (a b : jsstring) : test ipv4Regex (a ++ js "::" ++ b) = false.
Proof.
  destruct (test ipv4Regex (a ++ js "::" ++ b)) eqn:H; [|reflexivity].
  apply ipv4_shape in H as (groups & _ & Hg & E).
  assert (Hin : In 58 (Json.join [46] groups)).
  { rewrite <- E. apply in_or_app. right. now left. }
  apply in_join in Hin as [Hin|(g & Hin & Hc)]; [discriminate|].
  rewrite Forall_forall in Hg. destruct (Hg g Hin) as [_ Hp].
  rewrite forallb_forall in Hp. specialize (Hp 58 Hc). discriminate.
Qed.

Lemma not_colon_groups (a b : jsstring) :
  test ipv6Regex (a ++ js "::" ++ b) = false.
Proof.
  destruct (test ipv6Regex (a ++ js "::" ++ b)) eqn:H; [|reflexivity].
  apply ipv6_shape in H as (groups & Hlen & Hg & E).
  pose proof (split_empty_piece 58 a b) as Hempty.
  change (a ++ 58 :: 58 :: b) with (a ++ js "::" ++ b) in Hempty.
  rewrite E, split_join in Hempty.
  - assert (Hin : In [] groups) by (destruct groups; [destruct Hempty|now right]).
    rewrite Forall_forall in Hg. destruct (Hg [] Hin) as [Hl _].
    cbn in Hl. lia.
  - destruct groups; discriminate.
  - now apply (group_without is_hex 58 1 4).
Qed.

End ValidatorFacts.

(** X7.  ipAddressValidator on dotted addresses: the type is IPv4 exactly
    for four groups of one to three digits that dots separate, and such an
    address is valid exactly when the number of each group is at most 255;
    leading zeros are accepted.  The decimal texts of four numbers from 0 to
    255, with dots between them, are a valid address. *)
Theorem ipAddressValidator_dotted :
  (forall ip,
      Validators.type (Validators.ipAddressValidator ip) = "IPv4"%string
      <-> exists groups,
            List.length groups = 4%nat
            /\ Forall (ValidatorSpec.group is_digit 1 3) groups
            /\ ip = Json.join [46] groups)
  /\ (forall ip,
         Validators.ipAddressValidator ip
         = {| Validators.type := "IPv4"; Validators.valid := true |}
         <-> exists groups,
               List.length groups = 4%nat
               /\ Forall ValidatorSpec.octet groups
               /\ ip = Json.join [46] groups)
  /\ (forall a b c d,
         0 <= a <= 255 -> 0 <= b <= 255 -> 0 <= c <= 255 -> 0 <= d <= 255 ->
         Validators.ipAddressValidator
           (IntegerNumbers.decimal a ++ [46] ++ IntegerNumbers.decimal b ++ [46]
            ++ IntegerNumbers.decimal c ++ [46] ++ IntegerNumbers.decimal d)
         = {| Validators.type := "IPv4"; Validators.valid := true |}).
Proof.
  split; [|split].
  - intros ip. rewrite <- ValidatorFacts.ipv4_shape.
    unfold Validators.ipAddressValidator. cbv zeta.
    destruct (Regex.test Validators.ipv4Regex ip).
    + cbn. tauto.
    + destruct (Regex.test Validators.ipv6Regex ip); cbn;
        split; discriminate.
  - exact ValidatorFacts.dotted_valid.
  - intros a b c d Ha Hb Hc Hd. apply ValidatorFacts.dotted_valid.
    exists [IntegerNumbers.decimal a; IntegerNumbers.decimal b;
            IntegerNumbers.decimal c; IntegerNumbers.decimal d].
    split; [reflexivity|]. split; [|reflexivity].
    repeat (apply Forall_cons; [now apply ValidatorFacts.decimal_octet|]).
    constructor.
Qed.

(** X8.  ipAddressValidator on addresses with colons: the result is IPv6
    and valid exactly for eight groups of one to four hexadecimal digits that
    colons separate.  An address that is shortened with two colons in a row
    is answered with the type unknown and is not valid. *)
Theorem ipAddressValidator_colons :
  (forall ip,
      Validators.ipAddressValidator ip
      = {| Validators.type := "IPv6"; Validators.valid := true |}
      <-> exists groups,
            List.length groups = 8%nat
            /\ Forall (ValidatorSpec.group Regex.is_hex 1 4) groups
            /\ ip = Json.join [58] groups)
  /\ (forall a b,
         Validators.ipAddressValidator (a ++ js "::" ++ b)
         = {| Validators.type := "unknown"; Validators.valid := false |}).
Proof.
  split.
  - intros ip. rewrite <- ValidatorFacts.ipv6_shape.
    unfold Validators.ipAddressValidator. cbv zeta.
    destruct (Regex.test Validators.ipv4Regex ip) eqn:H4.
    + rewrite (ValidatorFacts.ipv4_not_ipv6 ip H4). split; discriminate.
    + destruct (Regex.test Validators.ipv6Regex ip); split;
        try discriminate; reflexivity.
  - intros a b. unfold Validators.ipAddressValidator.
    now rewrite ValidatorFacts.not_dotted, ValidatorFacts.not_colon_groups.
Qed.

(** X9.  macAddressValidator accepts exactly the texts of seventeen
    characters in which every third character is a colon or a hyphen and the
    others are hexadecimal digits.  The two separators can be mixed: the
    answer is the same when every hyphen is written as a colon; and the case
    of the digits does not count. *)
Theorem macAddressValidator_shape :
  (forall mac, Validators.macAddressValidator mac = ValidatorSpec.mac_shape mac)
  /\ (forall mac,
         Validators.macAddressValidator
           (map (fun c => if c =? 45 then 58 else c) mac)
         = Validators.macAddressValidator mac)
  /\ (forall mac,
         Validators.macAddressValidator
           (map (fun c => if (65 <=? c) && (c <=? 70) then c + 32 else c) mac)
         = Validators.macAddressValidator mac).
Proof.
  split; [exact ValidatorFacts.mac_test|split]; intros mac;
    rewrite !ValidatorFacts.mac_test; apply ValidatorFacts.mac_shape_map;
    intros c.
  - destruct (Z.eqb_spec c 45) as [->|]; reflexivity.
  - destruct (Z.eqb_spec c 45) as [->|Hc]; [reflexivity|].
    destruct (Z.eqb_spec c 45); [contradiction|reflexivity].
  - destruct ((65 <=? c) && (c <=? 70)) eqn:E; [|reflexivity].
    unfold Regex.is_hex, is_digit. lia.
  - destruct ((65 <=? c) && (c <=? 70)) eqn:E; [|reflexivity]. lia.
Qed.

(** ** jsonToXml *)

Module XmlFacts.

Import Json Xml XmlSpec.

Section WithNumbers.
Context {M : NumberModel}.

(** objectToXml fails exactly on a null element, with the TypeError of
    Object.entries. *)
Lemma objectToXml_result (v : value) :
  forall tagName,
    if null_element v
    then objectToXml v tagName = Throw XmlSpec.null_error
    else exists xml, objectToXml v tagName = Ok xml.
Proof.
  induction v as [| b | n | s | items IH | props IH]
    using JsonFacts.value_induction; intros tagName;
    try (cbn; eauto; fail).
  - cbn [objectToXml null_element].
    generalize (singular tagName). intros tag.
    assert (Each :
      if existsb null_element items
      then (fix each (items : list value) : result (list jsstring) :=
              match items with
              | [] => Ok []
              | item :: rest =>
                  (part <- objectToXml item tag ;;
                   parts <- each rest ;;
                   Ok (part :: parts))%js
              end) items = Throw XmlSpec.null_error
      else exists parts,
          (fix each (items : list value) : result (list jsstring) :=
              match items with
              | [] => Ok []
              | item :: rest =>
                  (part <- objectToXml item tag ;;
                   parts <- each rest ;;
                   Ok (part :: parts))%js
              end) items = Ok parts).
    { induction IH as [|item items Hitem Hitems IHitems]; [cbn; eauto|].
      cbn [existsb]. specialize (Hitem tag).
      destruct (null_element item).
      - cbn [orb]. now rewrite Hitem.
      - cbn [orb]. destruct Hitem as [part ->]. cbn [bind].
        destruct (existsb null_element items).
        + now rewrite IHitems.
        + destruct IHitems as [parts ->]. cbn [bind]. eauto. }
    destruct (existsb null_element items).
    + now rewrite Each.
    + destruct Each as [parts ->]. cbn [bind]. eauto.
  - cbn [objectToXml null_element].
    induction IH as [|[key value] props Hvalue Hprops IHprops]; [cbn; eauto|].
    cbn [existsb snd]. cbn [snd] in Hvalue. specialize (Hvalue key).
    assert (Piece :
      if match value with
         | VArr _ | VObj _ => null_element value
         | _ => false
         end
      then match value with
           | VArr _ | VObj _ =>
               (inner <- objectToXml value key ;;
                Ok (opening key ++ [LF] ++ inner ++ closing key ++ [LF]))%js
           | _ =>
               Ok (opening key ++ Text.escapeXml (string_of value)
                   ++ closing key ++ [LF])
           end = Throw XmlSpec.null_error
      else exists piece,
          match value with
          | VArr _ | VObj _ =>
              (inner <- objectToXml value key ;;
               Ok (opening key ++ [LF] ++ inner ++ closing key ++ [LF]))%js
          | _ =>
              Ok (opening key ++ Text.escapeXml (string_of value)
                  ++ closing key ++ [LF])
          end = Ok piece).
    { destruct value; try (eexists; reflexivity).
      - destruct (null_element (VArr items)).
        + now rewrite Hvalue.
        + destruct Hvalue as [inner ->]. cbn [bind]. eauto.
      - destruct (null_element (VObj props0)).
        + now rewrite Hvalue.
        + destruct Hvalue as [inner ->]. cbn [bind]. eauto. }
    destruct (match value with
              | VArr _ | VObj _ => null_element value
              | _ => false
              end).
    + cbn [orb]. now rewrite Piece.
    + cbn [orb]. destruct Piece as [piece ->]. cbn [bind].
      destruct (existsb _ props).
      * now rewrite IHprops.
      * destruct IHprops as [xml ->]. cbn [bind]. eauto.
Qed.

(** Numbers and booleans as elements leave nothing but the line feeds
    between the elements. *)
Lemma scalars_dropped (items : list value) (tagName : jsstring) :
  forallb plain_scalar items = true ->
  objectToXml (VArr items) tagName
  = Ok (repeat LF (Nat.pred (List.length items))).
Proof.
  intros H. cbn [objectToXml]. generalize (singular tagName). intros tag.
  assert (Each :
    (fix each (items : list value) : result (list jsstring) :=
       match items with
       | [] => Ok []
       | item :: rest =>
           (part <- objectToXml item tag ;;
            parts <- each rest ;;
            Ok (part :: parts))%js
       end) items = Ok (map (fun _ => []) items)).
  { induction items as [|item items IH]; [reflexivity|].
    cbn [forallb] in H. apply andb_true_iff in H as [Hitem H].
    rewrite (IH H). destruct item; try discriminate; reflexivity. }
  rewrite Each. cbn [bind]. f_equal. clear.
  induction items as [|a [|b items] IH]; try reflexivity.
  change (Json.join [LF] (map (fun _ => []) (a :: b :: items)))
    with (LF :: Json.join [LF] (map (fun _ : value => @nil Z) (b :: items))).
  rewrite IH. reflexivity.
Qed.

End WithNumbers.

End XmlFacts.

(** X10.  jsonToXml rejects more than the texts that are no JSON: it throws
    its error Invalid JSON for XML conversion exactly when the text is no
    JSON or the value holds a null element, that is when the value is null
    or has a null among the elements of an array; the null value of a
    property is written as the text null.  Every other JSON text is
    converted. *)
Theorem jsonToXml_errors {M : Json.NumberModel} :
  (forall j,
      Xml.jsonToXml j = Throw (Error "Invalid JSON for XML conversion")
      <-> Json.parse j = None
          \/ exists v, Json.parse j = Some v /\ XmlSpec.null_element v = true)
  /\ (forall j v,
         Json.parse j = Some v -> XmlSpec.null_element v = false ->
         exists xml,
           Xml.objectToXml v (js "root") = Ok xml
           /\ Xml.jsonToXml j = Ok (Xml.declaration ++ xml))
  /\ Xml.jsonToXml (jq "[null]")
     = Throw (Error "Invalid JSON for XML conversion")
  /\ Xml.jsonToXml (jq "{'a': null}")
     = Ok (Xml.declaration ++ js "<a>null</a>" ++ [LF]).
Proof.
  assert (Converted : forall j v,
             Json.parse j = Some v -> XmlSpec.null_element v = false ->
             exists xml,
               Xml.objectToXml v (js "root") = Ok xml
               /\ Xml.jsonToXml j = Ok (Xml.declaration ++ xml)).
  { intros j v Hv Hnull.
    pose proof (XmlFacts.objectToXml_result v (js "root")) as H.
    rewrite Hnull in H. destruct H as [xml H]. exists xml. split; [exact H|].
    unfold Xml.jsonToXml, Codec.JSON_parse. rewrite Hv. cbn [bind].
    now rewrite H. }
  split; [|split; [exact Converted|split; reflexivity]].
  intros j. split.
  - destruct (Json.parse j) as [v|] eqn:Hv; [|now left].
    intros H. right. exists v. split; [reflexivity|].
    destruct (XmlSpec.null_element v) eqn:Hnull; [reflexivity|].
    destruct (Converted j v Hv Hnull) as (xml & _ & E). congruence.
  - unfold Xml.jsonToXml, Codec.JSON_parse.
    intros [Hv|(v & Hv & Hnull)]; rewrite Hv; [reflexivity|].
    cbn [bind]. pose proof (XmlFacts.objectToXml_result v (js "root")) as H.
    rewrite Hnull in H. now rewrite H.
Qed.

(** X11.  What jsonToXml drops without an error: a number or a boolean that
    is the whole document or an element of an array is not written.  An
    array of numbers and booleans gives only the line feeds between its
    elements, and a document that is a number or a boolean gives the XML
    declaration alone. *)
Theorem jsonToXml_drops_scalars {M : Json.NumberModel} :
  (forall items tagName,
      forallb XmlSpec.plain_scalar items = true ->
      Xml.objectToXml (Json.VArr items) tagName
      = Ok (repeat LF (Nat.pred (List.length items))))
  /\ (forall j v,
         Json.parse j = Some v -> XmlSpec.plain_scalar v = true ->
         Xml.jsonToXml j = Ok Xml.declaration).
Proof.
  split; [exact XmlFacts.scalars_dropped|].
  intros j v Hv Hs. unfold Xml.jsonToXml, Codec.JSON_parse. rewrite Hv.
  destruct v; try discriminate;
    cbn [bind try_catch Xml.objectToXml]; now rewrite app_nil_r.
Qed.

(** ** The generators *)

Module GeneratorFacts.

Import Generators GeneratorSpec.

Lemma charAt_in (s : jsstring) (i : nat) :
  (i < List.length s)%nat -> exists c, charAt s i = [c] /\ In c s.
Proof.
  intros H. unfold charAt. destruct (nth_error s i) as [c|] eqn:E.
  - exists c. split; [reflexivity|]. now apply nth_error_In in E.
  - apply nth_error_None in E. lia.
Qed.

Lemma password_characters_nonempty (options : Options) :
  (0 < List.length (password_characters options))%nat.
Proof.
  unfold password_characters. cbv zeta.
  destruct (_ ++ _) as [|c chars] eqn:E; cbn; lia.
Qed.

Section Random.

Variable random_index : nat -> nat -> nat.
Hypothesis in_range : forall k n, (0 < n)%nat -> (random_index k n < n)%nat.

(** Every turn of the loop appends one character of the alphabet. *)
Lemma drawn (chars : jsstring) (turns : list nat) :
  (0 < List.length chars)%nat ->
  List.length (flat_map (fun i => charAt chars (random_index i (List.length chars)))
                        turns) = List.length turns
  /\ Forall (fun c => In c chars)
            (flat_map (fun i => charAt chars (random_index i (List.length chars)))
                      turns).
Proof.
  intros Hne. induction turns as [|i turns [IHl IHf]]; [now split|].
  cbn [flat_map]. destruct (charAt_in chars _ (in_range i _ Hne)) as (c & -> & Hc).
  cbn [app List.length]. split; [now rewrite IHl|now constructor].
Qed.

End Random.

Lemma class_of_options {M : Json.NumberModel} (pwdType : Json.value) :
  forallb (password_class pwdType) (password_characters (password_options pwdType))
  = true.
Proof.
  unfold password_class, password_options. cbv zeta.
  destruct pwdType as [| | |s| |]; try reflexivity.
  destruct (str_eqb s (js "alphanumeric")); [reflexivity|].
  destruct (str_eqb s (js "letters")); [reflexivity|].
  destruct (str_eqb s (js "numbers")); reflexivity.
Qed.

Lemma hex_length (buffer : list Z) :
  List.length (hex buffer) = (2 * List.length buffer)%nat.
Proof.
  induction buffer as [|b buffer IH]; [reflexivity|].
  unfold hex in *. cbn [flat_map app List.length]. rewrite IH. lia.
Qed.

Lemma hex_digits (buffer : list Z) :
  Forall byte buffer -> forallb is_lower_hex (hex buffer) = true.
Proof.
  induction 1 as [|b buffer Hb Hbs IH]; [reflexivity|].
  cbn [hex flat_map app forallb]. fold (hex buffer). rewrite IH.
  assert (H : (fun b => is_lower_hex (Json.hex_lower (Z.shiftr b 4))
                        && is_lower_hex (Json.hex_lower (Z.land b 15))) b = true).
  { apply (Base64Facts.for_all_bytes
             (fun b => is_lower_hex (Json.hex_lower (Z.shiftr b 4))
                       && is_lower_hex (Json.hex_lower (Z.land b 15))));
      [vm_compute; reflexivity|exact Hb]. }
  cbv beta in H. apply andb_true_iff in H as [-> ->]. reflexivity.
Qed.

Lemma div2_double (n : nat) : (n <= 2 * Nat.div2 (S n))%nat.
Proof.
  induction n as [n IH] using (well_founded_induction lt_wf).
  destruct n as [|[|n]]; [cbn; lia|cbn; lia|].
  specialize (IH n ltac:(lia)). cbn [Nat.div2] in *. lia.
Qed.

End GeneratorFacts.

(** X12.  generatePassword, when every random index is below the number of
    characters to draw from, returns as many characters as the length asks
    for, each one from the characters that the options select, which are
    never none.  With the options that the router builds from the type of
    the request, a password of the type numbers holds digits only, one of
    the type letters holds letters only, one of the type alphanumeric holds
    letters and digits only, and one of any other type may hold the
    symbols too. *)
Theorem generatePassword_shape (random_index : nat -> nat -> nat) :
  (forall k n, (0 < n)%nat -> (random_index k n < n)%nat) ->
  (forall length options,
      List.length (Generators.generatePassword random_index length options)
      = Z.to_nat length
      /\ Forall (fun c => In c (Generators.password_characters options))
                (Generators.generatePassword random_index length options))
  /\ (forall (M : Json.NumberModel) length pwdType,
         forallb (GeneratorSpec.password_class pwdType)
                 (Generators.generatePassword random_index length
                    (Generators.password_options pwdType)) = true).
Proof.
  intros in_range.
  assert (Shape : forall length options,
      List.length (Generators.generatePassword random_index length options)
      = Z.to_nat length
      /\ Forall (fun c => In c (Generators.password_characters options))
                (Generators.generatePassword random_index length options)).
  { intros length options. unfold Generators.generatePassword. cbv zeta.
    destruct (GeneratorFacts.drawn random_index in_range
                (Generators.password_characters options) (seq 0 (Z.to_nat length))
                (GeneratorFacts.password_characters_nonempty options))
      as [Hl Hf].
    split; [now rewrite Hl, length_seq|exact Hf]. }
  split; [exact Shape|].
  intros M length pwdType.
  destruct (Shape length (Generators.password_options pwdType)) as [_ Hin].
  pose proof (GeneratorFacts.class_of_options pwdType) as Hclass.
  rewrite forallb_forall in *. rewrite Forall_forall in Hin.
  intros c Hc. apply Hclass, Hin, Hc.
Qed.

Lemma generatePassword_shape_witness :
  (forall length options,
      List.length
        (Generators.generatePassword (fun k n => Nat.modulo (7 * k + 3) n)
           length options)
      = Z.to_nat length
      /\ Forall (fun c => In c (Generators.password_characters options))
                (Generators.generatePassword
                   (fun k n => Nat.modulo (7 * k + 3) n) length options))
  /\ (forall (M : Json.NumberModel) length pwdType,
         forallb (GeneratorSpec.password_class pwdType)
                 (Generators.generatePassword
                    (fun k n => Nat.modulo (7 * k + 3) n) length
                    (Generators.password_options pwdType)) = true).
Proof.
  apply (generatePassword_shape (fun k n => Nat.modulo (7 * k + 3) n)).
  intros k n Hn. apply Nat.mod_upper_bound. lia.
Defined.

(** X13.  generateRandomString, when the platform returns a buffer of the
    size asked for, returns exactly as many characters as the length asks
    for, each a hexadecimal digit in lower case; for an odd length the last
    digit of the last byte is cut off, and for an even length nothing is. *)
Theorem generateRandomString_shape (random_bytes : nat -> list Z) :
  (forall n, List.length (random_bytes n) = n /\ Forall byte (random_bytes n)) ->
  forall length,
    List.length (Generators.generateRandomString random_bytes length) = length
    /\ forallb GeneratorSpec.is_lower_hex
               (Generators.generateRandomString random_bytes length) = true
    /\ exists cut,
         Generators.hex (random_bytes (Nat.div2 (S length)))
         = Generators.generateRandomString random_bytes length ++ cut
         /\ List.length cut = if Nat.odd length then 1%nat else 0%nat.
Proof.
  intros Hbytes length. unfold Generators.generateRandomString.
  destruct (Hbytes (Nat.div2 (S length))) as [Hl Hb]. split; [|split].
  - apply firstn_length_le. rewrite GeneratorFacts.hex_length, Hl.
    apply GeneratorFacts.div2_double.
  - pose proof (GeneratorFacts.hex_digits _ Hb) as H.
    rewrite forallb_forall in *. intros c Hc. apply H.
    rewrite <- (firstn_skipn length). apply in_or_app. now left.
  - exists (skipn length (Generators.hex (random_bytes (Nat.div2 (S length))))).
    split; [symmetry; apply firstn_skipn|].
    rewrite length_skipn, GeneratorFacts.hex_length, Hl.
    pose proof (Nat.div2_odd (S length)) as E.
    rewrite Nat.odd_succ, <- Nat.negb_odd in E.
    destruct (Nat.odd length); cbn [negb Nat.b2n] in E; lia.
Qed.

Lemma generateRandomString_shape_witness :
  List.length
    (Generators.generateRandomString
       (fun n => map (fun i => Z.of_nat (Nat.modulo (37 * i + 11) 256)) (seq 0 n))
       7) = 7%nat
  /\ forallb GeneratorSpec.is_lower_hex
       (Generators.generateRandomString
          (fun n => map (fun i => Z.of_nat (Nat.modulo (37 * i + 11) 256)) (seq 0 n))
          7) = true
  /\ exists cut,
       Generators.hex
         (map (fun i => Z.of_nat (Nat.modulo (37 * i + 11) 256)) (seq 0 4))
       = Generators.generateRandomString
           (fun n => map (fun i => Z.of_nat (Nat.modulo (37 * i + 11) 256))
                         (seq 0 n))
           7 ++ cut
       /\ List.length cut = 1%nat.
Proof.
  apply (generateRandomString_shape
           (fun n => map (fun i => Z.of_nat (Nat.modulo (37 * i + 11) 256)) (seq 0 n))).
  intros n. split; [now rewrite length_map, length_seq|].
  apply Forall_forall. intros b Hb. apply in_map_iff in Hb as (i & <- & _).
  pose proof (Nat.mod_upper_bound (37 * i + 11) 256 ltac:(lia)).
  unfold byte. lia.
Defined.

(** ** urlEncode and urlDecode *)

Module UrlFacts.

Import Uri Utf8 TextSpec.

Lemma units_cons (c : Z) (r : jsstring) :
  units (c :: r) <-> 0 <= c < 65536 /\ units r.
Proof. apply Forall_cons_iff. Qed.

(** A code unit that is no surrogate is a scalar value. *)
Lemma unit_is_scalar (c : Z) :
  0 <= c < 65536 -> is_high_surrogate c = false -> is_low_surrogate c = false ->
  unit_scalar c.
Proof.
  unfold unit_scalar, is_surrogate, is_high_surrogate, is_low_surrogate. lia.
Qed.

(** encodeURIComponent throws on a surrogate that is not half of a pair. *)
Lemma encode_throws (n : nat) :
  forall s, (List.length s <= n)%nat -> units s -> well_formed s = false ->
            encodeURIComponent s = Throw URIError.
Proof.
  induction n as [|n IH]; intros [|c r] Hlen Hu Hwf; try discriminate;
    cbn [List.length] in Hlen; [lia|].
  apply units_cons in Hu as [Hc Hr].
  cbn [encodeURIComponent well_formed] in *.
  destruct (unescaped c) eqn:Hun.
  - apply UriFacts.unescaped_ascii in Hun as [Hascii _].
    assert (Hh : is_high_surrogate c = false) by (unfold is_high_surrogate; lia).
    assert (Hl : is_low_surrogate c = false) by (unfold is_low_surrogate; lia).
    rewrite Hh, Hl in Hwf.
    assert (Hwr : well_formed r = false).
    { destruct (well_formed r); [|reflexivity].
      destruct (Z.leb_spec 0 c); [|lia]. destruct (Z.ltb_spec c 65536); [|lia].
      discriminate. }
    now rewrite (IH r ltac:(lia) Hr Hwr).
  - destruct (is_high_surrogate c) eqn:Hh.
    + destruct r as [|d r']; [reflexivity|].
      destruct (is_low_surrogate d) eqn:Hl; [|reflexivity].
      apply units_cons in Hr as [_ Hr']. cbn [List.length] in Hlen.
      cbn [andb] in Hwf. now rewrite (IH r' ltac:(lia) Hr' Hwf).
    + destruct (is_low_surrogate c) eqn:Hl; [reflexivity|].
      assert (Hwr : well_formed r = false).
      { destruct (well_formed r); [|reflexivity].
        destruct (Z.leb_spec 0 c); [|lia]. destruct (Z.ltb_spec c 65536); [|lia].
        discriminate. }
      now rewrite (IH r ltac:(lia) Hr Hwr).
Qed.

Lemma percent_safe (b : Z) : byte b -> Forall uri_safe (percent b).
Proof.
  intros Hb.
  assert (H : (fun b => unescaped (hex_digit (Z.shiftr b 4))
                        && unescaped (hex_digit (Z.land b 15))) b = true).
  { apply (Base64Facts.for_all_bytes
             (fun b => unescaped (hex_digit (Z.shiftr b 4))
                       && unescaped (hex_digit (Z.land b 15))));
      [vm_compute; reflexivity|exact Hb]. }
  cbv beta in H. apply andb_true_iff in H as [H1 H2].
  unfold percent, uri_safe.
  constructor; [now right|]. constructor; [now left|].
  constructor; [now left|constructor].
Qed.

Lemma percent_all_safe (bs : list Z) : Forall byte bs -> Forall uri_safe (percent_all bs).
Proof.
  induction 1 as [|b bs Hb Hbs IH]; [constructor|].
  unfold percent_all in *. cbn [flat_map]. apply Forall_app.
  split; [now apply percent_safe|exact IH].
Qed.

(** What encodeURIComponent writes: unescaped characters and escapes. *)
Lemma encode_safe (n : nat) :
  forall s e, (List.length s <= n)%nat -> units s ->
              encodeURIComponent s = Ok e -> Forall uri_safe e.
Proof.
  induction n as [|n IH]; intros [|c r] e Hlen Hu H;
    try (injection H as <-; constructor);
    cbn [List.length] in Hlen; [lia|].
  apply units_cons in Hu as [Hc Hr]. cbn [encodeURIComponent] in H.
  destruct (unescaped c) eqn:Hun.
  - destruct (encodeURIComponent r) as [e'|] eqn:E; [|discriminate].
    injection H as <-. constructor; [left; exact Hun|].
    apply (IH r e' ltac:(lia) Hr E).
  - destruct (is_high_surrogate c) eqn:Hh.
    + destruct r as [|d r']; [discriminate|].
      destruct (is_low_surrogate d) eqn:Hl; [|discriminate].
      apply units_cons in Hr as [_ Hr']. cbn [List.length] in Hlen.
      destruct (encodeURIComponent r') as [e'|] eqn:E; [|discriminate].
      injection H as <-. apply Forall_app. split.
      * apply percent_all_safe, Utf8RoundTrip.code_point_bytes.
        now apply Utf8RoundTrip.pair_scalar.
      * apply (IH r' e' ltac:(lia) Hr' E).
    + destruct (is_low_surrogate c) eqn:Hl; [discriminate|].
      destruct (encodeURIComponent r) as [e'|] eqn:E; [|discriminate].
      injection H as <-. apply Forall_app. split.
      * apply percent_all_safe, Utf8RoundTrip.code_point_bytes.
        now apply Utf8RoundTrip.unit_scalar_scalar, unit_is_scalar.
      * apply (IH r e' ltac:(lia) Hr E).
Qed.

Lemma decode_plain (s : jsstring) :
  ~ In 37 s -> decodeURIComponent s = Ok s.
Proof.
  unfold decodeURIComponent. induction s as [|c s IH]; intros H; [reflexivity|].
  cbn [decode_loop]. destruct (Z.eqb_spec c 37) as [->|_].
  - exfalso. apply H. now left.
  - rewrite IH; [reflexivity|]. intros Hin. apply H. now right.
Qed.

Lemma decode_malformed (before rest : jsstring) :
  ~ In 37 before -> read_escape (37 :: rest) = None ->
  decodeURIComponent (before ++ 37 :: rest) = Throw URIError.
Proof.
  unfold decodeURIComponent. intros Hb Hr.
  induction before as [|c before IH].
  - cbn [app decode_loop]. rewrite Z.eqb_refl. unfold decode_at.
    now rewrite Hr.
  - cbn [app decode_loop]. destruct (Z.eqb_spec c 37) as [->|_].
    + exfalso. apply Hb. now left.
    + rewrite IH; [reflexivity|]. intros Hin. apply Hb. now right.
Qed.

End UrlFacts.

(** X14.  urlEncode on a text of 16-bit code units: it throws the URIError
    exactly when the text holds a surrogate that is not half of a pair, and
    what it returns otherwise holds unescaped characters (letters, digits
    and [- _ . ! ~ * ' ( )]) and percent signs only, so no space, ampersand,
    equals sign, plus sign, slash, question mark or hash. *)
Theorem urlEncode_result (text : jsstring) :
  TextSpec.units text ->
  (Codec.urlEncode text = Throw Uri.URIError
   <-> Utf8.well_formed text = false)
  /\ (forall encoded,
         Codec.urlEncode text = Ok encoded ->
         Utf8.well_formed text = true
         /\ Forall (fun c => Uri.unescaped c = true \/ c = 37) encoded).
Proof.
  intros Hu. unfold Codec.urlEncode. split.
  - split.
    + intros H. destruct (Utf8.well_formed text) eqn:Hwf; [|reflexivity].
      destruct (UriFacts.uri_decode_encode text Hwf) as (e & He & _).
      congruence.
    + now apply (UrlFacts.encode_throws (List.length text)).
  - intros encoded H. split.
    + destruct (Utf8.well_formed text) eqn:Hwf; [reflexivity|].
      rewrite (UrlFacts.encode_throws (List.length text) text (le_n _) Hu Hwf) in H.
      discriminate.
    + now apply (UrlFacts.encode_safe (List.length text) text).
Qed.

Lemma urlEncode_result_witness :
  (Codec.urlEncode (js "a b&c=" ++ [233; 55357; 56832; 55357]) = Throw Uri.URIError
   <-> Utf8.well_formed (js "a b&c=" ++ [233; 55357; 56832; 55357]) = false)
  /\ (forall encoded,
         Codec.urlEncode (js "a b&c=" ++ [233; 55357; 56832; 55357]) = Ok encoded ->
         Utf8.well_formed (js "a b&c=" ++ [233; 55357; 56832; 55357]) = true
         /\ Forall (fun c => Uri.unescaped c = true \/ c = 37) encoded).
Proof.
  apply (urlEncode_result (js "a b&c=" ++ [233; 55357; 56832; 55357])).
  repeat constructor; cbn; lia.
Defined.

(** X15.  urlDecode gives back a text without a percent sign as it is, a
    plus sign included, which is not read as a space; and it throws the
    URIError when the first percent sign of the text is not followed by two
    hexadecimal digits. *)
Theorem urlDecode_edges :
  (forall encoded, ~ In 37 encoded -> Codec.urlDecode encoded = Ok encoded)
  /\ (forall before rest,
         ~ In 37 before -> Uri.read_escape (37 :: rest) = None ->
         Codec.urlDecode (before ++ 37 :: rest) = Throw Uri.URIError)
  /\ Codec.urlDecode (js "a+b") = Ok (js "a+b")
  /\ Codec.urlDecode (js "100%") = Throw Uri.URIError.
Proof.
  split; [exact UrlFacts.decode_plain|].
  split; [exact UrlFacts.decode_malformed|].
  split; reflexivity.
Qed.

(** ** base64Encode and jwtDecode *)

Module Base64Shape.

Import Base64 Utf8 TextSpec.

(** The UTF-8 form of any text of 16-bit code units is made of bytes. *)
Lemma encode_units_bytes (n : nat) :
  forall s, (List.length s <= n)%nat -> units s -> Forall byte (Utf8.encode s).
Proof.
  assert (Replacement : Forall byte replacement)
    by (repeat constructor; unfold byte; lia).
  induction n as [|n IH]; intros [|c r] Hlen Hu; try constructor;
    cbn [List.length] in Hlen; [lia|].
  apply UrlFacts.units_cons in Hu as [Hc Hr]. cbn [Utf8.encode].
  destruct (is_high_surrogate c) eqn:Hh.
  - destruct r as [|d r']; [exact Replacement|].
    destruct (is_low_surrogate d) eqn:Hl.
    + apply UrlFacts.units_cons in Hr as [_ Hr']. cbn [List.length] in Hlen.
      apply Forall_app. split.
      * now apply Utf8RoundTrip.code_point_bytes, Utf8RoundTrip.pair_scalar.
      * apply IH; [lia|exact Hr'].
    + apply Forall_app. split; [exact Replacement|]. apply IH; [lia|exact Hr].
  - destruct (is_low_surrogate c) eqn:Hl.
    + apply Forall_app. split; [exact Replacement|]. apply IH; [lia|exact Hr].
    + apply Forall_app. split.
      * now apply Utf8RoundTrip.code_point_bytes, Utf8RoundTrip.unit_scalar_scalar,
          UrlFacts.unit_is_scalar.
      * apply IH; [lia|exact Hr].
Qed.

Lemma char_of_alphabet (v : Z) : 0 <= v < 64 -> In (char_of v) alphabet.
Proof.
  intros H. unfold char_of. apply nth_In.
  change (List.length alphabet) with 64%nat. lia.
Qed.

(** The base64 text of a buffer: characters of the alphabet, then the
    padding. *)
Lemma encode_shape (buffer : list Z) :
  Forall byte buffer ->
  exists body,
    Base64.encode buffer
    = body ++ repeat 61 (Nat.modulo (3 - Nat.modulo (List.length buffer) 3) 3)
    /\ Forall (fun c => In c alphabet) body
    /\ List.length (Base64.encode buffer)
       = (4 * Nat.div (List.length buffer + 2) 3)%nat.
Proof.
  induction buffer as [|a|a b|a b c r IH] using Base64RoundTrip.list_ind3;
    intros Hall.
  - exists []. repeat split. constructor.
  - apply Forall_cons_iff in Hall as [Ha _].
    eexists [_; _]. cbn [Base64.encode]. split; [reflexivity|]. split; [|reflexivity].
    apply Forall_cons; [apply char_of_alphabet; now apply Base64RoundTrip.sextet1|].
    apply Forall_cons; [apply char_of_alphabet; now apply Base64RoundTrip.sextet2_last|].
    apply Forall_nil.
  - apply Forall_cons_iff in Hall as [Ha Hall].
    apply Forall_cons_iff in Hall as [Hb _].
    eexists [_; _; _]. cbn [Base64.encode]. split; [reflexivity|]. split; [|reflexivity].
    apply Forall_cons; [apply char_of_alphabet; now apply Base64RoundTrip.sextet1|].
    apply Forall_cons; [apply char_of_alphabet; now apply Base64RoundTrip.sextet2|].
    apply Forall_cons; [apply char_of_alphabet; now apply Base64RoundTrip.sextet3_last|].
    apply Forall_nil.
  - apply Forall_cons_iff in Hall as [Ha Hall].
    apply Forall_cons_iff in Hall as [Hb Hall].
    apply Forall_cons_iff in Hall as [Hc Hall].
    destruct (IH Hall) as (body & E & Hbody & Hlen).
    eexists (_ :: _ :: _ :: _ :: body). cbn [Base64.encode]. split; [|split].
    + rewrite E. cbn [app List.length].
      replace (S (S (S (List.length r)))) with (List.length r + 1 * 3)%nat by lia.
      now rewrite Nat.Div0.mod_add.
    + apply Forall_cons; [apply char_of_alphabet; now apply Base64RoundTrip.sextet1|].
      apply Forall_cons; [apply char_of_alphabet; now apply Base64RoundTrip.sextet2|].
      apply Forall_cons; [apply char_of_alphabet; now apply Base64RoundTrip.sextet3|].
      apply Forall_cons; [apply char_of_alphabet; now apply Base64RoundTrip.sextet4|].
      exact Hbody.
    + cbn [List.length]. rewrite Hlen.
      replace (S (S (S (List.length r))) + 2)%nat
        with (List.length r + 2 + 1 * 3)%nat by lia.
      rewrite Nat.div_add by lia. lia.
Qed.

Lemma encode_no_dot (text : jsstring) :
  units text -> ~ In 46 (Codec.base64Encode text).
Proof.
  intros Hu. unfold Codec.base64Encode.
  destruct (encode_shape (Utf8.encode text)
              (encode_units_bytes _ text (le_n _) Hu)) as (body & -> & Hbody & _).
  intros Hin. apply in_app_or in Hin as [Hin|Hin].
  - rewrite Forall_forall in Hbody. specialize (Hbody 46 Hin).
    vm_compute in Hbody. intuition discriminate.
  - apply repeat_spec in Hin. discriminate.
Qed.

Lemma well_formed_units (s : jsstring) : well_formed s = true -> units s.
Proof.
  revert s. apply (Utf8RoundTrip.well_formed_ind units).
  - constructor.
  - intros c r [Hc _] _ IH. now constructor.
  - intros hi lo r Hh Hl _ IH.
    unfold is_high_surrogate in Hh. unfold is_low_surrogate in Hl.
    constructor; [lia|]. constructor; [lia|exact IH].
Qed.

End Base64Shape.

(** X16.  base64Encode on a text of 16-bit code units returns characters of
    the base64 alphabet followed by the padding: no, one or two equals signs,
    which make the length the next multiple of four of the length that the
    UTF-8 bytes of the text need. *)
Theorem base64Encode_shape (text : jsstring) :
  TextSpec.units text ->
  exists body,
    Codec.base64Encode text
    = body ++ repeat 61
               (Nat.modulo (3 - Nat.modulo (List.length (Utf8.encode text)) 3) 3)
    /\ Forall (fun c => In c Base64.alphabet) body
    /\ List.length (Codec.base64Encode text)
       = (4 * Nat.div (List.length (Utf8.encode text) + 2) 3)%nat.
Proof.
  intros Hu. apply Base64Shape.encode_shape.
  now apply (Base64Shape.encode_units_bytes (List.length text)).
Qed.

Lemma base64Encode_shape_witness :
  exists body,
    Codec.base64Encode [104; 233; 8364; 55357]
    = body ++ repeat 61
               (Nat.modulo
                  (3 - Nat.modulo
                         (List.length (Utf8.encode [104; 233; 8364; 55357])) 3)
                  3)
    /\ Forall (fun c => In c Base64.alphabet) body
    /\ List.length (Codec.base64Encode [104; 233; 8364; 55357])
       = Nat.mul 4 (Nat.div (List.length (Utf8.encode [104; 233; 8364; 55357]) + 2) 3).
Proof.
  apply (base64Encode_shape [104; 233; 8364; 55357]).
  repeat constructor; cbn; lia.
Defined.

(** X17.  jwtDecode reads a token without checking it: the third segment,
    the signature, has no part in the result, and any token whose first two
    segments are the base64 texts of two JSON texts is decoded to the values
    of these texts. *)
Theorem jwtDecode_unverified {M : Json.NumberModel} :
  (forall header payload signature signature',
      ~ In 46 header -> ~ In 46 payload ->
      ~ In 46 signature -> ~ In 46 signature' ->
      Codec.jwtDecode (header ++ [46] ++ payload ++ [46] ++ signature)
      = Codec.jwtDecode (header ++ [46] ++ payload ++ [46] ++ signature'))
  /\ (forall header payload signature h p,
         Utf8.well_formed header = true -> Utf8.well_formed payload = true ->
         Json.parse header = Some h -> Json.parse payload = Some p ->
         ~ In 46 signature ->
         Codec.jwtDecode (Codec.base64Encode header ++ [46]
                          ++ Codec.base64Encode payload ++ [46] ++ signature)
         = Ok (h, p)).
Proof.
  assert (Parts : forall a b c,
             ~ In 46 a -> ~ In 46 b -> ~ In 46 c ->
             split 46 (a ++ [46] ++ b ++ [46] ++ c) = [a; b; c]).
  { intros a b c Ha Hb Hc.
    apply (RegexFacts.split_join 46 [a; b; c]); [discriminate|].
    repeat constructor; assumption. }
  split.
  - intros header payload signature signature' Hh Hp Hs Hs'.
    unfold Codec.jwtDecode. cbv zeta. now rewrite !Parts by assumption.
  - intros header payload signature h p Hwh Hwp Hh Hp Hs.
    unfold Codec.jwtDecode. cbv zeta.
    rewrite Parts
      by (try assumption; apply Base64Shape.encode_no_dot;
          now apply Base64Shape.well_formed_units).
    cbn [List.length Nat.eqb negb bind nth]. unfold Codec.base64Encode.
    rewrite !Base64RoundTrip.base64_decode_encode
      by now apply Utf8RoundTrip.encode_bytes.
    rewrite !Utf8RoundTrip.utf8_decode_encode by assumption.
    unfold Codec.JSON_parse. now rewrite Hh, Hp.
Qed.

(** ** formatJSON after minifyJSON *)

(** X18.  formatJSON and minifyJSON undo each other up to the layout: for
    every text that JSON.parse accepts, minifying the formatted text gives
    the minified text, and formatting the minified text gives the formatted
    text. *)
Theorem format_and_minify {M : Json.NumberModel} {L : Json.NumberLaws M}
        (j : jsstring) :
  (exists v, Json.parse j = Some v) ->
  exists minified formatted,
    Codec.minifyJSON j = Ok minified
    /\ Codec.formatJSON j = Ok formatted
    /\ Codec.minifyJSON formatted = Ok minified
    /\ Codec.formatJSON minified = Ok formatted.
Proof.
  intros [v Hv]. pose proof (JsonFacts.parse_builds j v Hv) as Hwb.
  exists (Json.stringify v), (Json.stringify2 v).
  unfold Codec.minifyJSON, Codec.formatJSON, Codec.JSON_parse,
    Json.stringify, Json.stringify2.
  rewrite Hv, (JsonFacts.parse_serialize v [] Hwb eq_refl),
    (JsonFacts.parse_serialize v [32; 32] Hwb eq_refl).
  cbn [bind try_catch]. rewrite !JsonFacts.serialize_normalize by exact Hwb.
  repeat split.
Qed.

Lemma format_and_minify_witness :
  exists minified formatted,
    Codec.minifyJSON (M := IntegerNumbers.model)
      (jq "{ 'b': [1, 20, {}],  '10': 'x', '2': null }") = Ok minified
    /\ Codec.formatJSON (M := IntegerNumbers.model)
         (jq "{ 'b': [1, 20, {}],  '10': 'x', '2': null }") = Ok formatted
    /\ Codec.minifyJSON (M := IntegerNumbers.model) formatted = Ok minified
    /\ Codec.formatJSON (M := IntegerNumbers.model) minified = Ok formatted.
Proof.
  apply (@format_and_minify IntegerNumbers.model IntegerFacts.laws).
  eexists. vm_compute. reflexivity.
Defined.

(** ** The formatted number of creditCardValidator *)

Module CardFormatFacts.

Import Tools.

Lemma digit_no_space (c : Z) : is_digit c = true -> is_js_space c = false.
Proof. unfold is_digit, is_js_space. lia. Qed.

Lemma digit_not_blank (c : Z) : is_digit c = true -> negb (c =? 32) = true.
Proof. unfold is_digit. lia. Qed.

Lemma digits_without_blanks (d : jsstring) :
  forallb is_digit d = true -> filter (fun c => negb (c =? 32)) d = d.
Proof.
  induction d as [|c d IH]; [reflexivity|]. cbn [forallb filter]. intros H.
  apply andb_true_iff in H as [Hc Hd]. now rewrite (digit_not_blank c Hc), IH.
Qed.

Lemma cleaned_digits (number : jsstring) :
  forallb is_digit (filter is_digit number) = true.
Proof.
  apply forallb_forall. intros c Hc. now apply filter_In in Hc.
Qed.

Ltac digit_facts :=
  repeat match goal with
         | H : _ && _ = true |- _ => apply andb_true_iff in H as [? H]
         end.

Ltac use_digits :=
  repeat match goal with
         | H : is_digit ?x = true |- context [is_digit ?x] => rewrite H
         | H : is_digit ?x = true |- context [is_js_space ?x] =>
             rewrite (digit_no_space x H)
         | H : is_digit ?x = true |- context [negb (?x =? 32)] =>
             rewrite (digit_not_blank x H)
         end.

(** Sixteen digits: four groups of four. *)
Lemma format_sixteen (d : jsstring) :
  forallb is_digit d = true -> List.length d = 16%nat ->
  formatCardNumber d
  = firstn 4 d ++ [32] ++ firstn 4 (skipn 4 d) ++ [32]
    ++ firstn 4 (skipn 8 d) ++ [32] ++ skipn 12 d.
Proof.
  intros Hd Hlen.
  do 16 (destruct d as [|? d]; [discriminate Hlen|]).
  destruct d as [|? d]; [|discriminate Hlen].
  cbn [forallb] in Hd. digit_facts. unfold formatCardNumber.
  cbn [List.length Nat.eqb group4]. use_digits. cbn [andb group4].
  unfold trim. cbn [drop_while]. use_digits. cbn [rev app drop_while].
  change (is_js_space 32) with true. cbv iota. use_digits. reflexivity.
Qed.

(** Fifteen digits: groups of four, six and five. *)
Lemma format_fifteen (d : jsstring) :
  forallb is_digit d = true -> List.length d = 15%nat ->
  formatCardNumber d
  = firstn 4 d ++ [32] ++ firstn 6 (skipn 4 d) ++ [32] ++ skipn 10 d.
Proof.
  intros Hd Hlen. unfold formatCardNumber. now rewrite Hlen, Hd.
Qed.

Lemma format_other (d : jsstring) :
  List.length d <> 16%nat -> List.length d <> 15%nat -> formatCardNumber d = d.
Proof.
  intros H16 H15. unfold formatCardNumber.
  apply Nat.eqb_neq in H16, H15. now rewrite H16, H15.
Qed.

Lemma formatted_cleaned (number : jsstring) :
  formatted (creditCardValidator number)
  = formatCardNumber (filter is_digit number).
Proof.
  unfold creditCardValidator.
  now destruct (fold_left luhn_step (rev (filter is_digit number)) (0, false)).
Qed.

End CardFormatFacts.

(** X19.  The formatted number that creditCardValidator returns is made of
    the digits of its argument, in their order, and of spaces only: sixteen
    digits are written in four groups of four, fifteen digits in groups of
    four, six and five, and any other number of digits is left as it is. *)
Theorem creditCardValidator_formatted (number : jsstring) :
  filter (fun c => negb (c =? 32))
         (Tools.formatted (Tools.creditCardValidator number))
  = filter is_digit number
  /\ (List.length (filter is_digit number) = 16%nat ->
      Tools.formatted (Tools.creditCardValidator number)
      = firstn 4 (filter is_digit number) ++ [32]
        ++ firstn 4 (skipn 4 (filter is_digit number)) ++ [32]
        ++ firstn 4 (skipn 8 (filter is_digit number)) ++ [32]
        ++ skipn 12 (filter is_digit number))
  /\ (List.length (filter is_digit number) = 15%nat ->
      Tools.formatted (Tools.creditCardValidator number)
      = firstn 4 (filter is_digit number) ++ [32]
        ++ firstn 6 (skipn 4 (filter is_digit number)) ++ [32]
        ++ skipn 10 (filter is_digit number))
  /\ (List.length (filter is_digit number) <> 16%nat ->
      List.length (filter is_digit number) <> 15%nat ->
      Tools.formatted (Tools.creditCardValidator number)
      = filter is_digit number).
Proof.
  rewrite CardFormatFacts.formatted_cleaned.
  pose proof (CardFormatFacts.cleaned_digits number) as Hd.
  set (d := filter is_digit number) in *.
  assert (Parts : forall u v,
             filter (fun c => negb (c =? 32)) (u ++ [32] ++ v)
             = filter (fun c => negb (c =? 32)) u
               ++ filter (fun c => negb (c =? 32)) v)
    by (intros u v; now rewrite !filter_app).
  split; [|split; [|split]].
  - destruct (Nat.eq_dec (List.length d) 16) as [H16|H16];
      [|destruct (Nat.eq_dec (List.length d) 15) as [H15|H15]].
    + rewrite CardFormatFacts.format_sixteen by assumption.
      assert (Split : firstn 4 d ++ firstn 4 (skipn 4 d)
                      ++ firstn 4 (skipn 8 d) ++ skipn 12 d = d).
      { change 12%nat with (4 + 8)%nat. rewrite <- skipn_skipn, firstn_skipn.
        change 8%nat with (4 + 4)%nat. rewrite <- skipn_skipn, firstn_skipn.
        apply firstn_skipn. }
      rewrite !Parts, <- !filter_app, Split.
      now apply CardFormatFacts.digits_without_blanks.
    + rewrite CardFormatFacts.format_fifteen by assumption.
      assert (Split : firstn 4 d ++ firstn 6 (skipn 4 d) ++ skipn 10 d = d).
      { change 10%nat with (6 + 4)%nat. rewrite <- skipn_skipn, firstn_skipn.
        apply firstn_skipn. }
      rewrite !Parts, <- !filter_app, Split.
      now apply CardFormatFacts.digits_without_blanks.
    + rewrite CardFormatFacts.format_other by assumption.
      now apply CardFormatFacts.digits_without_blanks.
  - now apply CardFormatFacts.format_sixteen.
  - now apply CardFormatFacts.format_fifteen.
  - now apply CardFormatFacts.format_other.
Qed.

(** ** The request listener: visits, methods and paths *)

Module ListenerFacts.

Import Json Server VisitorSpec.

Lemma health_is_api (p : jsstring) :
  str_eqb p (js "api/health") = true -> api_path p = true.
Proof. intros H. apply str_eqb_eq in H. now subst p. Qed.

Lemma track_is_api (p : jsstring) :
  str_eqb p (js "api/visitors/track") = true -> api_path p = true.
Proof. intros H. apply str_eqb_eq in H. now subst p. Qed.

Lemma drop_slashes (i : nat) (s : jsstring) :
  drop_while (Z.eqb 47) (repeat 47 i ++ s) = drop_while (Z.eqb 47) s.
Proof. induction i as [|i IH]; [reflexivity|exact IH]. Qed.

Lemma rev_repeat (c : Z) (i : nat) : rev (repeat c i) = repeat c i.
Proof.
  induction i as [|i IH]; [reflexivity|]. cbn [repeat rev]. rewrite IH.
  change [c] with (repeat c 1). rewrite <- repeat_app.
  now replace (i + 1)%nat with (S i) by lia.
Qed.

Lemma drop_while_app (p : Z -> bool) (s t : jsstring) :
  drop_while p s <> [] -> drop_while p (s ++ t) = drop_while p s ++ t.
Proof.
  induction s as [|c s IH]; [now intros []|]. cbn [drop_while app].
  destruct (p c); [exact IH|reflexivity].
Qed.

Lemma drop_while_all (p : Z -> bool) (s t : jsstring) :
  drop_while p s = [] -> drop_while p (s ++ t) = drop_while p t.
Proof.
  induction s as [|c s IH]; [reflexivity|]. cbn [drop_while app].
  destruct (p c); [exact IH|discriminate].
Qed.

Lemma trim_outer_slashes (i j : nat) (p : jsstring) :
  trim_slashes (repeat 47 i ++ p ++ repeat 47 j) = trim_slashes p.
Proof.
  unfold trim_slashes. rewrite drop_slashes.
  destruct (drop_while (Z.eqb 47) p) as [|c r] eqn:E.
  - rewrite (drop_while_all _ p _ E).
    rewrite <- (app_nil_r (repeat 47 j)), drop_slashes. reflexivity.
  - rewrite drop_while_app by (rewrite E; discriminate).
    rewrite E, rev_app_distr, rev_repeat. now rewrite drop_slashes.
Qed.

Section WithNumbers.
Context {M : NumberModel}.

(** A call leaves the counters alone that it does not name. *)
Lemma track_other (type : value) (key k : jsstring) (now : Z) (f : file) (m : Z) :
  to_string type = Ok key ->
  key <> k -> k <> js "total" -> k <> js "lastUpdated" ->
  counter_of k f = Some (CNum m) ->
  counter_of k (snd (trackVisitor type now f)) = Some (CNum m).
Proof.
  intros Hkey Hneq Ht Hl Hm.
  rewrite (VisitorFacts.trackVisitor_written type key now f Hkey). cbv zeta.
  unfold counter_of at 1.
  rewrite VisitorFacts.get_persisted, VisitorFacts.get_assign_other
    by (intros E; apply Hl; now rewrite E).
  rewrite <- (VisitorFacts.counter_of_stats k now f) in Hm by assumption.
  assert (Hinc : Obj.get (increment (getVisitorStats now f) (js "total")) k
                 = Some (CNum m)).
  { rewrite VisitorFacts.get_increment_other
      by (intros E; apply Ht; now rewrite E).
    exact Hm. }
  destruct (defined _ key).
  - rewrite VisitorFacts.get_increment_other by assumption. now rewrite Hinc.
  - rewrite VisitorFacts.get_assign_other by assumption. now rewrite Hinc.
Qed.

(** A call of type api adds one to api. *)
Lemma track_api (now : Z) (f : file) (m : Z) :
  counter_of (js "api") f = Some (CNum m) ->
  counter_of (js "api") (snd (trackVisitor (VStr (js "api")) now f))
  = Some (CNum (m + 1)).
Proof.
  intros Hm.
  rewrite (VisitorFacts.trackVisitor_written (VStr (js "api")) (js "api") now f
             eq_refl).
  cbv zeta. unfold counter_of at 1.
  rewrite VisitorFacts.get_persisted, VisitorFacts.get_assign_other by discriminate.
  rewrite <- (VisitorFacts.counter_of_stats (js "api") now f) in Hm by discriminate.
  assert (Hapi : Obj.get (increment (getVisitorStats now f) (js "total"))
                         (js "api") = Some (CNum m)).
  { rewrite VisitorFacts.get_increment_other by discriminate. exact Hm. }
  rewrite (VisitorFacts.defined_own _ _ _ Hapi).
  now rewrite (VisitorFacts.get_increment_number _ _ _ Hapi).
Qed.

(** The file after a request that does not name its type: the file after
    the visits that the request makes. *)
Lemma server_file (now : Z) (req : request) (f : file) :
  tracking_call req = false ->
  snd (server now req f)
  = let f := if web_visit req
             then snd (trackVisitor (VStr (js "web")) now f) else f in
    if api_visit req then snd (trackVisitor (VStr (js "api")) now f) else f.
Proof.
  unfold tracking_call, web_visit, api_visit, server.
  set (p := trim_slashes (pathname req)). intros Hcall.
  destruct (String.eqb (method req) "OPTIONS") eqn:Ho.
  - apply String.eqb_eq in Ho. rewrite Ho. cbn [String.eqb Ascii.eqb Bool.eqb andb negb].
    reflexivity.
  - cbn [negb andb].
    destruct (str_eqb p (js "api/health")) eqn:Hh.
    + rewrite (health_is_api p Hh). cbn [negb andb orb].
      rewrite andb_false_r. reflexivity.
    + cbn [orb].
      destruct (String.eqb (method req) "GET") eqn:Hg.
      * apply String.eqb_eq in Hg. rewrite Hg.
        cbn [String.eqb Ascii.eqb Bool.eqb andb negb].
        rewrite !andb_false_r, andb_true_r.
        now destruct (str_eqb p (js "api/visitors/stats")).
      * cbn [andb]. rewrite andb_false_r.
        destruct (String.eqb (method req) "POST") eqn:Hp.
        -- cbn [andb] in Hcall. rewrite Hcall. cbn [andb].
           destruct (api_path p); [|reflexivity].
           destruct (parse_body (body req)) as [payload|e]; [|reflexivity].
           now destruct (dispatch p payload).
        -- rewrite andb_false_r. reflexivity.
Qed.

Lemma server_counts (now : Z) (req : request) (f : file) (t w a : Z) :
  tracking_call req = false ->
  counter_of (js "total") f = Some (CNum t) ->
  counter_of (js "web") f = Some (CNum w) ->
  counter_of (js "api") f = Some (CNum a) ->
  counter_of (js "total") (snd (server now req f))
  = Some (CNum (t + Z.b2z (web_visit req) + Z.b2z (api_visit req)))
  /\ counter_of (js "web") (snd (server now req f))
     = Some (CNum (w + Z.b2z (web_visit req)))
  /\ counter_of (js "api") (snd (server now req f))
     = Some (CNum (a + Z.b2z (api_visit req))).
Proof.
  intros Hcall Ht Hw Ha. rewrite (server_file now req f Hcall). cbv zeta.
  assert (Web : exists f',
             (if web_visit req
              then snd (trackVisitor (VStr (js "web")) now f) else f) = f'
             /\ counter_of (js "total") f'
                = Some (CNum (t + Z.b2z (web_visit req)))
             /\ counter_of (js "web") f'
                = Some (CNum (w + Z.b2z (web_visit req)))
             /\ counter_of (js "api") f' = Some (CNum a)).
  { eexists. split; [reflexivity|]. destruct (web_visit req); cbn [Z.b2z].
    - destruct (VisitorFacts.track_web now f t w Ht Hw) as [Ht' Hw'].
      split; [exact Ht'|]. split; [exact Hw'|].
      apply (track_other _ (js "web")); try discriminate; [reflexivity|exact Ha].
    - now rewrite !Z.add_0_r. }
  destruct Web as (f' & -> & Ht' & Hw' & Ha').
  destruct (api_visit req); cbn [Z.b2z].
  - split; [|split].
    + apply (VisitorFacts.track_total _ (js "api"));
        [reflexivity|discriminate|exact Ht'].
    + apply (track_other _ (js "api")); try discriminate; [reflexivity|exact Hw'].
    + now apply track_api.
  - now rewrite !Z.add_0_r.
Qed.

Lemma serve_all_visits (requests : list (Z * request)) (f : file) (t w a : Z) :
  (forall r, In r requests -> tracking_call (snd r) = false) ->
  counter_of (js "total") f = Some (CNum t) ->
  counter_of (js "web") f = Some (CNum w) ->
  counter_of (js "api") f = Some (CNum a) ->
  counter_of (js "total") (serve_all requests f)
  = Some (CNum (t + visits web_visit requests + visits api_visit requests))
  /\ counter_of (js "web") (serve_all requests f)
     = Some (CNum (w + visits web_visit requests))
  /\ counter_of (js "api") (serve_all requests f)
     = Some (CNum (a + visits api_visit requests)).
Proof.
  revert f t w a.
  induction requests as [|[now req] requests IH]; intros f t w a Hall Ht Hw Ha.
  - unfold visits. cbn. now rewrite !Z.add_0_r.
  - cbn [serve_all].
    destruct (server_counts now req f t w a (Hall (now, req) (or_introl eq_refl))
                Ht Hw Ha) as (Ht' & Hw' & Ha').
    destruct (IH _ _ _ _ (fun r Hr => Hall r (or_intror Hr)) Ht' Hw' Ha')
      as (IHt & IHw & IHa).
    rewrite IHt, IHw, IHa. unfold visits. cbn [filter snd].
    destruct (web_visit req), (api_visit req); cbn [Z.b2z List.length];
      repeat split; do 2 f_equal; lia.
Qed.

End WithNumbers.

End ListenerFacts.

(** X20.  The listener counts a GET outside api/ as a web visit, and the
    health check and every POST under api/ as an api visit, also when the
    body is no JSON text or the path is no tool; an OPTIONS request is never
    an api visit.  So, from an absent visitor file and after any requests
    other than POSTs to the tracking endpoint, web and api hold the numbers of
    these visits and total is their sum. *)
Theorem visits_counted {M : Json.NumberModel}
        (requests : list (Z * Server.request)) :
  (forall r, In r requests -> VisitorSpec.tracking_call (snd r) = false) ->
  Server.counter_of (js "web") (Server.serve_all requests None)
  = Some (Server.CNum (VisitorSpec.visits VisitorSpec.web_visit requests))
  /\ Server.counter_of (js "api") (Server.serve_all requests None)
     = Some (Server.CNum (VisitorSpec.visits VisitorSpec.api_visit requests))
  /\ Server.counter_of (js "total") (Server.serve_all requests None)
     = Some (Server.CNum (VisitorSpec.visits VisitorSpec.web_visit requests
                          + VisitorSpec.visits VisitorSpec.api_visit requests)).
Proof.
  intros Hall.
  destruct (ListenerFacts.serve_all_visits requests None 0 0 0 Hall
              eq_refl eq_refl eq_refl) as (Ht & Hw & Ha).
  rewrite Ht, Hw, Ha. repeat split.
Qed.

Lemma visits_counted_witness :
  Server.counter_of (js "web")
    (Server.serve_all (M := IntegerNumbers.model)
       [ (1, {| Server.method := "GET"; Server.pathname := js "/";
                Server.body := [] |});
         (2, {| Server.method := "POST";
                Server.pathname := js "/api/base64/encode";
                Server.body := js "no json" |});
         (3, {| Server.method := "OPTIONS";
                Server.pathname := js "/api/health"; Server.body := [] |});
         (4, {| Server.method := "GET"; Server.pathname := js "/api/health/";
                Server.body := [] |});
         (5, {| Server.method := "GET"; Server.pathname := js "/api/unknown";
                Server.body := [] |}) ] None)
  = Some (Server.CNum 1)
  /\ Server.counter_of (js "api")
       (Server.serve_all (M := IntegerNumbers.model)
          [ (1, {| Server.method := "GET"; Server.pathname := js "/";
                   Server.body := [] |});
            (2, {| Server.method := "POST";
                   Server.pathname := js "/api/base64/encode";
                   Server.body := js "no json" |});
            (3, {| Server.method := "OPTIONS";
                   Server.pathname := js "/api/health"; Server.body := [] |});
            (4, {| Server.method := "GET"; Server.pathname := js "/api/health/";
                   Server.body := [] |});
            (5, {| Server.method := "GET"; Server.pathname := js "/api/unknown";
                   Server.body := [] |}) ] None)
     = Some (Server.CNum 2)
  /\ Server.counter_of (js "total")
       (Server.serve_all (M := IntegerNumbers.model)
          [ (1, {| Server.method := "GET"; Server.pathname := js "/";
                   Server.body := [] |});
            (2, {| Server.method := "POST";
                   Server.pathname := js "/api/base64/encode";
                   Server.body := js "no json" |});
            (3, {| Server.method := "OPTIONS";
                   Server.pathname := js "/api/health"; Server.body := [] |});
            (4, {| Server.method := "GET"; Server.pathname := js "/api/health/";
                   Server.body := [] |});
            (5, {| Server.method := "GET"; Server.pathname := js "/api/unknown";
                   Server.body := [] |}) ] None)
     = Some (Server.CNum (1 + 2)).
Proof.
  apply (@visits_counted IntegerNumbers.model
           [ (1, {| Server.method := "GET"; Server.pathname := js "/";
                    Server.body := [] |});
             (2, {| Server.method := "POST";
                    Server.pathname := js "/api/base64/encode";
                    Server.body := js "no json" |});
             (3, {| Server.method := "OPTIONS";
                    Server.pathname := js "/api/health"; Server.body := [] |});
             (4, {| Server.method := "GET"; Server.pathname := js "/api/health/";
                    Server.body := [] |});
             (5, {| Server.method := "GET"; Server.pathname := js "/api/unknown";
                    Server.body := [] |}) ]).
  intros r Hr. cbn [In] in Hr.
  repeat (destruct Hr as [<-|Hr]; [reflexivity|]). destruct Hr.
Defined.

(** X21.  The listener reads the path without the slashes at its ends: a
    request answers and counts the same with any number of slashes more
    before and behind its path. *)
Theorem outer_slashes_ignored {M : Json.NumberModel}
        (now : Z) (req : Server.request) (f : Server.file) (i j : nat) :
  Server.server now
    (VisitorSpec.at_path req
       (repeat 47 i ++ Server.pathname req ++ repeat 47 j)) f
  = Server.server now req f.
Proof.
  unfold Server.server, VisitorSpec.at_path.
  cbn [Server.method Server.pathname Server.body].
  now rewrite ListenerFacts.trim_outer_slashes.
Qed.

(** X22.  What the listener answers by the method alone: a GET is always
    answered 200, an OPTIONS request 200 with an empty body and no visit;
    a request of any other method than GET, POST and OPTIONS gets 404 Not
    found, except on the health check, and so does a POST outside api/.  The
    health check answers 200 and counts an api visit for every method but
    OPTIONS, whatever the body.  A POST whose body is not empty and no JSON
    text gets 400: Invalid JSON from the tracking endpoint, which then counts
    nothing, and Invalid JSON payload from every path under api/ other than
    the tracking endpoint and the health check, tool or not. *)
Theorem answers_by_method {M : Json.NumberModel}
        (now : Z) (req : Server.request) (f : Server.file) :
  (Server.method req = "GET"%string ->
   exists content, fst (Server.server now req f) = Server.Respond 200 content)
  /\ (Server.method req = "OPTIONS"%string ->
      Server.server now req f = (Server.Respond 200 Server.Empty, f))
  /\ (Server.method req <> "GET"%string ->
      Server.method req <> "POST"%string ->
      Server.method req <> "OPTIONS"%string ->
      Server.trim_slashes (Server.pathname req) <> js "api/health" ->
      Server.server now req f
      = (Server.Respond 404 (Server.ErrorBody "Not found"), f))
  /\ (Server.method req = "POST"%string ->
      Server.api_path (Server.trim_slashes (Server.pathname req)) = false ->
      Server.server now req f
      = (Server.Respond 404 (Server.ErrorBody "Not found"), f))
  /\ (Server.method req <> "OPTIONS"%string ->
      Server.trim_slashes (Server.pathname req) = js "api/health" ->
      (exists visitors,
          fst (Server.server now req f)
          = Server.Respond 200 (Server.Health visitors))
      /\ snd (Server.server now req f)
         = snd (Server.trackVisitor (Json.VStr (js "api")) now f))
  /\ (forall e,
         Server.method req = "POST"%string ->
         Server.parse_body (Server.body req) = Throw e ->
         (Server.trim_slashes (Server.pathname req) = js "api/visitors/track" ->
          Server.server now req f
          = (Server.Respond 400 (Server.ErrorBody "Invalid JSON"), f))
         /\ (Server.api_path (Server.trim_slashes (Server.pathname req)) = true ->
             Server.trim_slashes (Server.pathname req) <> js "api/health" ->
             Server.trim_slashes (Server.pathname req)
             <> js "api/visitors/track" ->
             fst (Server.server now req f)
             = Server.Respond 400 (Server.ErrorBody "Invalid JSON payload"))).
Proof.
  unfold Server.server. set (p := Server.trim_slashes (Server.pathname req)).
  split; [|split; [|split; [|split; [|split]]]].
  - intros ->. cbn [String.eqb Ascii.eqb Bool.eqb andb negb].
    destruct (str_eqb p (js "api/health")); [eexists; reflexivity|].
    rewrite !andb_false_r.
    destruct (str_eqb p (js "api/visitors/stats")); eexists; reflexivity.
  - intros ->. reflexivity.
  - intros Hg Hp Ho Hh.
    apply String.eqb_neq in Hg, Hp, Ho. apply str_eqb_neq in Hh.
    rewrite Hg, Hp, Ho, Hh. now rewrite !andb_false_r.
  - intros -> Hapi. cbn [String.eqb Ascii.eqb Bool.eqb andb negb].
    rewrite Hapi.
    destruct (str_eqb p (js "api/health")) eqn:Hh;
      [now rewrite (ListenerFacts.health_is_api p Hh) in Hapi|].
    destruct (str_eqb p (js "api/visitors/track")) eqn:Ht;
      [now rewrite (ListenerFacts.track_is_api p Ht) in Hapi|].
    now rewrite !andb_false_r.
  - intros Ho ->. apply String.eqb_neq in Ho. rewrite Ho.
    change (Server.api_path (js "api/health")) with true.
    change (str_eqb (js "api/health") (js "api/health")) with true.
    cbn [negb andb]. rewrite andb_false_r.
    split; [eexists; reflexivity|reflexivity].
  - intros e -> Hbody. cbn [String.eqb Ascii.eqb Bool.eqb andb negb]. split.
    + intros ->. rewrite Hbody. reflexivity.
    + intros Hapi Hh Ht. apply str_eqb_neq in Hh, Ht.
      rewrite Hh, Ht, Hapi, Hbody. now rewrite !andb_false_r.
Qed.
